(** * CCMgen / CCMpredPy: model-probability serializer and command-line driver

    A shallow embedding of [ccmpred/model_probabilities.py] and of the
    control flow of [ccmpred/scripts/run_ccmpred.py].

    - numpy float64 values are Rocq's primitive binary64 floats;
    - numpy arrays are nested lists, indexed with stdpp's list lookup; an index
      out of range raises [IndexError] as numpy does;
    - Python objects that are passed by reference (the arrays handed to
      [write_msgpack], the arrays it creates and then assigns into) live in a
      heap of array cells; file handles, the standard output and the heap make
      up the [world] that the code threads through;
    - exceptions are the [Raise] case of [outcome];
    - the interpreter is a parameter where Python 2 and Python 3 differ on
      the code, which is at one operator: [/] on two ints;
    - [ccmpred.counts] and the [CCMpred] object are collaborators whose code
      is elsewhere: the counts are an interface ([CountsEngine]), the calls of
      [main] on [CCMpred] are recorded in the order they are made.

    Layout: the embedding ([Numpy], [Counts], the world, [ModelProbabilities],
    [RunCcmpred]), then the vocabulary of the statements and the concrete
    inputs, then the proofs. *)

From Stdlib Require Import ZArith List String Ascii Floats Lia.
From stdpp Require Import base option list sorting gmap strings.

(** ** Python outcomes *)

Inductive exn : Set :=
| IndexError
| ValueError
| TypeError
| UnboundLocalError
| IOError.

Inductive outcome (A : Type) : Type :=
| Ok (a : A)
| Raise (e : exn).

Arguments Ok {A} a.
Arguments Raise {A} e.

(** ** The interpreter *)

(** The sources are written for Python 2 and for Python 3: strings are
    tested against [six.string_types], [print] is called as a function. On
    the code embedded here the two interpreters differ in one place, the
    operator [/] on two ints: the integer quotient under Python 2, true
    division with a float for result under Python 3. *)
Inductive python : Type :=
| Python2
| Python3.

#[global] Instance outcome_ret : MRet outcome := λ A a, Ok a.

#[global] Instance outcome_bind : MBind outcome :=
  λ A B f m, match m with Ok a => f a | Raise e => Raise e end.

(** ** numpy arrays *)

Abbreviation vector := (list float).
Abbreviation matrix := (list (list float)).
Abbreviation tensor3 := (list (list (list float))).
Abbreviation tensor4 := (list (list (list (list float)))).
(** An alignment is a 2-D array of symbol indices (0..19 amino acids, 20 gap). *)
Abbreviation alignment := (list (list nat)).

Module Numpy.

(** [a[i]]: out of range raises IndexError (indices here come from [range],
    so they are never negative). *)
Definition getitem {A} (a : list A) (i : nat) : outcome A :=
  match a !! i with
  | Some x => Ok x
  | None => Raise IndexError
  end.

(** [m[i, j]] *)
Definition getitem2 (m : matrix) (i j : nat) : outcome float :=
  r ← getitem m i; getitem r j.

(** A Python number, by its type. *)
Inductive number : Type :=
| Int (n : nat)
| Float (x : float).

(** The float nearest to an int. *)
Definition float_of_nat (n : nat) : float :=
  SF2Prim (SpecFloat.binary_normalize prec emax (Z.of_nat n) 0 false).

(** [a / b] on two ints, [a] not negative and [b] positive. Under Python 3
    the result is a float whatever the operands, also when [b] divides [a]
    ([0 / 2] is [0.0]); its value is the quotient of the two floats, which is
    the correctly rounded quotient as long as both ints are below [2 ^ 53]. *)
Definition div (py : python) (a b : nat) : number :=
  match py with
  | Python2 => Int (a / b)
  | Python3 => Float (float_of_nat a / float_of_nat b)
  end.

(** The array of zeros of shape [(n, m)], for ints [n] and [m]. *)
Definition zeros2 (n m : nat) : matrix := replicate n (replicate m 0%float).

(** [np.zeros((n, m))]: a float in the shape is refused with TypeError
    ("'float' object cannot be interpreted as an integer"), also a float
    with an integral value. *)
Definition zeros (n : number) (m : nat) : outcome matrix :=
  match n with
  | Int n => Ok (zeros2 n m)
  | Float _ => Raise TypeError
  end.

(** Sums over the innermost axis. [a.sum(axis)] is [np.add.reduce]: for
    each cell of the result it starts from the identity 0 and adds numpy's
    pairwise sum of the [n] values along the axis. That sum is taken one
    value after the other for [n < 8]; up to 128 values go into eight
    running sums, [r[k]] taking the values at positions [k], [k + 8],
    [k + 16], ..., which are joined as
    [((r0 + r1) + (r2 + r3)) + ((r4 + r5) + (r6 + r7))] before the [n mod 8]
    values that remain are added one by one; a longer run is split in two
    at a multiple of 8 near the middle. *)
Fixpoint accumulate8 (rounds : nat) (r rest : vector) : vector :=
  match rounds with
  | 0 => r
  | S rounds' =>
      accumulate8 rounds' (zip_with PrimFloat.add r (take 8 rest)) (drop 8 rest)
  end.

Definition join8 (r : vector) : float :=
  match r with
  | [r0; r1; r2; r3; r4; r5; r6; r7] =>
      (((r0 + r1) + (r2 + r3)) + ((r4 + r5) + (r6 + r7)))%float
  | _ => 0%float
  end.

(** A run of 8 to 128 values. *)
Definition block_sum (a : vector) : float :=
  let n := length a in
  let full := n - n mod 8 in
  let r := accumulate8 (full / 8 - 1) (take 8 a) (drop 8 (take full a)) in
  fold_left PrimFloat.add (drop full a) (join8 r).

(** [depth] bounds the number of times a run is split; every split at least
    halves what is left above 128 values, so the length of the run is
    depth enough. *)
Fixpoint pairwise_sum_rec (depth : nat) (a : vector) : float :=
  let n := length a in
  if n <? 8 then fold_left PrimFloat.add a neg_zero
  else if n <=? 128 then block_sum a
  else match depth with
       | 0 => block_sum a
       | S depth' =>
           let n2 := n / 2 - (n / 2) mod 8 in
           (pairwise_sum_rec depth' (take n2 a) + pairwise_sum_rec depth' (drop n2 a))%float
       end.

Definition pairwise_sum (a : vector) : float := pairwise_sum_rec (length a) a.

Definition add_reduce (a : vector) : float := (0 + pairwise_sum a)%float.

(** [t.sum(3)] of a 4-D array and [t.sum(2)] of the resulting 3-D array. *)
Definition sum_axis3 (t : tensor4) : tensor3 := map (map (map add_reduce)) t.

Definition sum_axis2 (t : tensor3) : matrix := map (map add_reduce) t.

(** [m.sum(1)] of a 2-D array. *)
Definition sum_axis1 (m : matrix) : vector := map add_reduce m.

(** [t[:, :, :20, :20]] and [m[:, :20]]: slices truncate, they never raise. *)
Definition slice_20_20 (blk : matrix) : matrix := map (take 20) (take 20 blk).

Definition slice4_20_20 (t : tensor4) : tensor4 := map (map slice_20_20) t.

Definition slice2_20 (m : matrix) : matrix := map (take 20) m.

(** [t[i, j, :20, :20].flatten()]: row-major flattening of the sliced block. *)
Definition block_flat (t : tensor4) (i j : nat) : outcome vector :=
  ti ← getitem t i;
  blk ← getitem ti j;
  mret (concat (slice_20_20 blk)).

(** Elementwise binary operation on two 1-D arrays with numpy broadcasting:
    equal lengths pair up, a length-one operand is stretched, anything else
    is a ValueError. *)
Definition broadcast2 (f : float → float → float) (xs ys : vector) : outcome vector :=
  if length xs =? length ys then Ok (zip_with f xs ys)
  else match xs, ys with
       | [x], _ => Ok (map (f x) ys)
       | _, [y] => Ok (map (λ x, f x y) xs)
       | _, _ => Raise ValueError
       end.

(** [m[index, :] = v] on a 2-D array: the row must exist, and [v] must
    broadcast to the row's width. *)
Definition setitem_row (m : matrix) (index : nat) (v : vector) : outcome matrix :=
  old ← getitem m index;
  if length v =? length old then Ok (<[index := v]> m)
  else match v with
       | [x] => Ok (<[index := replicate (length old) x]> m)
       | _ => Raise ValueError
       end.

(** [np.tril_indices(n, k=-1)]: numpy computes [nonzero(tri(n, n, -1))], the
    cells [(i, j)] with [j < i] of the [n] by [n] grid in row-major order. *)
Definition tril_indices (n : nat) : list (nat * nat) :=
  List.filter (λ ij, snd ij <? fst ij) (list_prod (seq 0 n) (seq 0 n)).

(** [m[(rows, cols)]]: integer-array indexing with a pair of index arrays. *)
Fixpoint take_along (m : matrix) (idx : list (nat * nat)) : outcome vector :=
  match idx with
  | [] => Ok []
  | (i, j) :: idx' =>
      x ← getitem2 m i j;
      xs ← take_along m idx';
      mret (x :: xs)
  end.

(** Boolean masks, with the number of axes they carry. *)
Inductive mask : Type :=
| Mask1 (m : list bool)
| Mask2 (m : list (list bool)).

(** [a[mask] = c] for a 1-D array [a]. A boolean index consumes one axis of
    the indexed array per axis of the mask: a 1-D mask of the right length
    selects cells, a 2-D mask asks for two axes of a 1-D array, which numpy
    refuses with IndexError ("too many indices for array"). *)
Definition setitem_mask (a : vector) (m : mask) (c : float) : outcome vector :=
  match m with
  | Mask1 bs =>
      if length bs =? length a
      then Ok (zip_with (λ x (b : bool), if b then c else x) a bs)
      else Raise IndexError
  | Mask2 _ => Raise IndexError
  end.

End Numpy.

(** ** The counts engine *)

(** [ccmpred.counts], as [model_probabilities.py] uses it: two functions
    from an alignment and a weight vector to a count array. The module is a
    compiled extension whose source is not part of the code embedded here, so
    the functions of [model_probabilities.py] take it as an interface. *)
Class CountsEngine : Type := {
  single_counts : alignment → vector → matrix;
  pair_counts : alignment → vector → tensor4
}.

Module Counts.

(** Number of columns of an alignment (the length of its rows). *)
Definition ncols (msa : alignment) : nat :=
  match msa with
  | [] => 0
  | r :: _ => length r
  end.

(** One-hot indicator as a float. *)
Definition indicator (b : bool) : float := if b then 1%float else 0%float.

Definition symbol_at (row : list nat) (i a : nat) : bool :=
  match row !! i with
  | Some s => s =? a
  | None => false
  end.

(** Weighted sum over the sequences of an indicator of the sequence. *)
Definition weighted_sum (msa : alignment) (weights : vector) (hit : list nat → bool) : float :=
  fold_left (λ acc rw, (acc + snd rw * indicator (hit (fst rw)))%float)
            (zip msa weights) 0%float.

(** Modelled from the spec: [ccmpred.counts.single_counts], which is not
    among the sources. Section 4.1: "Single counts: for each column, the
    weighted sum of one-hot symbol indicators"; the array is shaped [L, 21]. *)
Definition spec_single_counts (msa : alignment) (weights : vector) : matrix :=
  map (λ i, map (λ a, weighted_sum msa weights (λ row, symbol_at row i a)) (seq 0 21))
      (seq 0 (ncols msa)).

(** Modelled from the spec: [ccmpred.counts.pair_counts], which is not among
    the sources. Section 4.1: "Pair counts: for each column pair (i,j), the
    weighted sum of joint one-hot indicators"; the array is shaped
    [L, L, 21, 21]. *)
Definition spec_pair_counts (msa : alignment) (weights : vector) : tensor4 :=
  map (λ i, map (λ j, map (λ a, map (λ b,
        weighted_sum msa weights (λ row, symbol_at row i a && symbol_at row j b))
      (seq 0 21)) (seq 0 21)) (seq 0 (ncols msa))) (seq 0 (ncols msa)).

(** The counts engine as the spec describes it. *)
Definition spec_engine : CountsEngine :=
  {| single_counts := spec_single_counts; pair_counts := spec_pair_counts |}.

End Counts.

(** ** The world: array heap, file handles, standard output *)

Definition loc := nat.

Definition handle := nat.

(** Array objects, by element type and number of axes. *)
Inductive ndarray : Type :=
| NdU8 (m : alignment)
| Nd1 (v : vector)
| Nd2 (m : matrix)
| Nd4 (t : tensor4).

(** The two warnings of [write_msgpack], with the counts they print. *)
Inductive warning : Type :=
| WarnNegative (count : nat)
| WarnNan (column_counts : list nat).

Inductive event : Type :=
| EvOpen (gz : bool) (path mode : string) (fh : handle)
| EvClose (fh : handle)
| EvWrite (fh : handle) (packed : gmap string vector)
| EvPrint (msg : warning).

Record world : Type := World {
  heap : gmap loc ndarray;
  opened : gset handle;
  next_handle : handle;
  openable : string → bool;
  log : list event
}.

(** Computations in the world that may raise. *)
Definition M (A : Type) : Type := world → outcome A * world.

#[global] Instance M_ret : MRet M := λ A a w, (Ok a, w).

#[global] Instance M_bind : MBind M :=
  λ A B f m w, match m w with
               | (Ok a, w') => f a w'
               | (Raise e, w') => (Raise e, w')
               end.

Definition lift {A} (o : outcome A) : M A := λ w, (o, w).

Definition set_heap (h : gmap loc ndarray) (w : world) : world :=
  World h (opened w) (next_handle w) (openable w) (log w).

Definition add_event (e : event) (w : world) : world :=
  World (heap w) (opened w) (next_handle w) (openable w) (log w ++ [e]).

(** A new array object: a cell no existing reference points to. *)
Definition alloc (a : ndarray) : M loc :=
  λ w, let l := fresh (dom (heap w)) in (Ok l, set_heap (<[l := a]> (heap w)) w).

Definition load (l : loc) : M ndarray :=
  λ w, match heap w !! l with
       | Some a => (Ok a, w)
       | None => (Raise TypeError, w)
       end.

(** In-place update of an existing array object. *)
Definition store (l : loc) (a : ndarray) : M unit :=
  λ w, (Ok tt, set_heap (<[l := a]> (heap w)) w).

Definition load_msa (l : loc) : M alignment :=
  a ← load l; match a with NdU8 m => mret m | _ => lift (Raise TypeError) end.

Definition load1 (l : loc) : M vector :=
  a ← load l; match a with Nd1 v => mret v | _ => lift (Raise TypeError) end.

Definition load2 (l : loc) : M matrix :=
  a ← load l; match a with Nd2 m => mret m | _ => lift (Raise TypeError) end.

Definition load4 (l : loc) : M tensor4 :=
  a ← load l; match a with Nd4 t => mret t | _ => lift (Raise TypeError) end.

Definition print (msg : warning) : M unit :=
  λ w, (Ok tt, add_event (EvPrint msg) w).

(** [open(f, mode)] / [gzip.open(f, mode)]: fails with IOError when the
    file system refuses the path, otherwise yields a new open handle. *)
Definition open_fn (gz : bool) (f mode : string) : M handle :=
  λ w, if openable w f
       then let fh := next_handle w in
            (Ok fh, World (heap w) ({[fh]} ∪ opened w) (S fh) (openable w)
                          (log w ++ [EvOpen gz f mode fh]))
       else (Raise IOError, w).

(** [fh.close()]: idempotent. *)
Definition close (fh : handle) : M unit :=
  λ w, (Ok tt, World (heap w) (opened w ∖ {[fh]}) (next_handle w) (openable w)
                     (log w ++ [EvClose fh])).

(** [fh.write(data)]: writing to a closed file is a ValueError. *)
Definition write (fh : handle) (packed : gmap string vector) : M unit :=
  λ w, if decide (fh ∈ opened w)
       then (Ok tt, add_event (EvWrite fh packed) w)
       else (Raise ValueError, w).

(** [for x in xs: s = body(s, x)] *)
Fixpoint for_each {A S} (xs : list A) (body : S → A → M S) (s : S) : M S :=
  match xs with
  | [] => mret s
  | x :: xs' => s' ← body s x; for_each xs' body s'
  end.

(** [range(a, b)] *)
Definition range (a b : nat) : list nat := seq a (b - a).

(** ** ccmpred/model_probabilities.py *)

Module ModelProbabilities.
Import Numpy.

(** The first argument of a function wrapped by [stream_or_file]: a file
    name ([isinstance(f, string_types)]) or a file-like object. *)
Inductive file_arg : Type :=
| Path (f : string)
| Stream (fh : handle).

(** [f.endswith(suffix)] *)
Definition endswith (s suffix : string) : bool :=
  let n := String.length s in
  let k := String.length suffix in
  (k <=? n) && String.eqb (substring (n - k) k s) suffix.

(** [stream_or_file(mode)(fn)]: the wrapper [streamify]. The remaining
    arguments of [fn] are those of the closure [fn].

    With a path, [open_fn] is [gzip.open] when the name ends in ".gz" and
    [open] otherwise; the [finally] clause closes the handle whether [fn]
    returned or raised, and the outcome of [fn] is passed on. When the open
    itself raises, the [finally] clause reads the name [fh] before it was
    ever bound, so the call ends in UnboundLocalError. *)
Definition stream_or_file {R} (mode : string) (fn : handle → M R) (f : file_arg) : M R :=
  match f with
  | Path p =>
      let gz := endswith p ".gz" in
      λ w, match open_fn gz p mode w with
           | (Ok fh, w1) =>
               let '(res, w2) := fn fh w1 in
               let '(_, w3) := close fh w2 in
               (res, w3)
           | (Raise _, w1) => (Raise UnboundLocalError, w1)
           end
  | Stream fh => fn fh
  end.

(** [calculate_Ni(msa, weights)] *)
Definition calculate_Ni `{CountsEngine} (msa : alignment) (weights : vector) : vector :=
  let counts := single_counts msa weights in
  let counts := slice2_20 counts in
  sum_axis1 counts.

(** [calculate_Nij(msa, weights)] *)
Definition calculate_Nij `{CountsEngine} (msa : alignment) (weights : vector) : matrix :=
  let counts := pair_counts msa weights in
  let counts := slice4_20_20 counts in
  sum_axis2 (sum_axis3 counts).

(** The optimisation result handed to [write_msgpack]: only [res.ncol] and
    the reference [res.x_pair] are read. *)
Record result : Type := Result {
  ncol : nat;
  x_pair : loc
}.

(** [sum(model_prob_flat < 0)] *)
Definition count_true (bs : list bool) : nat := length (List.filter id bs).

(** [sum(np.isnan(model_prob))]: the built-in [sum] adds the rows of the
    2-D mask, giving one count per column. *)
Definition column_counts (m : list (list bool)) : list nat :=
  fold_left (λ acc row, zip_with Nat.add acc (map Nat.b2n row)) m (replicate 400 0).

Definition is_negative (q : float) : bool := (q <? 0)%float.

Section write_msgpack.
Context `{CountsEngine}.
Variable py : python.
Variable outmsgpackfile : handle.
Variable res : result.
Variables msa weights pair_freq : loc.
Variable lambda_pair : float.

(** The body of the inner loop, lines 62-69; [index] is the loop-carried
    counter. *)
Definition fill_row (Nij : matrix) (model_prob : loc) (i : nat) (index : nat) (j : nat) : M nat :=
  pf ← load4 pair_freq;
  pair_freq_ij ← lift (block_flat pf i j);
  xp ← load4 (x_pair res);
  x_pair_ij ← lift (block_flat xp i j);
  nij ← lift (getitem2 Nij i j);
  row ← lift (broadcast2 PrimFloat.sub pair_freq_ij
                (map (λ x, (x * lambda_pair / nij)%float) x_pair_ij));
  mp ← load2 model_prob;
  mp' ← lift (setitem_row mp index row);
  _ ← store model_prob (Nd2 mp');
  mret (index + 1).

(** The loop nest of lines 58-69. *)
Definition fill_model_prob (Nij : matrix) (model_prob : loc) : M nat :=
  for_each (range 0 (ncol res - 1))
    (λ index i, for_each (range (i + 1) (ncol res)) (fill_row Nij model_prob i) index)
    0.

(** Lines 72-90: flatten, the two clamping steps, and the write. *)
Definition clamp_and_write (out : gmap string vector) (model_prob : loc) : M unit :=
  mp ← load2 model_prob;
  model_prob_flat ← alloc (Nd1 (concat mp));
  flat ← load1 model_prob_flat;
  _ ← (if existsb is_negative flat
       then _ ← print (WarnNegative (count_true (map is_negative flat)));
            flat' ← lift (setitem_mask flat (Mask1 (map is_negative flat)) 0%float);
            store model_prob_flat (Nd1 flat')
       else mret tt);
  flat ← load1 model_prob_flat;
  _ ← (if existsb PrimFloat.is_nan flat
       then mp ← load2 model_prob;
            _ ← print (WarnNan (column_counts (map (map PrimFloat.is_nan) mp)));
            flat' ← lift (setitem_mask flat (Mask2 (map (map PrimFloat.is_nan) mp)) 0%float);
            store model_prob_flat (Nd1 flat')
       else mret tt);
  flat ← load1 model_prob_flat;
  let out := <[ "q_ij"%string := flat ]> out in
  write outmsgpackfile out.

(** The undecorated [write_msgpack], under the interpreter [py]. The number
    of rows of [model_prob] at line 57 is [res.ncol * (res.ncol-1)/2]: an int
    under Python 2, a float under Python 3, where [np.zeros] raises
    TypeError before any array is allocated. *)
Definition write_msgpack_fn : M unit :=
  msa_v ← load_msa msa;
  weights_v ← load1 weights;
  let Nij := calculate_Nij msa_v weights_v in
  n_ij ← lift (take_along Nij (tril_indices (ncol res)));
  let out : gmap string vector := {[ "N_ij"%string := n_ij ]} in
  zeroed ← lift (zeros (div py (ncol res * (ncol res - 1)) 2) 400);
  model_prob ← alloc (Nd2 zeroed);
  _ ← fill_model_prob Nij model_prob;
  clamp_and_write out model_prob.

End write_msgpack.

(** [write_msgpack], as decorated with [@stream_or_file('wb')]. *)
Definition write_msgpack `{CountsEngine} (py : python) (f : file_arg) (res : result)
    (msa weights pair_freq : loc) (lambda_pair : float) : M unit :=
  stream_or_file "wb" (λ fh, write_msgpack_fn py fh res msa weights pair_freq lambda_pair) f.

End ModelProbabilities.

(** ** ccmpred/scripts/run_ccmpred.py *)

Module RunCcmpred.

(** The namespace returned by [parser.parse_args()], restricted to the
    attributes that decide the control flow of [parse_args] and [main]; the
    numeric settings are only handed on to the collaborators. *)
Record options : Type := Options {
  alnfile : string;
  matfile : option string;
  out_binary_raw_file : option string;
  initrawfile : option string;
  optimize : bool;
  pdbfile : option string;
  logo : bool;
  objfun : string;
  algorithm : string;
  omes : bool;
  mi : bool
}.

(** The defaults given to [add_argument], for a positional [alnfile]. *)
Definition defaults (aln : string) : options :=
  {| alnfile := aln; matfile := None; out_binary_raw_file := None;
     initrawfile := None; optimize := true; pdbfile := None; logo := true;
     objfun := "pll"; algorithm := "lbfgs"; omes := false; mi := false |}.

(** Truth value of an optional string: [None] and the empty string are false. *)
Definition truthy (o : option string) : bool :=
  match o with
  | Some s => negb (String.eqb s "")
  | None => false
  end.

(** The calls [main] makes on its collaborators, in the source's names. *)
Inductive call : Set :=
| logo_logo
| set_omp_num_threads
| print_threads
| new_CCMpred
| set_alignment_file
| set_matfile
| set_pdb_file
| set_initraw_file
| read_alignment
| compute_sequence_weights
| compute_frequencies
| read_pdb
| compute_omes
| compute_mutual_info
| write_matrix
| specify_regularization
| intialise_potentials
| new_Progress
| new_objfun (name : string)
| new_algorithm (name : string)
| minimize
| print_do_not_optimize
| compute_contact_matrix
| compute_correction
| write_binary_raw.

#[global] Instance call_eq_dec : EqDecision call.
Proof. solve_decision. Defined.

(** How a run ends: [sys.exit(code)], [parser.error] (usage message, exit
    status 2), or an exception that nobody catches (traceback, status 1). *)
Inductive status : Type :=
| SysExit (code : Z)
| UsageError (message : string)
| Traceback (raised_by : call).

(** The exit status of the process, as its parent sees it. [sys.exit(code)]
    hands an int to the C library's [exit] as a C long, and the parent
    receives its low 8 bits: [sys.exit(256)] ends with status 0 and
    [sys.exit(300)] with status 44. An int that does not fit a C long (64
    bits) ends the process with status 255 under Python 3; the statements
    below that name a status after [sys.exit] are about ints that fit. *)
Definition exit_code (s : status) : Z :=
  match s with
  | SysExit c => if (- 2 ^ 63 <=? c)%Z && (c <? 2 ^ 63)%Z then c mod 256 else 255
  | UsageError _ => 2
  | Traceback _ => 1
  end.

(** The collaborators' side of a run: which calls raise, and the code the
    optimizer leaves in [ccm.algret['code']]. *)
Record env : Type := Env {
  raises : call → bool;
  algret_code : Z
}.

(** A run is a list of calls made so far and either a value or the end. *)
Definition P (A : Type) : Type := list call → (A + status) * list call.

#[global] Instance P_ret : MRet P := λ A a t, (inl a, t).

#[global] Instance P_bind : MBind P :=
  λ A B f m t, match m t with
               | (inl a, t') => f a t'
               | (inr s, t') => (inr s, t')
               end.

Definition do (e : env) (c : call) : P unit :=
  λ t, if raises e c then (inr (Traceback c), t ++ [c]) else (inl tt, t ++ [c]).

Definition sys_exit {A} (code : Z) : P A := λ t, (inr (SysExit code), t).

Definition parser_error {A} (message : string) : P A := λ t, (inr (UsageError message), t).

Definition when (b : bool) (m : P unit) : P unit := if b then m else mret tt.

Definition neqb (a b : string) : bool := negb (String.eqb a b).

(** The conditions of the three checks of [parse_args], lines 262, 265, 268. *)
Definition guard_init (args : options) : bool :=
  negb (optimize args) && negb (truthy (initrawfile args)).

Definition guard_pll (args : options) : bool :=
  String.eqb (objfun args) "pll" &&
  (neqb (algorithm args) "conjugate_gradients" &&
   neqb (algorithm args) "numerical_differentiation" &&
   neqb (algorithm args) "lbfgs").

Definition guard_cd (args : options) : bool :=
  String.eqb (objfun args) "cd" &&
  (neqb (algorithm args) "gradient_descent" && neqb (algorithm args) "adam").

(** [parse_args], from the point where [parser.parse_args()] has returned
    the namespace [args]. *)
Definition parse_args (args : options) : P options :=
  _ ← when (guard_init args)
        (parser_error "--do-not-optimize is only supported when -i (--init-from-raw) is specified!");
  _ ← when (guard_pll args)
        (parser_error "pseudo-log-likelihood (--ofn-pll) needs to be optimized with conjugate gradients (--alg-cg) or with LBFGS (--alg-lbfgs) !");
  _ ← when (guard_cd args)
        (parser_error "contrastive divergence (--ofn-cd) needs to be optimized with gradient descent (--alg-gd) or the ADAM optimizer (--alg-ad)!");
  mret args.

(** [main] *)
Definition main_body (e : env) (args : options) : P unit :=
  opt ← parse_args args;
  _ ← when (logo opt) (do e logo_logo);
  _ ← do e set_omp_num_threads;
  _ ← do e print_threads;
  _ ← do e new_CCMpred;
  _ ← do e set_alignment_file;
  _ ← do e set_matfile;
  _ ← do e set_pdb_file;
  _ ← do e set_initraw_file;
  _ ← do e read_alignment;
  _ ← do e compute_sequence_weights;
  _ ← do e compute_frequencies;
  _ ← when (truthy (pdbfile opt)) (do e read_pdb);
  _ ← when (omes opt) (_ ← do e compute_omes; _ ← do e write_matrix; sys_exit 0);
  _ ← when (mi opt) (_ ← do e compute_mutual_info; _ ← do e write_matrix; sys_exit 0);
  _ ← do e specify_regularization;
  _ ← do e intialise_potentials;
  _ ← (if optimize opt
       then _ ← do e new_Progress;
            _ ← do e (new_objfun (objfun opt));
            _ ← do e (new_algorithm (algorithm opt));
            do e minimize
       else do e print_do_not_optimize);
  _ ← when (truthy (matfile opt))
        (_ ← do e compute_contact_matrix; _ ← do e compute_correction; do e write_matrix);
  _ ← when (truthy (out_binary_raw_file opt)) (do e write_binary_raw);
  let exitcode := 0%Z in
  let exitcode :=
    if optimize opt then (if (algret_code e <? 0)%Z then (- algret_code e)%Z else exitcode)
    else exitcode in
  sys_exit exitcode.

(** A run of [main]: the calls made, and how the process ended (falling off
    the end of [main] would end the process with status 0). *)
Definition main (e : env) (args : options) : list call * status :=
  match main_body e args [] with
  | (inr s, t) => (t, s)
  | (inl _, t) => (t, SysExit 0)
  end.

(** [parse_args] returns the namespace instead of ending the run. *)
Definition accepted (args : options) : Prop :=
  fst (parse_args args []) = inl args.

(** No collaborator call raises. *)
Definition quiet (e : env) : Prop := ∀ c, raises e c = false.

End RunCcmpred.

(** * Concrete inputs and specification vocabulary *)

Module DriverExamples.
Import RunCcmpred.

(** Collaborators that never raise; the optimizer, if run, reports [code]. *)
Definition calm (code : Z) : env := {| raises := λ _, false; algret_code := code |}.

Definition with_flags (optimize' omes' : bool) (init : option string)
    (objfun' algorithm' : string) : options :=
  {| alnfile := "aln.psc"; matfile := Some "out.mat"%string;
     out_binary_raw_file := None; initrawfile := init; optimize := optimize';
     pdbfile := None; logo := false; objfun := objfun'; algorithm := algorithm';
     omes := omes'; mi := false |}.

(** [run_ccmpred.py aln.psc -m out.mat --no-logo --do-not-optimize] *)
Definition args_do_not_optimize : options := with_flags false false None "pll" "lbfgs".

(** [run_ccmpred.py aln.psc -m out.mat --no-logo --do-not-optimize -i init.raw] *)
Definition args_from_raw : options :=
  with_flags false false (Some "init.raw"%string) "pll" "lbfgs".

(** [run_ccmpred.py aln.psc -m out.mat --no-logo --alg-gd] *)
Definition args_pll_gd : options := with_flags true false None "pll" "gradient_descent".

(** [run_ccmpred.py aln.psc -m out.mat --no-logo --ofn-cd --alg-ad] *)
Definition args_cd_adam : options := with_flags true false None "cd" "adam".

(** [run_ccmpred.py aln.psc -m out.mat --no-logo --compute-omes --ofn-cd] *)
Definition args_omes_cd : options := with_flags true true None "cd" "lbfgs".

(** [run_ccmpred.py aln.psc -m out.mat --no-logo --compute-omes] *)
Definition args_omes : options := with_flags true true None "pll" "lbfgs".

(** Calls that an alternative-score run may make. *)
Definition before_regularization : list call :=
  [logo_logo; set_omp_num_threads; print_threads; new_CCMpred;
   set_alignment_file; set_matfile; set_pdb_file; set_initraw_file;
   read_alignment; compute_sequence_weights; compute_frequencies; read_pdb;
   compute_omes; compute_mutual_info; write_matrix].

(** Calls that build the regularization, the potentials or the optimizer. *)
Definition is_fitting_call (c : call) : bool :=
  match c with
  | specify_regularization | intialise_potentials | new_Progress
  | new_objfun _ | new_algorithm _ | minimize => true
  | _ => false
  end.

End DriverExamples.

Module SerializerSpec.
Import Numpy ModelProbabilities.

(** Entry [(i, j)] of a 2-D array and [(i, j, a, b)] of a 4-D array, for
    indices inside the array. *)
Definition at2 (m : matrix) (i j : nat) : float :=
  match m !! i with
  | Some r => default 0%float (r !! j)
  | None => 0%float
  end.

Definition at4 (t : tensor4) (i j a b : nat) : float :=
  match t !! i with
  | Some ti => match ti !! j with
               | Some blk => at2 blk a b
               | None => 0%float
               end
  | None => 0%float
  end.

(** The sum of the twenty values [c 0], ..., [c 19], written out with the
    additions in the order in which [np.add.reduce] makes them on a run of
    twenty: the values 0 to 15 in eight running sums that are joined in
    pairs, then the values 16 to 19 one after the other. There is no [c 20]. *)
Definition sum20 (c : nat → float) : float :=
  let '(c0, c1, c2, c3, c4, c5, c6, c7) := (c 0, c 1, c 2, c 3, c 4, c 5, c 6, c 7) in
  let '(c8, c9, c10, c11, c12, c13, c14, c15) :=
    (c 8, c 9, c 10, c 11, c 12, c 13, c 14, c 15) in
  let '(c16, c17, c18, c19) := (c 16, c 17, c 18, c 19) in
  (0 + ((((((((c0 + c8) + (c1 + c9)) + ((c2 + c10) + (c3 + c11))) +
            (((c4 + c12) + (c5 + c13)) + ((c6 + c14) + (c7 + c15))))
           + c16) + c17) + c18) + c19))%float.

(** [m.shape == (n, k)] and [t.shape == (n1, n2, n3, n4)]. *)
Definition has_shape2 {A} (m : list (list A)) (n k : nat) : bool :=
  (length m =? n) && forallb (λ r, length r =? k) m.

Definition has_shape4 (t : tensor4) (n1 n2 n3 n4 : nat) : bool :=
  (length t =? n1) &&
  forallb (λ ti, (length ti =? n2) && forallb (λ blk, has_shape2 blk n3 n4) ti) t.

(** Column pairs [(i, j)], [i < j < L], in increasing lexicographic order. *)
Definition pairs (L : nat) : list (nat * nat) :=
  flat_map (λ i, map (pair i) (range (i + 1) L)) (range 0 (L - 1)).

(** Lexicographic order on index pairs. *)
Definition lex_lt (p q : nat * nat) : Prop :=
  p.1 < q.1 ∨ (p.1 = q.1 ∧ p.2 < q.2).

(** Cells below the diagonal, row by row with the row index going up. *)
Definition lower_rows_ascending (L : nat) : list (nat * nat) :=
  flat_map (λ i, map (pair i) (seq 0 i)) (seq 0 L).

(** Cells below the diagonal, row by row with the row index going down from
    the largest. *)
Definition lower_rows_descending (L : nat) : list (nat * nat) :=
  flat_map (λ i, map (pair i) (seq 0 i)) (rev (seq 0 L)).

Section model.
Variables pf xp : tensor4.
Variable lambda_pair : float.
Variable Nij : matrix.

(** The model probability of symbols [(a, b)] at columns [(i, j)]. *)
Definition q_entry (i j a b : nat) : float :=
  (at4 pf i j a b - at4 xp i j a b * lambda_pair / at2 Nij i j)%float.

(** The 20 by 20 block of a pair, flattened row-major. *)
Definition q_block (i j : nat) : vector :=
  flat_map (λ a, map (λ b, q_entry i j a b) (seq 0 20)) (seq 0 20).

(** One row of [model_prob] per pair. *)
Definition q_rows (L : nat) : matrix :=
  map (λ ij, q_block ij.1 ij.2) (pairs L).

End model.

(** What the first clamping step does to one value. *)
Definition clamp (q : float) : float := if is_negative q then 0%float else q.

(** The handle [write_msgpack] writes to, and whether it can. *)
Definition target_handle (f : file_arg) (w : world) : handle :=
  match f with
  | Path _ => next_handle w
  | Stream fh => fh
  end.

Definition can_write (f : file_arg) (w : world) : bool :=
  match f with
  | Path p => openable w p
  | Stream fh => bool_decide (fh ∈ opened w)
  end.

(** Whether the wrapper gets hold of a handle at all. *)
Definition can_open (f : file_arg) (w : world) : bool :=
  match f with
  | Path p => openable w p
  | Stream _ => true
  end.

(** The world in which the wrapped function starts, and the world the
    wrapper leaves behind, when the handle is available. *)
Definition entered (f : file_arg) (mode : string) (w : world) : world :=
  match f with
  | Path p =>
      World (heap w) ({[next_handle w]} ∪ opened w) (S (next_handle w)) (openable w)
            (log w ++ [EvOpen (endswith p ".gz") p mode (next_handle w)])
  | Stream _ => w
  end.

Definition left_behind (f : file_arg) (fh : handle) (w : world) : world :=
  match f with
  | Path _ =>
      World (heap w) (opened w ∖ {[fh]}) (next_handle w) (openable w)
            (log w ++ [EvClose fh])
  | Stream _ => w
  end.

(** The arguments of a call refer to arrays of the shapes the data model
    gives them: an alignment and a weight vector, pair frequencies and pair
    potentials shaped [L, L, 21, 21] for [L = res.ncol], and a counts engine
    that returns pair counts of that shape. *)
Definition well_formed_call `{CountsEngine} (res : result) (msa weights pair_freq : loc)
    (h : gmap loc ndarray) (msa_v : alignment) (weights_v : vector)
    (pf xp : tensor4) : Prop :=
  h !! msa = Some (NdU8 msa_v) ∧
  h !! weights = Some (Nd1 weights_v) ∧
  h !! pair_freq = Some (Nd4 pf) ∧
  h !! x_pair res = Some (Nd4 xp) ∧
  has_shape4 (pair_counts msa_v weights_v) (ncol res) (ncol res) 21 21 = true ∧
  has_shape4 pf (ncol res) (ncol res) 21 21 = true ∧
  has_shape4 xp (ncol res) (ncol res) 21 21 = true.

(** The container of a run: the two named sequences. *)
Definition container (n_ij q_ij : vector) : gmap string vector :=
  <["q_ij"%string := q_ij]> {["N_ij"%string := n_ij]}.

(** The containers written during a run, with the handle they went to. *)
Definition written (evs : list event) : list (handle * gmap string vector) :=
  omap (λ e, match e with EvWrite fh out => Some (fh, out) | _ => None end) evs.

Definition printed (evs : list event) : list warning :=
  omap (λ e, match e with EvPrint msg => Some msg | _ => None end) evs.

(** An event that writes nowhere but to [fh]. *)
Definition writes_only_to (fh : handle) (e : event) : Prop :=
  match e with
  | EvWrite fh' _ => fh' = fh
  | _ => True
  end.

(** The relation between the world at the call and a later world that the
    frame property maintains: every array that existed keeps its value, and
    whatever was logged since writes to [fh] only. *)
Definition frame (fh : handle) (w0 w : world) : Prop :=
  (∀ l a, heap w0 !! l = Some a → heap w !! l = Some a) ∧
  ∃ evs, log w = log w0 ++ evs ∧ Forall (writes_only_to fh) evs.

(** A computation that maintains [frame] and whose results satisfy [Q]. *)
Definition keeps_frame {A} (fh : handle) (w0 : world) (m : M A) (Q : A → Prop) : Prop :=
  ∀ w, frame fh w0 w →
       frame fh w0 (m w).2 ∧ ∀ a, (m w).1 = Ok a → Q a.

End SerializerSpec.

Module SerializerExamples.
Import Numpy ModelProbabilities SerializerSpec.

(** An [L, L, 21, 21] array with every cell equal to [x]. *)
Definition const4 (L : nat) (x : float) : tensor4 :=
  replicate L (replicate L (replicate 21 (replicate 21 x))).

(** A world with the alignment, the weights, the pair frequencies and the
    pair potentials in cells 0 to 3, where handle 7 is open and every path
    can be opened. *)
Definition world_of (msa_v : alignment) (weights_v : vector) (pf xp : tensor4) : world :=
  {| heap := <[3 := Nd4 xp]> (<[2 := Nd4 pf]> (<[1 := Nd1 weights_v]>
               (<[0 := NdU8 msa_v]> ∅)));
     opened := {[7]}; next_handle := 8; openable := λ _, true; log := [] |}.

(** [write_msgpack] with the engine of the spec, on the cells of [world_of]. *)
Definition run (py : python) (f : file_arg) (L : nat) (lambda_pair : float) (w : world) :
    outcome unit * world :=
  write_msgpack (H := Counts.spec_engine) py f (Result L 3) 0 1 2 lambda_pair w.

(** One sequence, two columns, both amino acid 0: [Nij[0,1] = 1]. *)
Definition world_plain : world :=
  world_of [[0; 0]] [1%float] (const4 2 0.5%float) (const4 2 1%float).

(** One sequence whose second column is a gap, with negative potentials:
    [Nij[0,1] = 0] and every model probability is [0.5 - (-0.25 / 0)]. *)
Definition world_gap : world :=
  world_of [[0; 20]] [1%float] (const4 2 0.5%float) (const4 2 (-1)%float).

(** The same alignment with zero potentials: every model probability is
    [0.5 - 0 / 0]. *)
Definition world_nan : world :=
  world_of [[0; 20]] [1%float] (const4 2 0.5%float) (const4 2 0%float).

(** Three columns, the third a gap: [Nij[1,0] = 1], [Nij[2,0] = Nij[2,1] = 0]. *)
Definition world_three : world :=
  world_of [[0; 0; 20]] [1%float] (const4 3 0.5%float) (const4 3 1%float).

(** Twenty sequences of one column, one for each amino acid, each with the
    weight one third: every single count of the column is one third. *)
Definition msa_twenty : alignment := map (λ a, [a]) (seq 0 20).

Definition weights_thirds : vector := replicate 20 (1 / 3)%float.

(** Three sequences of four columns, the last of which is a gap throughout.
    With the weights 1, 2 and 4 the counts of the column pairs are
    [Nij[0,1] = 5], [Nij[0,2] = 3], [Nij[1,2] = 1], and 0 for the pairs with
    column 3. *)
Definition msa_four : alignment := [[0; 1; 2; 20]; [0; 20; 2; 20]; [3; 4; 20; 20]].

Definition weights_four : vector := [1%float; 2%float; 4%float].

(** Pair frequencies and potentials that depend on the cell:
    [(i, j, a, b)] holds [x + i + 2 j + a / 4 + b / 64]. *)
Definition ramp4 (L : nat) (x : float) : tensor4 :=
  map (λ i, map (λ j, map (λ a, map (λ b,
        (x + float_of_nat i + 2 * float_of_nat j
           + float_of_nat a / 4 + float_of_nat b / 64)%float)
      (seq 0 21)) (seq 0 21)) (seq 0 L)) (seq 0 L).

Definition world_four : world :=
  world_of msa_four weights_four (ramp4 4 0%float) (const4 4 1%float).

(** A wrapped function that writes nothing and raises. *)
Definition failing_fn (fh : handle) : M unit := lift (Raise IOError).

End SerializerExamples.

(** ** The registries of [run_ccmpred.py] and the plan of a run *)

Module DriverSpec.
Import RunCcmpred.

(** The classes that the factories of [OBJ_FUNC] and [ALGORITHMS] build. *)
Inductive objfun_class : Set :=
| PseudoLikelihood
| ContrastiveDivergence.

Inductive algorithm_class : Set :=
| conjugateGradient
| LBFGS
| gradientDescent
| Adam
| numDiff.

(** [OBJ_FUNC] and [ALGORITHMS], lines 25-56: the keys, and for each key the
    class its factory instantiates (the keyword arguments a factory hands
    over are read from the options and play no part in the lookup). *)
Definition OBJ_FUNC : gmap string objfun_class :=
  {[ "pll"%string := PseudoLikelihood; "cd"%string := ContrastiveDivergence ]}.

Definition ALGORITHMS : gmap string algorithm_class :=
  {[ "conjugate_gradients"%string := conjugateGradient;
     "lbfgs"%string := LBFGS;
     "gradient_descent"%string := gradientDescent;
     "adam"%string := Adam;
     "numerical_differentiation"%string := numDiff ]}.

(** The pairings that the two pairing checks of [parse_args] let through. *)
Definition optimizes (o : objfun_class) (a : algorithm_class) : bool :=
  match o, a with
  | PseudoLikelihood, (conjugateGradient | LBFGS | numDiff) => true
  | ContrastiveDivergence, (gradientDescent | Adam) => true
  | _, _ => false
  end.

(** The same collaborators, none of which raises. *)
Definition hush (e : env) : env :=
  {| raises := λ _, false; algret_code := algret_code e |}.

(** Every occurrence of [b] in [l] comes after an occurrence of [a]. *)
Definition precedes (a b : call) (l : list call) : Prop :=
  ∀ l1 l2, l = l1 ++ b :: l2 → a ∈ l1.

Fixpoint precedesb (a b : call) (seen : bool) (l : list call) : bool :=
  match l with
  | [] => true
  | c :: l' =>
      (if bool_decide (c = b) then seen else true) &&
      precedesb a b (seen || bool_decide (c = a)) l'
  end.

(** A computation only ever appends to the list of calls. *)
Definition extends {A} (m : P A) : Prop :=
  ∀ t, ∃ k, (m t).2 = t ++ k.

(** [m'] only appends calls, and it does what [m] does for as long as [m]
    goes on: when [m] returns, [m'] returns the same; when [m] ends the run,
    [m'] has made the same calls and possibly more. *)
Definition follows {A} (m m' : P A) : Prop :=
  ∀ t, (∃ k, (m' t).2 = t ++ k) ∧
       match m t with
       | (inl a, t1) => m' t = (inl a, t1)
       | (inr _, t1) => ∃ k, (m' t).2 = t1 ++ k
       end.

(** [m'] only appends calls, and [m] and [m'] agree from every start from
    which none of the calls that [m'] ends up with raises. *)
Definition agrees {A} (e : env) (m m' : P A) : Prop :=
  ∀ t, (∃ k, (m' t).2 = t ++ k) ∧
       ((∀ c, c ∈ (m' t).2 → raises e c = false) → m t = m' t).

(** When [m] ends in a traceback, the call named is the last one made and
    one that raises. *)
Definition blames {A} (e : env) (m : P A) : Prop :=
  ∀ t c, (m t).1 = inr (Traceback c) → raises e c = true ∧ last (m t).2 = Some c.

(** When [m] ends the run in [sys.exit], the argument is not negative. *)
Definition exits_well {A} (m : P A) : Prop :=
  ∀ t z, (m t).1 = inr (SysExit z) → (0 ≤ z)%Z.

(** [m] and [m'] agree from every start from which [m] does not end in a
    traceback. *)
Definition agrees_unless_traceback {A} (m m' : P A) : Prop :=
  ∀ t, (∀ c, (m t).1 ≠ inr (Traceback c)) → m t = m' t.

(** A number for each kind of call. *)
Definition call_tag (c : call) : nat :=
  match c with
  | logo_logo => 0 | set_omp_num_threads => 1 | print_threads => 2
  | new_CCMpred => 3 | set_alignment_file => 4 | set_matfile => 5
  | set_pdb_file => 6 | set_initraw_file => 7 | read_alignment => 8
  | compute_sequence_weights => 9 | compute_frequencies => 10 | read_pdb => 11
  | compute_omes => 12 | compute_mutual_info => 13 | write_matrix => 14
  | specify_regularization => 15 | intialise_potentials => 16
  | new_Progress => 17 | new_objfun _ => 18 | new_algorithm _ => 19
  | minimize => 20 | print_do_not_optimize => 21 | compute_contact_matrix => 22
  | compute_correction => 23 | write_binary_raw => 24
  end.

(** The calls of the run in which [parse_args] accepts the namespace and
    nothing raises, in the order of [main]. *)
Definition planned_calls (args : options) : list call :=
  (if logo args then [logo_logo] else []) ++
  [set_omp_num_threads; print_threads; new_CCMpred; set_alignment_file;
   set_matfile; set_pdb_file; set_initraw_file; read_alignment;
   compute_sequence_weights; compute_frequencies] ++
  (if truthy (pdbfile args) then [read_pdb] else []) ++
  (if omes args then [compute_omes; write_matrix]
   else if mi args then [compute_mutual_info; write_matrix]
   else [specify_regularization; intialise_potentials] ++
        (if optimize args
         then [new_Progress; new_objfun (objfun args);
               new_algorithm (algorithm args); minimize]
         else [print_do_not_optimize]) ++
        (if truthy (matfile args)
         then [compute_contact_matrix; compute_correction; write_matrix]
         else []) ++
        (if truthy (out_binary_raw_file args) then [write_binary_raw] else [])).

(** The order of the stages: no call is made twice, and each stage comes
    after the stage it builds on. *)
Definition in_stage_order (t : list call) : Prop :=
  NoDup t ∧
  precedes new_CCMpred read_alignment t ∧
  precedes read_alignment compute_sequence_weights t ∧
  precedes compute_sequence_weights compute_frequencies t ∧
  precedes compute_frequencies read_pdb t ∧
  precedes compute_frequencies compute_omes t ∧
  precedes compute_frequencies compute_mutual_info t ∧
  precedes compute_frequencies specify_regularization t ∧
  precedes specify_regularization intialise_potentials t ∧
  precedes intialise_potentials minimize t ∧
  precedes intialise_potentials compute_contact_matrix t ∧
  precedes compute_contact_matrix compute_correction t ∧
  precedes intialise_potentials write_binary_raw t.

(** A run in which the first stage fails. *)
Definition unreadable : env :=
  {| raises := λ c, bool_decide (c = read_alignment); algret_code := 0 |}.

End DriverSpec.

(** ** Positions in the container, and assertions on runs of the serializer *)

Module ContainerSpec.
Import Numpy ModelProbabilities SerializerSpec.

(** The number of cells below the diagonal in the rows before row [i]. *)
Definition triangle (i : nat) : nat := i * (i - 1) / 2.

(** Where the cell [(i, j)], [j < i], of [Nij] sits in "N_ij". *)
Definition n_ij_position (i j : nat) : nat := triangle i + j.

(** The block of "q_ij" that holds the pair [(i, j)], [i < j < L], and the
    position in "q_ij" of the value for the symbols [(a, b)] of that pair. *)
Definition q_ij_block (L i j : nat) : nat := i * (2 * L - i - 1) / 2 + (j - i - 1).

Definition q_ij_position (L i j a b : nat) : nat := q_ij_block L i j * 400 + (a * 20 + b).

(** Hoare triples on [M]: from a world that satisfies [P], [m] returns
    with [Q] or raises in a world that satisfies [E]. *)
Definition hoare {A} (P : world → Prop) (m : M A) (Q : A → world → Prop)
    (E : world → Prop) : Prop :=
  ∀ w, P w → match m w with
             | (Ok a, w') => Q a w'
             | (Raise _, w') => E w'
             end.

(** The cell [l] holds a 2-D array of shape [(n, k)]. *)
Definition shaped (l : loc) (n k : nat) (w : world) : Prop :=
  ∃ m, heap w !! l = Some (Nd2 m) ∧ length m = n ∧ Forall (λ r, length r = k) m.

(** The assertion that the loop nest of [write_msgpack] maintains: the
    array [model_prob] keeps its shape, and nothing is logged, opened or
    closed. *)
Definition filling (model_prob : loc) (n : nat) (w0 w : world) : Prop :=
  shaped model_prob n 400 w ∧ log w = log w0 ∧ opened w = opened w0.

(** What a call has written since the world [w0]: nothing when it raised,
    one container that satisfies [good] to the handle [fh] when it returned. *)
Definition all_or_nothing {A} (fh : handle) (good : vector → vector → Prop)
    (w0 : world) (r : outcome A * world) : Prop :=
  ∃ evs, log r.2 = log w0 ++ evs ∧
    match r.1 with
    | Ok _ => ∃ n_ij q_ij, written evs = [(fh, container n_ij q_ij)] ∧ good n_ij q_ij
    | Raise _ => written evs = []
    end.

End ContainerSpec.

(** * Properties of the command-line driver *)

Section run_ccmpred.
Import RunCcmpred DriverExamples.

Lemma do_quiet (e : env) (c : call) (t : list call) :
  quiet e → do e c t = (inl tt, t ++ [c]).
Proof. intros Hq. unfold do. by rewrite Hq. Qed.

Lemma neqb_true (a b : string) : neqb a b = true ↔ a ≠ b.
Proof.
  unfold neqb. destruct (String.eqb_spec a b); simpl; split; try done.
Qed.

Lemma eqb_true (a b : string) : String.eqb a b = true ↔ a = b.
Proof. apply String.eqb_eq. Qed.

Lemma parse_args_cases (args : options) (t : list call) :
  match parse_args args t with
  | (inl a, t') =>
      a = args ∧ t' = t ∧
      guard_init args = false ∧ guard_pll args = false ∧ guard_cd args = false
  | (inr s, t') =>
      t' = t ∧ (∃ msg, s = UsageError msg) ∧
      (guard_init args = true ∨ guard_pll args = true ∨ guard_cd args = true)
  end.
Proof.
  unfold parse_args, when, parser_error.
  cbn [mbind P_bind mret P_ret].
  destruct (guard_init args), (guard_pll args), (guard_cd args); simpl; eauto 10.
Qed.

Lemma accepted_guards (args : options) :
  accepted args ↔
  guard_init args = false ∧ guard_pll args = false ∧ guard_cd args = false.
Proof.
  unfold accepted. pose proof (parse_args_cases args []) as H.
  destruct (parse_args args []) as [[a|s] t]; simpl.
  - destruct H as (-> & _ & H). split; [by intros _ | done].
  - destruct H as (_ & _ & H). split; [done |].
    intros (H1 & H2 & H3). destruct H as [H|[H|H]]; congruence.
Qed.

Lemma accepted_run (args : options) :
  accepted args → parse_args args [] = (inl args, []).
Proof.
  unfold accepted. pose proof (parse_args_cases args []) as H.
  destruct (parse_args args []) as [[a|s] t]; simpl; [|done].
  destruct H as (-> & -> & _). done.
Qed.

Lemma rejected_run (e : env) (args : options) :
  guard_init args = true ∨ guard_pll args = true ∨ guard_cd args = true →
  ∃ msg, main e args = ([], UsageError msg).
Proof.
  intros Hg. unfold main, main_body, mbind at 1, P_bind at 1.
  pose proof (parse_args_cases args []) as H.
  destruct (parse_args args []) as [[a|s] t].
  - destruct H as (_ & _ & H1 & H2 & H3). destruct Hg as [H|[H|H]]; congruence.
  - destruct H as (-> & [msg ->] & _). exists msg. reflexivity.
Qed.

(** Symbolic execution of a quiet run: every [do] appends its call. *)
Ltac run_quiet Hq :=
  repeat first
    [ rewrite (do_quiet _ _ _ Hq)
    | progress cbv beta iota delta [mbind P_bind mret P_ret when sys_exit] ].

Lemma quiet_accepted_run (e : env) (args : options) :
  quiet e → accepted args →
  main e args =
    ( (if logo args then [logo_logo] else []) ++
      [set_omp_num_threads; print_threads; new_CCMpred; set_alignment_file;
       set_matfile; set_pdb_file; set_initraw_file; read_alignment;
       compute_sequence_weights; compute_frequencies] ++
      (if truthy (pdbfile args) then [read_pdb] else []) ++
      (if omes args then [compute_omes; write_matrix]
       else if mi args then [compute_mutual_info; write_matrix]
       else [specify_regularization; intialise_potentials] ++
            (if optimize args
             then [new_Progress; new_objfun (objfun args);
                   new_algorithm (algorithm args); minimize]
             else [print_do_not_optimize]) ++
            (if truthy (matfile args)
             then [compute_contact_matrix; compute_correction; write_matrix]
             else []) ++
            (if truthy (out_binary_raw_file args) then [write_binary_raw] else [])),
      SysExit (if omes args || mi args then 0
               else if optimize args && (algret_code e <? 0)%Z
                    then - algret_code e else 0)%Z ).
Proof.
  intros Hq Hacc. unfold main, main_body, mbind at 1, P_bind at 1.
  rewrite (accepted_run _ Hacc).
  destruct (logo args), (truthy (pdbfile args)), (omes args); run_quiet Hq;
    try reflexivity.
  all: destruct (mi args); run_quiet Hq; try reflexivity.
  all: destruct (optimize args), (truthy (matfile args)),
         (truthy (out_binary_raw_file args)); run_quiet Hq;
       try destruct (algret_code e <? 0)%Z; reflexivity.
Qed.


Lemma do_unfold (e : env) (c : call) (t : list call) :
  do e c t = if raises e c then (inr (Traceback c), t ++ [c]) else (inl tt, t ++ [c]).
Proof. reflexivity. Qed.

(** Symbolic execution of any run: each call either raises or returns. *)
Ltac run_any :=
  repeat first
    [ progress cbv beta iota delta [mbind P_bind mret P_ret when sys_exit]
    | match goal with
      | |- context [do ?e ?c ?t] => rewrite (do_unfold e c t); destruct (raises e c)
      end ].

Lemma alternative_score_calls (e : env) (args : options) :
  omes args = true ∨ mi args = true →
  Forall (λ c, c ∈ before_regularization) (main e args).1.
Proof.
  intros Halt. unfold main, main_body, mbind at 1, P_bind at 1.
  pose proof (parse_args_cases args []) as H.
  destruct (parse_args args []) as [[a|s] t].
  2:{ destruct H as (-> & _ & _). constructor. }
  destruct H as (-> & -> & _).
  assert (Hin : ∀ c, In c before_regularization → c ∈ before_regularization)
    by (intros c; apply list_elem_of_In).
  destruct (logo args), (truthy (pdbfile args)), (omes args) eqn:Ho,
    (mi args) eqn:Hm; try (destruct Halt; discriminate);
    run_any; cbn [fst app];
    repeat (constructor; [apply Hin; cbn; tauto|]); constructor.
Qed.

Lemma exit_code_fits (z : Z) :
  (- 2 ^ 63 ≤ z < 2 ^ 63)%Z → exit_code (SysExit z) = (z mod 256)%Z.
Proof.
  intros Hz. cbn [exit_code].
  destruct (Z.leb_spec (- 2 ^ 63) z), (Z.ltb_spec z (2 ^ 63)); cbn [andb]; lia.
Qed.


Lemma exit_code_byte (s : status) : (0 ≤ exit_code s < 256)%Z.
Proof.
  destruct s as [z| |]; cbn [exit_code]; [|lia..].
  destruct (_ && _); [|lia]. by apply Z.mod_pos_bound.
Qed.




(** C8. A namespace that selects pseudo-likelihood with an optimizer other
    than conjugate gradients, L-BFGS or numerical differentiation, or
    contrastive divergence with an optimizer other than gradient descent or
    Adam, ends the run in [parse_args] with a usage error, before any call is
    made: no alignment is read and no frequency is computed. *)
Theorem bad_pairing_is_usage_error (e : env) (args : options) :
  (objfun args = "pll"%string ∧
   algorithm args ∉ ["conjugate_gradients"; "lbfgs"; "numerical_differentiation"]%string) ∨
  (objfun args = "cd"%string ∧
   algorithm args ∉ ["gradient_descent"; "adam"]%string) →
  ∃ msg, main e args = ([], UsageError msg).
Proof.
  intros H. apply rejected_run. right.
  destruct H as [[Ho Ha] | [Ho Ha]]; [left | right].
  - unfold guard_pll. rewrite Ho. cbn [String.eqb andb].
    rewrite !andb_true_iff, !neqb_true. set_solver.
  - unfold guard_cd. rewrite Ho. cbn [String.eqb andb].
    rewrite !andb_true_iff, !neqb_true. set_solver.
Qed.

(** C8 at pseudo-likelihood with gradient descent. *)
Lemma bad_pairing_is_usage_error_witness :
  ∃ msg, main (calm 0) args_pll_gd = ([], UsageError msg).
Proof.
  apply (bad_pairing_is_usage_error (calm 0) args_pll_gd).
  left. split; [reflexivity|].
  intros Hin. apply list_elem_of_In in Hin. cbn in Hin.
  intuition discriminate.
Defined.

(** C10 (as amended). With --compute-omes or --compute-mi set, no run of
    [main] ever builds the regularization, initialises potentials or sets up
    or runs an optimizer; and when [parse_args] accepts the command line and
    no stage raises, the run computes the score right after the frequency
    stage (and the optional PDB read), writes the matrix and exits with 0. *)
Theorem alternative_scores_exit_early (e : env) (args : options) :
  omes args = true ∨ mi args = true →
  (∀ c, c ∈ (main e args).1 → is_fitting_call c = false) ∧
  (quiet e → accepted args →
   ∃ pre score,
     main e args = (pre ++ [compute_frequencies] ++
                    (if truthy (pdbfile args) then [read_pdb] else []) ++
                    [score; write_matrix], SysExit 0) ∧
     score = (if omes args then compute_omes else compute_mutual_info) ∧
     read_alignment ∈ pre).
Proof.
  intros Halt. split.
  - intros c Hc.
    pose proof (alternative_score_calls e args Halt) as Hall.
    rewrite Forall_forall in Hall. specialize (Hall c Hc).
    apply list_elem_of_In in Hall. cbn in Hall.
    repeat (destruct Hall as [<- | Hall]; [reflexivity|]). destruct Hall.
  - intros Hq Hacc. rewrite (quiet_accepted_run _ _ Hq Hacc).
    exists ((if logo args then [logo_logo] else []) ++
            [set_omp_num_threads; print_threads; new_CCMpred; set_alignment_file;
             set_matfile; set_pdb_file; set_initraw_file; read_alignment;
             compute_sequence_weights]).
    exists (if omes args then compute_omes else compute_mutual_info).
    split; [| split; [reflexivity|]].
    + destruct (logo args), (truthy (pdbfile args)), (omes args) eqn:Ho,
        (mi args) eqn:Hm; try (destruct Halt; discriminate); reflexivity.
    + rewrite elem_of_app. right. apply list_elem_of_In. cbn. tauto.
Qed.

(** C10 at a run with --compute-omes. *)
Lemma alternative_scores_exit_early_witness :
  (∀ c, c ∈ (main (calm 0) args_omes).1 → is_fitting_call c = false) ∧
  (main (calm 0) args_omes).2 = SysExit 0.
Proof.
  destruct (alternative_scores_exit_early (calm 0) args_omes (or_introl eq_refl))
    as [Hnever Hrun].
  split; [exact Hnever | reflexivity].
Defined.

(** C10 as stated fails: with --compute-omes and --ofn-cd (and the default
    optimizer) [parse_args] ends the run with a usage error; no score matrix
    is written and the exit status is 2. *)
Lemma compute_omes_rejected_pairing :
  omes args_omes_cd = true ∧
  main (calm 0) args_omes_cd =
    ([], UsageError "contrastive divergence (--ofn-cd) needs to be optimized with gradient descent (--alg-gd) or the ADAM optimizer (--alg-ad)!") ∧
  ¬ (∀ e args, omes args = true ∨ mi args = true →
               write_matrix ∈ (main e args).1 ∧ exit_code (main e args).2 = 0%Z).
Proof.
  split; [reflexivity|]. split; [reflexivity|].
  intros H. destruct (H (calm 0) args_omes_cd (or_introl eq_refl)) as [_ Hc].
  vm_compute in Hc. discriminate.
Qed.

End run_ccmpred.

(** * Properties of the array primitives *)

Section numpy_facts.
Import Numpy SerializerSpec.

Lemma take_tabulate {A} (d : A) (l : list A) (n : nat) :
  n ≤ length l → take n l = map (λ k, default d (l !! k)) (seq 0 n).
Proof.
  intros Hn. apply list_eq. intros k.
  rewrite list_lookup_fmap.
  destruct (decide (k < n)) as [Hk|Hk].
  - rewrite lookup_take_lt by done. rewrite lookup_seq_lt by done. simpl.
    destruct (lookup_lt_is_Some_2 l k ltac:(lia)) as [x ->]. done.
  - rewrite lookup_take_ge by lia. rewrite lookup_seq_ge by lia. done.
Qed.

Lemma has_shape2_spec {A} (m : list (list A)) (n k : nat) :
  has_shape2 m n k = true ↔ length m = n ∧ ∀ i r, m !! i = Some r → length r = k.
Proof.
  unfold has_shape2. rewrite andb_true_iff, Nat.eqb_eq, forallb_forall.
  split; intros [Hl Hr]; split; try done.
  - intros i r Hi. apply Nat.eqb_eq, Hr, list_elem_of_In, list_elem_of_lookup. eauto.
  - intros r Hin. apply list_elem_of_In, list_elem_of_lookup in Hin as [i Hi].
    apply Nat.eqb_eq. eauto.
Qed.

Lemma has_shape4_spec (t : tensor4) (n1 n2 n3 n4 : nat) :
  has_shape4 t n1 n2 n3 n4 = true ↔
  length t = n1 ∧
  ∀ i ti, t !! i = Some ti →
    length ti = n2 ∧ ∀ j blk, ti !! j = Some blk → has_shape2 blk n3 n4 = true.
Proof.
  unfold has_shape4. rewrite andb_true_iff, Nat.eqb_eq, forallb_forall.
  split; intros [Hl Hr]; split; try done.
  - intros i ti Hi.
    assert (Hin : In ti t) by (apply list_elem_of_In, list_elem_of_lookup; eauto).
    apply Hr in Hin. rewrite andb_true_iff, Nat.eqb_eq, forallb_forall in Hin.
    destruct Hin as [H2 Hb]. split; [done|].
    intros j blk Hj. apply Hb, list_elem_of_In, list_elem_of_lookup. eauto.
  - intros ti Hin. apply list_elem_of_In, list_elem_of_lookup in Hin as [i Hi].
    destruct (Hr i ti Hi) as [H2 Hb].
    rewrite andb_true_iff, Nat.eqb_eq, forallb_forall. split; [done|].
    intros blk Hin. apply list_elem_of_In, list_elem_of_lookup in Hin as [j Hj]. eauto.
Qed.

Lemma getitem_ok {A} (l : list A) (i : nat) (x : A) :
  l !! i = Some x → getitem l i = Ok x.
Proof. unfold getitem. by intros ->. Qed.

Lemma getitem2_ok (m : matrix) (n k i j : nat) :
  has_shape2 m n k = true → i < n → j < k → getitem2 m i j = Ok (at2 m i j).
Proof.
  intros [Hn Hr]%has_shape2_spec Hi Hj. unfold getitem2, at2.
  destruct (lookup_lt_is_Some_2 m i ltac:(lia)) as [r Hmi].
  rewrite (getitem_ok _ _ _ Hmi), Hmi. cbn.
  destruct (lookup_lt_is_Some_2 r j) as [x Hx]; [rewrite (Hr _ _ Hmi); lia|].
  by rewrite (getitem_ok _ _ _ Hx), Hx.
Qed.

Lemma slice_block_flat (blk : matrix) :
  has_shape2 blk 21 21 = true →
  concat (slice_20_20 blk) =
  flat_map (λ a, map (λ b, at2 blk a b) (seq 0 20)) (seq 0 20).
Proof.
  intros [Hn Hr]%has_shape2_spec. unfold slice_20_20.
  rewrite (take_tabulate [] blk 20) by lia.
  rewrite map_map, flat_map_concat_map. f_equal.
  apply map_ext_in. intros a Ha%in_seq. unfold at2.
  destruct (lookup_lt_is_Some_2 blk a ltac:(lia)) as [r Hr'].
  rewrite Hr'. apply (take_tabulate 0%float r 20). rewrite (Hr _ _ Hr'). lia.
Qed.

Lemma block_flat_ok (t : tensor4) (L i j : nat) :
  has_shape4 t L L 21 21 = true → i < L → j < L →
  block_flat t i j =
  Ok (flat_map (λ a, map (λ b, at4 t i j a b) (seq 0 20)) (seq 0 20)).
Proof.
  intros [Hn Ht]%has_shape4_spec Hi Hj. unfold block_flat.
  destruct (lookup_lt_is_Some_2 t i ltac:(lia)) as [ti Hti].
  destruct (Ht _ _ Hti) as [Hlen Hblk].
  destruct (lookup_lt_is_Some_2 ti j ltac:(lia)) as [blk Hb].
  rewrite (getitem_ok _ _ _ Hti). cbn. rewrite (getitem_ok _ _ _ Hb). cbn.
  rewrite (slice_block_flat blk (Hblk _ _ Hb)).
  unfold mret, outcome_ret. f_equal. unfold at4. by rewrite Hti, Hb.
Qed.

Lemma length_grid {A} (F : nat → nat → A) (n k : nat) :
  length (flat_map (λ a, map (F a) (seq 0 k)) (seq 0 n)) = n * k.
Proof.
  generalize 0 at 2. induction n as [|n IH]; intros s; [done|].
  cbn [seq flat_map]. rewrite length_app, length_map, length_seq, IH. lia.
Qed.

Lemma zip_with_grid {A B C} (f : A → B → C) (F : nat → nat → A) (G : nat → nat → B)
    (rows cols : list nat) :
  zip_with f (flat_map (λ a, map (F a) cols) rows)
             (flat_map (λ a, map (G a) cols) rows) =
  flat_map (λ a, map (λ b, f (F a b) (G a b)) cols) rows.
Proof.
  induction rows as [|a rows IH]; [done|]. cbn [flat_map].
  rewrite zip_with_app by (by rewrite !length_map). rewrite IH. f_equal.
  clear. induction cols as [|b cols IH]; [done|]. cbn. by rewrite IH.
Qed.

Lemma map_grid {A B} (g : A → B) (F : nat → nat → A) (rows cols : list nat) :
  map g (flat_map (λ a, map (F a) cols) rows) =
  flat_map (λ a, map (λ b, g (F a b)) cols) rows.
Proof.
  induction rows as [|a rows IH]; [done|]. cbn [flat_map].
  by rewrite map_app, IH, map_map.
Qed.

Lemma lookup_grid {A} (F : nat → nat → A) (n k a b : nat) :
  a < n → b < k →
  flat_map (λ a, map (F a) (seq 0 k)) (seq 0 n) !! (a * k + b) = Some (F a b).
Proof.
  intros Ha Hb.
  assert (Hgen : ∀ s, flat_map (λ a, map (F a) (seq 0 k)) (seq s n) !! (a * k + b)
                      = Some (F (s + a) b)).
  { revert a Ha. induction n as [|n IH]; intros a Ha s; [lia|].
    cbn [seq flat_map]. destruct a as [|a].
    - rewrite lookup_app_l by (rewrite length_map, length_seq; lia).
      rewrite list_lookup_fmap, lookup_seq_lt by lia. cbn. by rewrite Nat.add_0_r.
    - rewrite lookup_app_r by (rewrite length_map, length_seq; lia).
      rewrite length_map, length_seq.
      replace (S a * k + b - k) with (a * k + b) by lia.
      rewrite IH by lia. do 2 f_equal. lia. }
  apply (Hgen 0).
Qed.

(** One row of [model_prob], as line 67 computes it. *)
Lemma row_broadcast_ok (pf xp : tensor4) (lam nij : float) (L i j : nat) :
  has_shape4 pf L L 21 21 = true → has_shape4 xp L L 21 21 = true →
  i < L → j < L →
  ∃ pfv xpv,
    block_flat pf i j = Ok pfv ∧ block_flat xp i j = Ok xpv ∧
    broadcast2 PrimFloat.sub pfv (map (λ x, (x * lam / nij)%float) xpv) =
    Ok (flat_map (λ a, map (λ b,
          (at4 pf i j a b - at4 xp i j a b * lam / nij)%float) (seq 0 20)) (seq 0 20)).
Proof.
  intros Hpf Hxp Hi Hj. eexists _, _.
  split; [by apply (block_flat_ok pf L)|]. split; [by apply (block_flat_ok xp L)|].
  unfold broadcast2. rewrite length_map, !length_grid, Nat.eqb_refl.
  by rewrite map_grid, zip_with_grid.
Qed.

Lemma setitem_row_ok (m : matrix) (index : nat) (old v : vector) :
  m !! index = Some old → length v = length old →
  setitem_row m index v = Ok (<[index := v]> m).
Proof.
  intros Hm Hl. unfold setitem_row. rewrite (getitem_ok _ _ _ Hm). cbn.
  by rewrite Hl, Nat.eqb_refl.
Qed.

Lemma filter_ltb_seq (i n : nat) :
  List.filter (λ j, j <? i) (seq 0 n) = seq 0 (i `min` n).
Proof.
  induction n as [|n IH]; [by rewrite Nat.min_0_r|].
  rewrite seq_S, List.filter_app, IH. cbn [List.filter Nat.add].
  destruct (Nat.ltb_spec n i).
  - rewrite (Nat.min_r i n), (Nat.min_r i (S n)) by lia. by rewrite seq_S.
  - rewrite !Nat.min_l by lia. by rewrite app_nil_r.
Qed.

Lemma list_prod_flat_map {A B} (l : list A) (l' : list B) :
  list_prod l l' = flat_map (λ x, map (pair x) l') l.
Proof. induction l as [|x l IH]; [done|]. cbn. by rewrite IH. Qed.

Lemma filter_flat_map {A B} (p : B → bool) (f : A → list B) (l : list A) :
  List.filter p (flat_map f l) = flat_map (λ x, List.filter p (f x)) l.
Proof.
  induction l as [|x l IH]; [done|]. cbn. by rewrite List.filter_app, IH.
Qed.

Lemma flat_map_ext_in {A B} (f g : A → list B) (l : list A) :
  (∀ x, In x l → f x = g x) → flat_map f l = flat_map g l.
Proof.
  intros Hfg. rewrite !flat_map_concat_map. f_equal. by apply map_ext_in.
Qed.

Lemma filter_pair_row (i : nat) (l : list nat) :
  List.filter (λ ij : nat * nat, ij.2 <? ij.1) (map (pair i) l) =
  map (pair i) (List.filter (λ j, j <? i) l).
Proof.
  induction l as [|j l IH]; [done|]. cbn [map List.filter fst snd].
  destruct (j <? i); cbn [map]; by rewrite IH.
Qed.

(** [np.tril_indices(n, k=-1)] lists the cells below the diagonal row by
    row, from row 1 upwards. *)
Lemma tril_indices_rows (n : nat) : tril_indices n = lower_rows_ascending n.
Proof.
  unfold tril_indices, lower_rows_ascending.
  rewrite list_prod_flat_map, filter_flat_map.
  apply flat_map_ext_in. intros i Hi%in_seq. cbv beta.
  rewrite filter_pair_row, filter_ltb_seq. f_equal. f_equal. lia.
Qed.

Lemma lower_rows_ascending_length (n : nat) :
  length (lower_rows_ascending n) = n * (n - 1) / 2.
Proof.
  unfold lower_rows_ascending.
  assert (H2 : 2 * length (flat_map (λ i, map (pair i) (seq 0 i)) (seq 0 n)) + n = n * n).
  { induction n as [|n IH]; [done|].
    rewrite seq_S, flat_map_app, length_app. cbn [flat_map Nat.add].
    rewrite app_nil_r, length_map, length_seq. lia. }
  apply Nat.div_unique_exact; [lia|].
  destruct n; [done|]. replace (S n - 1) with n by lia. nia.
Qed.

Lemma lower_rows_ascending_bound (n i j : nat) :
  (i, j) ∈ lower_rows_ascending n → j < i < n.
Proof.
  intros Hin%list_elem_of_In. unfold lower_rows_ascending in Hin.
  apply in_flat_map in Hin as (i' & Hi'%in_seq & Hj).
  apply in_map_iff in Hj as (j' & [= <- <-] & Hj'%in_seq). lia.
Qed.

Lemma pairs_elem (L i j : nat) : (i, j) ∈ pairs L ↔ i < j < L.
Proof.
  unfold pairs, range. rewrite list_elem_of_In, in_flat_map. split.
  - intros (i' & Hi'%in_seq & Hj).
    apply in_map_iff in Hj as (j' & [= <- <-] & Hj'%in_seq). lia.
  - intros Hij. exists i. split; [apply in_seq; lia|].
    apply in_map_iff. exists j. split; [done|]. apply in_seq. lia.
Qed.

Lemma pairs_length (L : nat) : length (pairs L) = L * (L - 1) / 2.
Proof.
  unfold pairs, range.
  assert (H2 : ∀ n, n ≤ L - 1 →
    2 * length (flat_map (λ i, map (pair i) (seq (i + 1) (L - (i + 1)))) (seq 0 n))
      + n * n + n = 2 * n * L).
  { induction n as [|n IH]; intros Hn; [done|].
    rewrite seq_S, flat_map_app, length_app. cbn [flat_map Nat.add].
    rewrite app_nil_r, length_map, length_seq. specialize (IH ltac:(lia)). nia. }
  specialize (H2 (L - 1) ltac:(lia)). rewrite Nat.sub_0_r.
  apply Nat.div_unique_exact; [lia|].
  destruct L; [done|]. replace (S L - 1) with L in * by lia. nia.
Qed.

Lemma lex_lt_row_sorted (i s n : nat) :
  StronglySorted lex_lt (map (pair i) (seq s n)).
Proof.
  revert s. induction n as [|n IH]; intros s; cbn; constructor; [apply IH|].
  apply Forall_forall. intros [i' j'] Hin%list_elem_of_In.
  apply in_map_iff in Hin as (j & [= <- <-] & Hj%in_seq).
  right. cbn. lia.
Qed.

(** The loop nest visits the pairs in strictly increasing lexicographic
    order. *)
Lemma pairs_sorted (L : nat) : StronglySorted lex_lt (pairs L).
Proof.
  unfold pairs, range.
  enough (Hgen : ∀ n s, StronglySorted lex_lt
            (flat_map (λ i, map (pair i) (seq (i + 1) (L - (i + 1)))) (seq s n)))
    by apply Hgen.
  induction n as [|n IH]; intros s; [constructor|].
  cbn [seq flat_map]. apply StronglySorted_app_2; [|apply lex_lt_row_sorted|apply IH].
  intros [i1 j1] [i2 j2] H1%list_elem_of_In H2%list_elem_of_In.
  apply in_map_iff in H1 as (? & [= <- <-] & _).
  apply in_flat_map in H2 as (i' & Hi'%in_seq & Hj).
  apply in_map_iff in Hj as (? & [= <- <-] & _).
  left. cbn. lia.
Qed.

Lemma take_along_ok (m : matrix) (n k : nat) (idx : list (nat * nat)) :
  has_shape2 m n k = true →
  (∀ i j, (i, j) ∈ idx → i < n ∧ j < k) →
  take_along m idx = Ok (map (λ ij, at2 m ij.1 ij.2) idx).
Proof.
  intros Hm. induction idx as [|[i j] idx IH]; intros Hin; [done|].
  cbn [take_along map]. destruct (Hin i j) as [Hi Hj]; [left|].
  rewrite (getitem2_ok m n k) by done. cbn.
  rewrite IH; [done|]. intros i' j' H'. apply Hin. by right.
Qed.

End numpy_facts.

(** * Strings, floats and the counts of the spec *)

Section base_facts.
Import ModelProbabilities SerializerSpec.

Lemma string_app_cons (c : ascii) (s t : string) :
  (String c s ++ t)%string = String c (s ++ t)%string.
Proof. reflexivity. Qed.

Lemma string_app_nil_l (t : string) : (EmptyString ++ t)%string = t.
Proof. reflexivity. Qed.

Lemma string_length_app (s t : string) :
  String.length (s ++ t) = String.length s + String.length t.
Proof.
  induction s as [|c s IH]; [done|]. rewrite string_app_cons. cbn. by rewrite IH.
Qed.

Lemma substring_all (s : string) : substring 0 (String.length s) s = s.
Proof. induction s as [|c s IH]; [done|]. cbn. by rewrite IH. Qed.

Lemma substring_skip (pre s : string) (k : nat) :
  substring (String.length pre) k (pre ++ s) = substring 0 k s.
Proof.
  induction pre as [|c pre IH]; [done|]. rewrite string_app_cons. cbn. apply IH.
Qed.

Lemma substring_split (s : string) (a : nat) :
  a ≤ String.length s →
  s = (substring 0 a s ++ substring a (String.length s - a) s)%string.
Proof.
  revert a. induction s as [|c s IH]; intros a Ha.
  - by destruct a.
  - destruct a as [|a]; cbn in *.
    + by rewrite string_app_nil_l, substring_all.
    + rewrite string_app_cons. f_equal. apply IH. lia.
Qed.

(** [s.endswith(suffix)] holds exactly of the strings that end in [suffix]. *)
Lemma endswith_spec (s suffix : string) :
  endswith s suffix = true ↔ ∃ pre, s = (pre ++ suffix)%string.
Proof.
  unfold endswith. rewrite andb_true_iff, Nat.leb_le, String.eqb_eq. split.
  - intros [Hk Hsub]. remember (String.length suffix) as k eqn:Ek.
    exists (substring 0 (String.length s - k) s). rewrite <- Hsub.
    pose proof (substring_split s (String.length s - k) ltac:(lia)) as Hs.
    by replace (String.length s - (String.length s - k)) with k in Hs by lia.
  - intros [pre ->]. rewrite string_length_app. split; [lia|].
    replace (String.length pre + String.length suffix - String.length suffix)
      with (String.length pre) by lia.
    by rewrite substring_skip, substring_all.
Qed.

(** A NaN compares false with everything, so the first clamping step, which
    tests [q < 0], leaves it in place. *)
Lemma nan_not_negative (q : float) :
  PrimFloat.is_nan q = true → is_negative q = false.
Proof.
  unfold PrimFloat.is_nan, is_negative. rewrite FloatAxioms.eqb_spec, FloatAxioms.ltb_spec.
  destruct (Prim2SF q) as [s| s| |s m e]; try done.
  - by destruct s.
  - unfold SpecFloat.SFeqb. cbn. rewrite Z.compare_refl, Pos.compare_cont_refl.
    by destruct s.
Qed.

Lemma clamp_nan (q : float) : PrimFloat.is_nan q = true → clamp q = q.
Proof. intros Hq. unfold clamp. by rewrite nan_not_negative. Qed.

Lemma existsb_nan_clamp_true (flat : vector) :
  existsb PrimFloat.is_nan flat = true →
  existsb PrimFloat.is_nan (map clamp flat) = true.
Proof.
  induction flat as [|q flat IH]; [done|]. cbn [existsb map].
  intros [Hq|Hrest]%orb_true_iff; apply orb_true_iff.
  - left. by rewrite clamp_nan.
  - right. by apply IH.
Qed.

Lemma lookup_map_seq {A} (f : nat → A) (n i : nat) (x : A) :
  map f (seq 0 n) !! i = Some x → x = f i.
Proof.
  rewrite list_lookup_fmap. destruct (seq 0 n !! i) as [k|] eqn:Hk; [|done].
  apply lookup_seq in Hk as [-> _]. by intros [= <-].
Qed.

(** The counts of the spec have the shape of the data model. *)
Lemma spec_pair_counts_shape (msa_v : alignment) (weights_v : vector) :
  has_shape4 (Counts.spec_pair_counts msa_v weights_v)
             (Counts.ncols msa_v) (Counts.ncols msa_v) 21 21 = true.
Proof.
  apply has_shape4_spec. unfold Counts.spec_pair_counts.
  rewrite length_map, length_seq. split; [done|].
  intros i ti ->%lookup_map_seq. rewrite length_map, length_seq. split; [done|].
  intros j blk ->%lookup_map_seq.
  apply has_shape2_spec. rewrite length_map, length_seq. split; [done|].
  intros a r ->%lookup_map_seq. by rewrite length_map, length_seq.
Qed.

End base_facts.

(** * Running the serializer *)

Section run_facts.
Import Numpy ModelProbabilities SerializerSpec.

Lemma bind_ok {A B} (m : M A) (f : A → M B) (w w' : world) (a : A) :
  m w = (Ok a, w') → (m ≫= f) w = f a w'.
Proof. intros Hm. unfold mbind, M_bind. by rewrite Hm. Qed.

Lemma bind_raise {A B} (m : M A) (f : A → M B) (w w' : world) (e : exn) :
  m w = (Raise e, w') → (m ≫= f) w = (Raise e, w').
Proof. intros Hm. unfold mbind, M_bind. by rewrite Hm. Qed.

Lemma load_msa_ok (w : world) (l : loc) (m : alignment) :
  heap w !! l = Some (NdU8 m) → load_msa l w = (Ok m, w).
Proof. intros Hl. unfold load_msa, load, mbind, M_bind. by rewrite Hl. Qed.

Lemma load1_ok (w : world) (l : loc) (v : vector) :
  heap w !! l = Some (Nd1 v) → load1 l w = (Ok v, w).
Proof. intros Hl. unfold load1, load, mbind, M_bind. by rewrite Hl. Qed.

Lemma load2_ok (w : world) (l : loc) (m : matrix) :
  heap w !! l = Some (Nd2 m) → load2 l w = (Ok m, w).
Proof. intros Hl. unfold load2, load, mbind, M_bind. by rewrite Hl. Qed.

Lemma load4_ok (w : world) (l : loc) (t : tensor4) :
  heap w !! l = Some (Nd4 t) → load4 l w = (Ok t, w).
Proof. intros Hl. unfold load4, load, mbind, M_bind. by rewrite Hl. Qed.

Lemma for_each_app {A S} (xs ys : list A) (body : S → A → M S) (s : S) (w : world) :
  for_each (xs ++ ys) body s w = (for_each xs body s ≫= for_each ys body) w.
Proof.
  revert s w. induction xs as [|x xs IH]; intros s w; [done|].
  cbn [app for_each]. unfold mbind, M_bind in *.
  destruct (body s x w) as [[s'|e] w']; [apply IH | done].
Qed.

Lemma for_each_map {A B S} (g : A → B) (xs : list A) (body : S → B → M S)
    (s : S) (w : world) :
  for_each (map g xs) body s w = for_each xs (λ s x, body s (g x)) s w.
Proof.
  revert s w. induction xs as [|x xs IH]; intros s w; [done|].
  cbn [map for_each]. unfold mbind, M_bind.
  destruct (body s (g x) w) as [[s'|e] w']; [apply IH | done].
Qed.

(** A loop nest that threads one state is a single loop over the pairs. *)
Lemma for_each_nested {S} (outer : list nat) (g : nat → list nat)
    (body : nat → S → nat → M S) (s : S) (w : world) :
  for_each outer (λ s i, for_each (g i) (body i) s) s w =
  for_each (flat_map (λ i, map (pair i) (g i)) outer) (λ s ij, body ij.1 s ij.2) s w.
Proof.
  revert s w. induction outer as [|i outer IH]; intros s w; [done|].
  cbn [flat_map for_each]. rewrite for_each_app. unfold mbind, M_bind.
  rewrite for_each_map. cbn [fst snd].
  destruct (for_each (g i) (body i) s w) as [[s'|e] w']; [apply IH | done].
Qed.

Section loop.
Variable res : result.
Variable pair_freq : loc.
Variable lambda_pair : float.
Variable Nij : matrix.
Variable mp : loc.
Variables pf xp : tensor4.
Variable h0 : gmap loc ndarray.
Variable w : world.
Hypothesis Hpf : h0 !! pair_freq = Some (Nd4 pf).
Hypothesis Hxp : h0 !! x_pair res = Some (Nd4 xp).
Hypothesis Hmp : h0 !! mp = None.
Hypothesis Hpf_shape : has_shape4 pf (ncol res) (ncol res) 21 21 = true.
Hypothesis Hxp_shape : has_shape4 xp (ncol res) (ncol res) 21 21 = true.
Hypothesis HNij_shape : has_shape2 Nij (ncol res) (ncol res) = true.

Lemma q_block_length (i j : nat) : length (q_block pf xp lambda_pair Nij i j) = 400.
Proof. unfold q_block. by rewrite length_grid. Qed.

Lemma fill_row_ok (m : matrix) (old : vector) (i j index : nat) :
  i < ncol res → j < ncol res →
  m !! index = Some old → length old = 400 →
  fill_row res pair_freq lambda_pair Nij mp i index j
           (set_heap (<[mp := Nd2 m]> h0) w) =
  (Ok (index + 1),
   set_heap (<[mp := Nd2 (<[index := q_block pf xp lambda_pair Nij i j]> m)]> h0) w).
Proof.
  intros Hi Hj Hm Hold. unfold fill_row.
  assert (mp ≠ pair_freq) by (intros ->; congruence).
  assert (mp ≠ x_pair res) by (intros ->; congruence).
  destruct (row_broadcast_ok pf xp lambda_pair (at2 Nij i j) (ncol res) i j)
    as (pfv & xpv & Hb1 & Hb2 & Hrow); try done.
  erewrite bind_ok; [|apply load4_ok; cbn; by rewrite lookup_insert_ne].
  rewrite Hb1. erewrite bind_ok; [|reflexivity].
  erewrite bind_ok; [|apply load4_ok; cbn; by rewrite lookup_insert_ne].
  rewrite Hb2. erewrite bind_ok; [|reflexivity].
  rewrite (getitem2_ok Nij (ncol res) (ncol res)) by done.
  erewrite bind_ok; [|reflexivity].
  rewrite Hrow. erewrite bind_ok; [|reflexivity].
  erewrite bind_ok; [|apply load2_ok; cbn; by rewrite lookup_insert_eq].
  rewrite (setitem_row_ok m index old); [|done|].
  2:{ rewrite Hold. apply (length_grid _ 20 20). }
  erewrite bind_ok; [|reflexivity].
  unfold store, mbind, M_bind, mret, M_ret, set_heap. cbn.
  by rewrite insert_insert_eq.
Qed.

Lemma fill_pairs_ok (ps : list (nat * nat)) :
  ∀ done rest : matrix,
    (∀ i j, (i, j) ∈ ps → i < ncol res ∧ j < ncol res) →
    length ps ≤ length rest →
    Forall (λ r, length r = 400) rest →
    for_each ps (λ index ij, fill_row res pair_freq lambda_pair Nij mp ij.1 index ij.2)
             (length done) (set_heap (<[mp := Nd2 (done ++ rest)]> h0) w) =
    (Ok (length done + length ps),
     set_heap (<[mp := Nd2 (done ++ map (λ ij, q_block pf xp lambda_pair Nij ij.1 ij.2) ps
                                 ++ drop (length ps) rest)]> h0) w).
Proof.
  induction ps as [|[i j] ps IH]; intros done rest Hin Hlen Hrest.
  - cbn. by rewrite Nat.add_0_r, drop_0.
  - destruct rest as [|r rest]; [cbn in Hlen; lia|].
    apply Forall_cons in Hrest as [Hr Hrest].
    destruct (Hin i j) as [Hi Hj]; [left|].
    cbn [for_each fst snd].
    erewrite bind_ok; [|apply (fill_row_ok _ r); try done].
    2:{ rewrite lookup_app_r by done. by rewrite Nat.sub_diag. }
    rewrite insert_app_r_alt by done. rewrite Nat.sub_diag. cbn [insert list_insert].
    replace (done ++ q_block pf xp lambda_pair Nij i j :: rest)
      with ((done ++ [q_block pf xp lambda_pair Nij i j]) ++ rest)
      by (by rewrite <- app_assoc).
    replace (length done + 1) with (length (done ++ [q_block pf xp lambda_pair Nij i j]))
      by (rewrite length_app; cbn; lia).
    rewrite IH; [| intros; apply Hin; by right | cbn in Hlen; lia | done].
    rewrite length_app. cbn [length map drop].
    rewrite <- !app_assoc. cbn [app]. do 2 f_equal. lia.
Qed.

Lemma fill_model_prob_ok :
  fill_model_prob res pair_freq lambda_pair Nij mp
    (set_heap (<[mp := Nd2 (zeros2 (ncol res * (ncol res - 1) / 2) 400)]> h0) w) =
  (Ok (ncol res * (ncol res - 1) / 2),
   set_heap (<[mp := Nd2 (q_rows pf xp lambda_pair Nij (ncol res))]> h0) w).
Proof.
  unfold fill_model_prob. rewrite for_each_nested.
  change (flat_map _ _) with (pairs (ncol res)).
  pose proof (fill_pairs_ok (pairs (ncol res)) []
                (zeros2 (ncol res * (ncol res - 1) / 2) 400)) as Hrun.
  cbn [app length Nat.add] in Hrun. rewrite Hrun.
  - rewrite pairs_length. unfold q_rows, zeros2.
    rewrite drop_ge by (by rewrite length_replicate). by rewrite app_nil_r.
  - intros i j Hij%pairs_elem. lia.
  - unfold zeros2. by rewrite length_replicate, pairs_length.
  - unfold zeros2. apply Forall_replicate. by rewrite length_replicate.
Qed.

End loop.

Lemma zip_with_map_r {A B C} (f : A → B → C) (g : A → B) (l : list A) :
  zip_with f l (map g l) = map (λ x, f x (g x)) l.
Proof. induction l as [|x l IH]; [done|]. cbn. by rewrite IH. Qed.

(** The first clamping step replaces exactly the negative cells by zero. *)
Lemma setitem_mask_negative (flat : vector) :
  setitem_mask flat (Mask1 (map is_negative flat)) 0%float = Ok (map clamp flat).
Proof.
  unfold setitem_mask. rewrite length_map, Nat.eqb_refl, zip_with_map_r. done.
Qed.

Lemma clamp_no_negative (flat : vector) :
  existsb is_negative flat = false → map clamp flat = flat.
Proof.
  induction flat as [|q flat IH]; [done|]. cbn [existsb map].
  intros [Hq Hrest]%orb_false_iff. rewrite IH by done.
  unfold clamp. by rewrite Hq.
Qed.

Lemma clamp_not_negative (q : float) : is_negative (clamp q) = false.
Proof. unfold clamp. destruct (is_negative q) eqn:Hq; [reflexivity | done]. Qed.

Lemma clamp_not_nan (q : float) :
  PrimFloat.is_nan q = false → PrimFloat.is_nan (clamp q) = false.
Proof. intros Hq. unfold clamp. destruct (is_negative q); [reflexivity | done]. Qed.

Lemma existsb_nan_clamp (flat : vector) :
  existsb PrimFloat.is_nan flat = false →
  existsb PrimFloat.is_nan (map clamp flat) = false.
Proof.
  induction flat as [|q flat IH]; [done|]. cbn [existsb map].
  intros [Hq Hrest]%orb_false_iff. by rewrite clamp_not_nan, IH.
Qed.

(** Lines 72-90 on model probabilities without NaN: the values are clamped,
    a warning is printed when some were negative, the container is written. *)
Lemma clamp_and_write_ok (fh : handle) (out : gmap string vector) (mp : loc)
    (rows : matrix) (w : world) :
  heap w !! mp = Some (Nd2 rows) →
  existsb PrimFloat.is_nan (concat rows) = false →
  fh ∈ opened w →
  ∃ w', clamp_and_write fh out mp w = (Ok tt, w') ∧
        log w' = log w ++
          (if existsb is_negative (concat rows)
           then [EvPrint (WarnNegative (count_true (map is_negative (concat rows))))]
           else []) ++
          [EvWrite fh (<["q_ij"%string := map clamp (concat rows)]> out)] ∧
        opened w' = opened w ∧ next_handle w' = next_handle w ∧
        openable w' = openable w.
Proof.
  intros Hmp Hnan Hfh. unfold clamp_and_write.
  erewrite bind_ok; [|by apply load2_ok].
  erewrite bind_ok; [|reflexivity].
  erewrite bind_ok; [|apply load1_ok; cbn; by rewrite lookup_insert_eq].
  destruct (existsb is_negative (concat rows)) eqn:Hneg.
  - erewrite bind_ok.
    2:{ erewrite bind_ok; [|reflexivity]. rewrite setitem_mask_negative.
        erewrite bind_ok; reflexivity. }
    erewrite bind_ok; [|apply load1_ok; cbn; by rewrite lookup_insert_eq].
    rewrite existsb_nan_clamp by done.
    erewrite bind_ok; [|reflexivity].
    erewrite bind_ok; [|apply load1_ok; cbn; by rewrite lookup_insert_eq].
    unfold write. cbn. rewrite decide_True by done. eexists. split; [reflexivity|].
    cbn. by rewrite <- app_assoc.
  - erewrite bind_ok; [|reflexivity].
    erewrite bind_ok; [|apply load1_ok; cbn; by rewrite lookup_insert_eq].
    rewrite Hnan.
    erewrite bind_ok; [|reflexivity].
    erewrite bind_ok; [|apply load1_ok; cbn; by rewrite lookup_insert_eq].
    unfold write. cbn. rewrite decide_True by done. eexists. split; [reflexivity|].
    cbn. by rewrite clamp_no_negative.
Qed.

(** The second clamping step indexes the flat array with the mask of the
    2-D array: whenever a NaN is left after the first step, the call raises
    IndexError and nothing is written. *)
Lemma clamp_and_write_nan (fh : handle) (out : gmap string vector) (mp : loc)
    (rows : matrix) (w : world) :
  heap w !! mp = Some (Nd2 rows) →
  existsb PrimFloat.is_nan (map clamp (concat rows)) = true →
  (clamp_and_write fh out mp w).1 = Raise IndexError ∧
  written (log (clamp_and_write fh out mp w).2) = written (log w).
Proof.
  intros Hmp Hnan. unfold clamp_and_write.
  erewrite bind_ok; [|by apply load2_ok].
  erewrite bind_ok; [|reflexivity].
  erewrite bind_ok; [|apply load1_ok; cbn; by rewrite lookup_insert_eq].
  destruct (existsb is_negative (concat rows)) eqn:Hneg.
  - erewrite bind_ok.
    2:{ erewrite bind_ok; [|reflexivity]. rewrite setitem_mask_negative.
        erewrite bind_ok; reflexivity. }
    erewrite bind_ok; [|apply load1_ok; cbn; by rewrite lookup_insert_eq].
    rewrite Hnan.
    erewrite bind_raise.
    2:{ erewrite bind_ok;
          [|apply load2_ok; cbn; rewrite lookup_insert_ne; [|shelve];
            rewrite lookup_insert_ne; [exact Hmp|shelve]].
        erewrite bind_ok; [|reflexivity]. reflexivity. }
    cbn. split; [done|]. unfold written. by rewrite !omap_app, !app_nil_r.
  - erewrite bind_ok; [|reflexivity].
    erewrite bind_ok; [|apply load1_ok; cbn; by rewrite lookup_insert_eq].
    rewrite clamp_no_negative in Hnan by done. rewrite Hnan.
    erewrite bind_raise.
    2:{ erewrite bind_ok;
          [|apply load2_ok; cbn; rewrite lookup_insert_ne; [exact Hmp|shelve]].
        erewrite bind_ok; [|reflexivity]. reflexivity. }
    cbn. split; [done|]. unfold written. by rewrite !omap_app, !app_nil_r.
  Unshelve.
  all: intros Heq; pose proof (is_fresh (dom (heap w))) as Hfr.
  all: try (rewrite Heq in Hfr; apply Hfr, elem_of_dom; eauto).
Qed.

End run_facts.

(** * The frame of the serializer *)

Section frame_facts.
Import Numpy ModelProbabilities SerializerSpec.
Variable fh : handle.
Variable w0 : world.

Lemma frame_refl : frame fh w0 w0.
Proof. split; [done|]. exists []. by rewrite app_nil_r. Qed.

Lemma frame_event (e : event) (w : world) :
  writes_only_to fh e → frame fh w0 w → frame fh w0 (add_event e w).
Proof.
  intros He [Hh (evs & Hlog & Hevs)]. split; [done|].
  exists (evs ++ [e]). cbn. rewrite Hlog, <- app_assoc. split; [done|].
  apply Forall_app. by split; [|constructor].
Qed.

Lemma frame_store (l : loc) (a : ndarray) (w : world) :
  heap w0 !! l = None → frame fh w0 w →
  frame fh w0 (set_heap (<[l := a]> (heap w)) w).
Proof.
  intros Hl [Hh Hlog]. split; [|done].
  intros l' a' Hl'. cbn. rewrite lookup_insert_ne; [by apply Hh | congruence].
Qed.

Lemma keeps_ret {A} (a : A) : keeps_frame fh w0 (mret a) (λ _, True).
Proof. by intros w Hw. Qed.

Lemma keeps_lift {A} (o : outcome A) : keeps_frame fh w0 (lift o) (λ _, True).
Proof. by intros w Hw. Qed.

Lemma keeps_bind {A B} (m : M A) (f : A → M B) (Q : A → Prop) (R : B → Prop) :
  keeps_frame fh w0 m Q →
  (∀ a, Q a → keeps_frame fh w0 (f a) R) →
  keeps_frame fh w0 (m ≫= f) R.
Proof.
  intros Hm Hf w Hw. destruct (Hm w Hw) as [Hfr HQ].
  unfold mbind, M_bind. destruct (m w) as [[a|e] w1]; cbn in *.
  - apply Hf; [by apply HQ | done].
  - split; [done | discriminate].
Qed.

Lemma keeps_load (l : loc) : keeps_frame fh w0 (load l) (λ _, True).
Proof. intros w Hw. unfold load. by destruct (heap w !! l). Qed.

Lemma keeps_load_msa (l : loc) : keeps_frame fh w0 (load_msa l) (λ _, True).
Proof.
  apply (keeps_bind _ _ (λ _, True)); [apply keeps_load|].
  intros [] _; first [apply keeps_ret | apply keeps_lift].
Qed.

Lemma keeps_load1 (l : loc) : keeps_frame fh w0 (load1 l) (λ _, True).
Proof.
  apply (keeps_bind _ _ (λ _, True)); [apply keeps_load|].
  intros [] _; first [apply keeps_ret | apply keeps_lift].
Qed.

Lemma keeps_load2 (l : loc) : keeps_frame fh w0 (load2 l) (λ _, True).
Proof.
  apply (keeps_bind _ _ (λ _, True)); [apply keeps_load|].
  intros [] _; first [apply keeps_ret | apply keeps_lift].
Qed.

Lemma keeps_load4 (l : loc) : keeps_frame fh w0 (load4 l) (λ _, True).
Proof.
  apply (keeps_bind _ _ (λ _, True)); [apply keeps_load|].
  intros [] _; first [apply keeps_ret | apply keeps_lift].
Qed.

(** A new array is a cell that no array of the initial heap occupies. *)
Lemma keeps_alloc (a : ndarray) :
  keeps_frame fh w0 (alloc a) (λ l, heap w0 !! l = None).
Proof.
  intros w Hw. pose proof (is_fresh (dom (heap w))) as Hfr.
  assert (Hnew : heap w0 !! fresh (dom (heap w)) = None).
  { destruct (heap w0 !! fresh (dom (heap w))) as [a'|] eqn:Hl; [|done].
    destruct Hw as [Hh _]. apply Hh in Hl. exfalso. apply Hfr, elem_of_dom. eauto. }
  split; [by apply frame_store | by intros l [= <-]].
Qed.

Lemma keeps_store (l : loc) (a : ndarray) :
  heap w0 !! l = None → keeps_frame fh w0 (store l a) (λ _, True).
Proof. intros Hl w Hw. split; [by apply frame_store | done]. Qed.

Lemma keeps_print (msg : warning) : keeps_frame fh w0 (print msg) (λ _, True).
Proof. intros w Hw. split; [by apply frame_event | done]. Qed.

Lemma keeps_write (out : gmap string vector) :
  keeps_frame fh w0 (write fh out) (λ _, True).
Proof.
  intros w Hw. unfold write. destruct (decide (fh ∈ opened w)); [|done].
  split; [by apply frame_event | done].
Qed.

Lemma keeps_for_each {A S} (xs : list A) (body : S → A → M S) (s : S) :
  (∀ s x, keeps_frame fh w0 (body s x) (λ _, True)) →
  keeps_frame fh w0 (for_each xs body s) (λ _, True).
Proof.
  intros Hbody. revert s. induction xs as [|x xs IH]; intros s; [apply keeps_ret|].
  cbn [for_each]. eapply keeps_bind; [apply Hbody|]. intros s' _. apply IH.
Qed.

(** One step of a chain of binds whose parts maintain the frame. *)
Ltac keeps_step :=
  first
    [ apply keeps_ret | apply keeps_lift | apply keeps_load_msa
    | apply keeps_load1 | apply keeps_load2 | apply keeps_load4
    | apply keeps_print | apply keeps_write
    | apply keeps_store; assumption
    | eapply keeps_bind; [first [apply keeps_alloc | keeps_step] | intros ? ?] ].

Lemma keeps_fill_row (res : result) (pair_freq : loc) (lambda_pair : float)
    (Nij : matrix) (mp : loc) (i index j : nat) :
  heap w0 !! mp = None →
  keeps_frame fh w0 (fill_row res pair_freq lambda_pair Nij mp i index j) (λ _, True).
Proof. intros Hmp. unfold fill_row. repeat keeps_step. Qed.

Lemma keeps_clamp_and_write (out : gmap string vector) (mp : loc) :
  keeps_frame fh w0 (clamp_and_write fh out mp) (λ _, True).
Proof.
  unfold clamp_and_write.
  do 3 keeps_step.
  eapply keeps_bind.
  { destruct (existsb _ _); repeat keeps_step. }
  intros _ _. keeps_step.
  eapply keeps_bind.
  { destruct (existsb _ _); repeat keeps_step. }
  intros _ _. repeat keeps_step.
Qed.

Lemma keeps_write_msgpack_fn `{CountsEngine} (py : python) (res : result)
    (msa weights pair_freq : loc) (lambda_pair : float) :
  keeps_frame fh w0 (write_msgpack_fn py fh res msa weights pair_freq lambda_pair)
              (λ _, True).
Proof.
  unfold write_msgpack_fn. do 5 keeps_step.
  eapply keeps_bind.
  { unfold fill_model_prob. apply keeps_for_each. intros s i.
    apply keeps_for_each. intros s' j. by apply keeps_fill_row. }
  intros _ _. apply keeps_clamp_and_write.
Qed.

End frame_facts.

(** * The serializer, end to end *)

Section serializer.
Import Numpy ModelProbabilities SerializerSpec.
Context `{CountsEngine}.

Lemma calculate_Nij_shape (msa_v : alignment) (weights_v : vector) (n1 n2 n3 n4 : nat) :
  has_shape4 (pair_counts msa_v weights_v) n1 n2 n3 n4 = true →
  has_shape2 (calculate_Nij msa_v weights_v) n1 n2 = true.
Proof.
  intros [Hn Ht]%has_shape4_spec. apply has_shape2_spec.
  unfold calculate_Nij, sum_axis2, sum_axis3, slice4_20_20.
  rewrite !length_map. split; [done|].
  intros i r Hr. rewrite !map_map in Hr.
  rewrite list_lookup_fmap in Hr.
  destruct (pair_counts msa_v weights_v !! i) as [ti|] eqn:Hti; [|done].
  cbn in Hr. injection Hr as <-. rewrite !length_map. by apply (Ht i ti).
Qed.

Lemma list_tabulate {A} (d : A) (l : list A) :
  l = map (λ k, default d (l !! k)) (seq 0 (length l)).
Proof. rewrite <- (take_tabulate d l (length l)) by done. by rewrite firstn_all. Qed.

(** [np.add.reduce] on a run of twenty values. *)
Lemma add_reduce_20 (c : nat → float) : add_reduce (map c (seq 0 20)) = sum20 c.
Proof. reflexivity. Qed.

Lemma slice_block_sums (blk : matrix) :
  has_shape2 blk 21 21 = true →
  add_reduce (map add_reduce (slice_20_20 blk)) =
  sum20 (λ a, sum20 (λ b, at2 blk a b)).
Proof.
  intros [Hn Hr]%has_shape2_spec. unfold slice_20_20.
  rewrite <- (add_reduce_20 (λ a, sum20 (λ b, at2 blk a b))). f_equal.
  rewrite (take_tabulate [] blk 20) by lia. rewrite !map_map.
  apply map_ext_in. intros a Ha%in_seq. unfold at2.
  destruct (lookup_lt_is_Some_2 blk a ltac:(lia)) as [r Hr'].
  rewrite Hr'. rewrite <- add_reduce_20. f_equal.
  apply (take_tabulate 0%float r 20). rewrite (Hr _ _ Hr'). lia.
Qed.

(** [calculate_Nij] entry by entry: the sum over the states [a < 20] of the
    sums over the states [b < 20] of the pair counts. *)
Lemma calculate_Nij_sums (msa_v : alignment) (weights_v : vector) (L : nat) :
  has_shape4 (pair_counts msa_v weights_v) L L 21 21 = true →
  calculate_Nij msa_v weights_v =
    map (λ i, map (λ j,
          sum20 (λ a, sum20 (λ b, at4 (pair_counts msa_v weights_v) i j a b)))
        (seq 0 L)) (seq 0 L).
Proof.
  intros [Hn4 Hr4]%has_shape4_spec.
  unfold calculate_Nij, sum_axis2, sum_axis3, slice4_20_20. rewrite !map_map.
  rewrite (list_tabulate [] (pair_counts msa_v weights_v)) at 1.
  rewrite map_map, Hn4. apply map_ext_in. intros i Hi%in_seq.
  destruct (lookup_lt_is_Some_2 (pair_counts msa_v weights_v) i ltac:(lia)) as [ti Hti].
  rewrite Hti. cbn [default from_option id]. destruct (Hr4 _ _ Hti) as [Hlen Hblk].
  rewrite !map_map. rewrite (list_tabulate [] ti) at 1.
  rewrite map_map, Hlen. apply map_ext_in. intros j Hj%in_seq.
  destruct (lookup_lt_is_Some_2 ti j ltac:(lia)) as [blk Hb].
  rewrite Hb. cbn [default from_option id].
  rewrite (slice_block_sums blk (Hblk _ _ Hb)).
  unfold at4. by rewrite Hti, Hb.
Qed.

Lemma calculate_Nij_at (msa_v : alignment) (weights_v : vector) (L i j : nat) :
  has_shape4 (pair_counts msa_v weights_v) L L 21 21 = true → i < L → j < L →
  at2 (calculate_Nij msa_v weights_v) i j =
    sum20 (λ a, sum20 (λ b, at4 (pair_counts msa_v weights_v) i j a b)).
Proof.
  intros Hpc Hi Hj. rewrite (calculate_Nij_sums _ _ L Hpc). unfold at2.
  rewrite list_lookup_fmap, lookup_seq_lt by done. cbn.
  by rewrite list_lookup_fmap, lookup_seq_lt by done.
Qed.

(** [stream_or_file] around any function, when the handle is available. *)
Lemma stream_or_file_run {R} (mode : string) (fn : handle → M R) (f : file_arg)
    (w : world) :
  can_open f w = true →
  stream_or_file mode fn f w =
  ((fn (target_handle f w) (entered f mode w)).1,
   left_behind f (target_handle f w) (fn (target_handle f w) (entered f mode w)).2).
Proof.
  intros Hopen. destruct f as [p|fh]; cbn in *.
  - unfold open_fn. rewrite Hopen.
    by destruct (fn (next_handle w) _) as [r w2].
  - by destruct (fn fh w).
Qed.

Section call.
Variable res : result.
Variables msa weights pair_freq : loc.
Variable lambda_pair : float.
Variable msa_v : alignment.
Variable weights_v : vector.
Variables pf xp : tensor4.

(** Lines 49-69 under Python 2: the counts, the [N_ij] sequence and the
    filled [model_prob] array, which is a new array of the heap. *)
Lemma write_msgpack_fn_fill (fh : handle) (w : world) :
  well_formed_call res msa weights pair_freq (heap w) msa_v weights_v pf xp →
  let Nij := calculate_Nij msa_v weights_v in
  let mp := fresh (dom (heap w)) in
  write_msgpack_fn Python2 fh res msa weights pair_freq lambda_pair w =
  clamp_and_write fh
    {[ "N_ij"%string := map (λ ij, at2 Nij ij.1 ij.2) (lower_rows_ascending (ncol res)) ]}
    mp
    (set_heap (<[mp := Nd2 (q_rows pf xp lambda_pair Nij (ncol res))]> (heap w)) w).
Proof.
  intros (Hmsa & Hw & Hpf & Hxp & Hpc & Hpfs & Hxps) Nij mp.
  pose proof (calculate_Nij_shape _ _ _ _ _ _ Hpc) as HNij.
  unfold write_msgpack_fn.
  erewrite bind_ok; [|by apply load_msa_ok].
  erewrite bind_ok; [|by apply load1_ok].
  rewrite tril_indices_rows.
  rewrite (take_along_ok _ (ncol res) (ncol res)); [|done|].
  2:{ intros i j Hij%lower_rows_ascending_bound. lia. }
  erewrite bind_ok; [|reflexivity].
  erewrite bind_ok; [|reflexivity].
  erewrite bind_ok; [|reflexivity].
  fold Nij mp.
  assert (Hfresh : heap w !! mp = None).
  { apply not_elem_of_dom, is_fresh. }
  erewrite bind_ok; [|by apply (fill_model_prob_ok _ _ _ _ _ pf xp)].
  done.
Qed.

Lemma length_concat_uniform {A} (ls : list (list A)) (n : nat) :
  Forall (λ l, length l = n) ls → length (concat ls) = length ls * n.
Proof.
  induction 1 as [|l ls Hl Hall IH]; [done|]. cbn. rewrite length_app, IH. lia.
Qed.

Lemma heap_entered (f : file_arg) (mode : string) (w : world) :
  heap (entered f mode w) = heap w.
Proof. by destruct f. Qed.

Lemma heap_left_behind (f : file_arg) (fh : handle) (w : world) :
  heap (left_behind f fh w) = heap w.
Proof. by destruct f. Qed.

Lemma can_write_opened (f : file_arg) (mode : string) (w : world) :
  can_write f w = true → target_handle f w ∈ opened (entered f mode w).
Proof.
  destruct f as [p|fh]; cbn.
  - intros _. apply elem_of_union_l. by apply elem_of_singleton.
  - by intros ?%bool_decide_eq_true.
Qed.

Lemma can_write_can_open (f : file_arg) (w : world) :
  can_write f w = true → can_open f w = true.
Proof. by destruct f. Qed.

(** Under Python 2, a call on well-formed arguments whose model
    probabilities hold no NaN returns, having written one container to the
    target handle. *)
Lemma write_msgpack_ok (f : file_arg) (w : world) :
  well_formed_call res msa weights pair_freq (heap w) msa_v weights_v pf xp →
  can_write f w = true →
  let Nij := calculate_Nij msa_v weights_v in
  let raw := concat (q_rows pf xp lambda_pair Nij (ncol res)) in
  existsb PrimFloat.is_nan raw = false →
  ∃ w' evs,
    write_msgpack Python2 f res msa weights pair_freq lambda_pair w = (Ok tt, w') ∧
    log w' = log w ++ evs ∧
    written evs =
      [(target_handle f w,
        container (map (λ ij, at2 Nij ij.1 ij.2) (lower_rows_ascending (ncol res)))
                  (map clamp raw))] ∧
    printed evs =
      (if existsb is_negative raw
       then [WarnNegative (count_true (map is_negative raw))] else []).
Proof.
  intros Hwf Hcw Nij raw Hnan. unfold write_msgpack.
  rewrite stream_or_file_run by (by apply can_write_can_open).
  rewrite write_msgpack_fn_fill by (by rewrite heap_entered).
  rewrite heap_entered. fold Nij.
  set (mp := fresh (dom (heap w))).
  set (wA := set_heap _ _).
  destruct (clamp_and_write_ok (target_handle f w)
              {[ "N_ij"%string := map (λ ij, at2 Nij ij.1 ij.2)
                                      (lower_rows_ascending (ncol res)) ]}
              mp (q_rows pf xp lambda_pair Nij (ncol res)) wA)
    as (w' & Hrun & Hlog & _); [by apply lookup_insert_eq | done | |].
  { subst wA. cbn. by apply can_write_opened. }
  rewrite Hrun. cbn [fst snd]. fold raw in Hlog.
  subst wA. cbn [log set_heap] in Hlog.
  destruct f as [p|fh]; cbn [left_behind entered target_handle log] in *.
  - eexists _, _. split; [reflexivity|]. cbn [log]. rewrite Hlog.
    rewrite <- !app_assoc. split; [reflexivity|].
    unfold written, printed, container.
    destruct (existsb is_negative raw); cbn; done.
  - eexists _, _. split; [reflexivity|]. split; [exact Hlog|].
    unfold written, printed, container.
    destruct (existsb is_negative raw); cbn; done.
Qed.

(** Under Python 2, the filled [model_prob] array is still in the heap when
    the call ends, however it ends. *)
Lemma write_msgpack_model_prob (f : file_arg) (w : world) :
  well_formed_call res msa weights pair_freq (heap w) msa_v weights_v pf xp →
  can_open f w = true →
  heap (write_msgpack Python2 f res msa weights pair_freq lambda_pair w).2
    !! fresh (dom (heap w)) =
  Some (Nd2 (q_rows pf xp lambda_pair (calculate_Nij msa_v weights_v) (ncol res))).
Proof.
  intros Hwf Hopen. unfold write_msgpack.
  rewrite stream_or_file_run by done. cbn [snd].
  rewrite heap_left_behind.
  rewrite write_msgpack_fn_fill by (by rewrite heap_entered).
  rewrite heap_entered.
  set (wA := set_heap _ _).
  destruct (keeps_clamp_and_write (target_handle f w) wA
              {[ "N_ij"%string := map (λ ij, at2 (calculate_Nij msa_v weights_v) ij.1 ij.2)
                                      (lower_rows_ascending (ncol res)) ]}
              (fresh (dom (heap w))) wA (frame_refl _ _)) as [[Hheap _] _].
  apply Hheap. subst wA. cbn. apply lookup_insert_eq.
Qed.

(** Under Python 2, a call on well-formed arguments of which some model
    probability is NaN raises IndexError in the second clamping step and
    writes no container. *)
Lemma write_msgpack_nan (f : file_arg) (w : world) :
  well_formed_call res msa weights pair_freq (heap w) msa_v weights_v pf xp →
  can_open f w = true →
  existsb PrimFloat.is_nan
    (concat (q_rows pf xp lambda_pair (calculate_Nij msa_v weights_v) (ncol res))) = true →
  (write_msgpack Python2 f res msa weights pair_freq lambda_pair w).1 = Raise IndexError ∧
  written (log (write_msgpack Python2 f res msa weights pair_freq lambda_pair w).2) =
    written (log w).
Proof.
  intros Hwf Hopen Hnan%existsb_nan_clamp_true. unfold write_msgpack.
  rewrite stream_or_file_run by done. cbn [fst snd].
  rewrite write_msgpack_fn_fill by (by rewrite heap_entered).
  rewrite heap_entered.
  set (wA := set_heap _ _).
  destruct (clamp_and_write_nan (target_handle f w)
              {[ "N_ij"%string := map (λ ij, at2 (calculate_Nij msa_v weights_v) ij.1 ij.2)
                                      (lower_rows_ascending (ncol res)) ]}
              (fresh (dom (heap w)))
              (q_rows pf xp lambda_pair (calculate_Nij msa_v weights_v) (ncol res)) wA)
    as [Hraise Hwritten]; [by apply lookup_insert_eq | done |].
  split; [done|].
  destruct f as [p|fh]; cbn [left_behind entered log] in *.
  - unfold written in *. rewrite omap_app, Hwritten. subst wA. cbn [log set_heap].
    rewrite omap_app. cbn. by rewrite !app_nil_r.
  - exact Hwritten.
Qed.

Lemma lookup_concat_uniform {A} (ls : list (list A)) (n index k : nat) (l : list A) :
  Forall (λ l, length l = n) ls → ls !! index = Some l → k < n →
  concat ls !! (index * n + k) = l !! k.
Proof.
  intros Hall. revert index. induction Hall as [|l0 ls Hl0 Hall IH]; intros index Hl Hk;
    [done|].
  destruct index as [|index]; cbn in *.
  - injection Hl as ->. by rewrite lookup_app_l by lia.
  - rewrite lookup_app_r by lia. rewrite Hl0.
    replace (n + index * n + k - n) with (index * n + k) by lia. by apply IH.
Qed.

(** X16 (C1 under Python 2, where line 57 yields an int). On well-formed
    arguments, once the handle is available,
    [write_msgpack] fills a new array [model_prob] with one row per column
    pair; for each pair [i < j] and each pair of non-gap symbols [a, b], the
    row of the pair holds at column [a * 20 + b] the value
    [pair_freq[i,j,a,b] - x_pair[i,j,a,b] * lambda_pair / Nij[i,j]], where
    [Nij[i,j]], the entry of [calculate_Nij(msa, weights)], is the sum of the
    pair counts of the pair over the non-gap states. This holds whether the
    clamping that follows returns or raises. *)
Theorem model_prob_entries (f : file_arg) (w : world) :
  well_formed_call res msa weights pair_freq (heap w) msa_v weights_v pf xp →
  can_open f w = true →
  ∃ model_prob,
    heap w !! fresh (dom (heap w)) = None ∧
    heap (write_msgpack Python2 f res msa weights pair_freq lambda_pair w).2
      !! fresh (dom (heap w)) = Some (Nd2 model_prob) ∧
    length model_prob = ncol res * (ncol res - 1) / 2 ∧
    ∀ i j a b, i < j < ncol res → a < 20 → b < 20 →
      ∃ index row,
        pairs (ncol res) !! index = Some (i, j) ∧
        model_prob !! index = Some row ∧
        row !! (a * 20 + b) =
          Some (at4 pf i j a b - at4 xp i j a b * lambda_pair /
                at2 (calculate_Nij msa_v weights_v) i j)%float ∧
        at2 (calculate_Nij msa_v weights_v) i j =
          sum20 (λ a', sum20 (λ b', at4 (pair_counts msa_v weights_v) i j a' b')).
Proof.
  intros Hwf Hopen. eexists. split; [apply not_elem_of_dom, is_fresh|].
  split; [by apply write_msgpack_model_prob|].
  split; [unfold q_rows; by rewrite length_map, pairs_length|].
  intros i j a b Hij Ha Hb.
  pose proof (proj2 (pairs_elem (ncol res) i j) Hij) as Hin.
  apply list_elem_of_lookup in Hin as [index Hindex].
  exists index, (q_block pf xp lambda_pair (calculate_Nij msa_v weights_v) i j).
  split; [done|]. split; [|split].
  - unfold q_rows. rewrite list_lookup_fmap, Hindex. done.
  - unfold q_block. by rewrite lookup_grid.
  - destruct Hwf as (_ & _ & _ & _ & Hpc & _).
    apply (calculate_Nij_at _ _ (ncol res)); [done|lia..].
Qed.

(** X18 (C2 under Python 2 and without NaN). On well-formed arguments with
    a writable target, when
    no model probability is NaN, [write_msgpack] returns and the container
    it wrote holds under "q_ij" the model probabilities with every negative
    one (minus infinity included) replaced by zero: no stored value is
    negative or NaN, and a warning with the number of negative values is
    printed exactly when there was one. Values of plus infinity are stored
    as they are. *)
Theorem q_ij_clamped (f : file_arg) (w : world) :
  well_formed_call res msa weights pair_freq (heap w) msa_v weights_v pf xp →
  can_write f w = true →
  existsb PrimFloat.is_nan
    (concat (q_rows pf xp lambda_pair (calculate_Nij msa_v weights_v) (ncol res))) = false →
  ∃ w' evs out q_ij,
    write_msgpack Python2 f res msa weights pair_freq lambda_pair w = (Ok tt, w') ∧
    log w' = log w ++ evs ∧
    written evs = [(target_handle f w, out)] ∧
    out !! "q_ij"%string = Some q_ij ∧
    q_ij = map (λ q, if (q <? 0)%float then 0%float else q)
               (concat (q_rows pf xp lambda_pair (calculate_Nij msa_v weights_v) (ncol res))) ∧
    Forall (λ q, (q <? 0)%float = false ∧ PrimFloat.is_nan q = false) q_ij ∧
    printed evs =
      (if existsb is_negative
            (concat (q_rows pf xp lambda_pair (calculate_Nij msa_v weights_v) (ncol res)))
       then [WarnNegative (count_true (map is_negative
               (concat (q_rows pf xp lambda_pair (calculate_Nij msa_v weights_v) (ncol res)))))]
       else []).
Proof.
  intros Hwf Hcw Hnan.
  destruct (write_msgpack_ok f w Hwf Hcw Hnan) as (w' & evs & Hrun & Hlog & Hout & Hpr).
  eexists w', evs, _, _. split; [done|]. split; [done|]. split; [exact Hout|].
  split; [apply lookup_insert_eq|]. split; [reflexivity|]. split; [|exact Hpr].
  apply Forall_forall. intros q Hq.
  apply list_elem_of_In, in_map_iff in Hq as (q0 & <- & Hq0).
  split; [apply clamp_not_negative|]. apply clamp_not_nan.
  apply not_true_iff_false. intros Hn.
  assert (Hex : existsb PrimFloat.is_nan
    (concat (q_rows pf xp lambda_pair (calculate_Nij msa_v weights_v) (ncol res))) = true)
    by (apply existsb_exists; eauto).
  congruence.
Qed.

(** X17 (C5 under Python 2 and without NaN, where a container is written).
    The "q_ij" entry of the container has length [400 * L(L-1)/2]; the
    pairs [(i, j)], [i < j], follow each other in strictly increasing
    lexicographic order, each with a block of 400 values in which the value
    for the symbols [(a, b)] sits at offset [a * 20 + b]. *)
Theorem q_ij_layout (f : file_arg) (w : world) :
  well_formed_call res msa weights pair_freq (heap w) msa_v weights_v pf xp →
  can_write f w = true →
  existsb PrimFloat.is_nan
    (concat (q_rows pf xp lambda_pair (calculate_Nij msa_v weights_v) (ncol res))) = false →
  ∃ w' evs out q_ij,
    write_msgpack Python2 f res msa weights pair_freq lambda_pair w = (Ok tt, w') ∧
    log w' = log w ++ evs ∧
    written evs = [(target_handle f w, out)] ∧
    out !! "q_ij"%string = Some q_ij ∧
    length q_ij = 400 * (ncol res * (ncol res - 1) / 2) ∧
    StronglySorted lex_lt (pairs (ncol res)) ∧
    (∀ i j, (i, j) ∈ pairs (ncol res) ↔ i < j < ncol res) ∧
    ∀ index i j a b,
      pairs (ncol res) !! index = Some (i, j) → a < 20 → b < 20 →
      q_ij !! (index * 400 + (a * 20 + b)) =
        Some (clamp (q_entry pf xp lambda_pair (calculate_Nij msa_v weights_v) i j a b)).
Proof.
  intros Hwf Hcw Hnan.
  destruct (write_msgpack_ok f w Hwf Hcw Hnan) as (w' & evs & Hrun & Hlog & Hout & Hpr).
  eexists w', evs, _, _. split; [done|]. split; [done|]. split; [exact Hout|].
  split; [apply lookup_insert_eq|].
  set (Nij := calculate_Nij msa_v weights_v).
  assert (Hrows : Forall (λ l, length l = 400) (q_rows pf xp lambda_pair Nij (ncol res))).
  { apply Forall_forall. intros r Hr%list_elem_of_In.
    apply in_map_iff in Hr as (ij & <- & _). apply q_block_length. }
  split.
  { rewrite length_map. rewrite (length_concat_uniform _ 400) by done.
    unfold q_rows. rewrite length_map, pairs_length. lia. }
  split; [apply pairs_sorted|]. split; [apply pairs_elem|].
  intros index i j a b Hindex Ha Hb.
  rewrite list_lookup_fmap.
  rewrite (lookup_concat_uniform _ 400 index _ (q_block pf xp lambda_pair Nij i j));
    [|done| |lia].
  - unfold q_block. by rewrite lookup_grid.
  - unfold q_rows. by rewrite list_lookup_fmap, Hindex.
Qed.

End call.

(** C4. [calculate_Ni] and [calculate_Nij] reduce the single counts [L, 21]
    and the pair counts [L, L, 21, 21] by summing over the symbol states 0
    to 19 only: [Ni[i]] is the sum of the twenty values
    [single_counts[i, a]], [a < 20], and [Nij[i, j]] the sum over [a < 20] of
    the sums over [b < 20] of [pair_counts[i, j, a, b]], each sum with its
    additions in the order of [np.add.reduce]. The entries of the gap state
    20 take no part in the result. *)
Theorem counts_reduce_over_non_gap (msa_v : alignment) (weights_v : vector) (L : nat) :
  has_shape2 (single_counts msa_v weights_v) L 21 = true →
  has_shape4 (pair_counts msa_v weights_v) L L 21 21 = true →
  calculate_Ni msa_v weights_v =
    map (λ i, sum20 (λ a, at2 (single_counts msa_v weights_v) i a)) (seq 0 L) ∧
  calculate_Nij msa_v weights_v =
    map (λ i, map (λ j,
          sum20 (λ a, sum20 (λ b, at4 (pair_counts msa_v weights_v) i j a b)))
        (seq 0 L)) (seq 0 L).
Proof.
  intros [Hn1 Hr1]%has_shape2_spec [Hn4 Hr4]%has_shape4_spec. split.
  - unfold calculate_Ni, sum_axis1, slice2_20. rewrite map_map.
    rewrite (list_tabulate [] (single_counts msa_v weights_v)) at 1.
    rewrite map_map, Hn1. apply map_ext_in. intros i Hi%in_seq. unfold at2.
    destruct (lookup_lt_is_Some_2 (single_counts msa_v weights_v) i ltac:(lia)) as [r Hr].
    rewrite Hr. cbn [default from_option id].
    rewrite <- (add_reduce_20 (λ a, default 0%float (r !! a))). f_equal.
    apply (take_tabulate 0%float r 20). rewrite (Hr1 _ _ Hr). lia.
  - apply calculate_Nij_sums. by apply has_shape4_spec.
Qed.

(** C9. [write_msgpack] leaves every array that existed before the call as
    it was, in particular the alignment, the weights, the pair frequencies
    and the pair potentials; whatever it writes goes to the target handle. *)
Theorem write_msgpack_frame (py : python) (f : file_arg) (res : result)
    (msa weights pair_freq : loc)
    (lambda_pair : float) (w : world) :
  (∀ l a, heap w !! l = Some a →
     heap (write_msgpack py f res msa weights pair_freq lambda_pair w).2 !! l = Some a) ∧
  (∀ l, l ∈ [x_pair res; pair_freq; msa; weights] → is_Some (heap w !! l) →
     heap (write_msgpack py f res msa weights pair_freq lambda_pair w).2 !! l = heap w !! l) ∧
  ∃ evs,
    log (write_msgpack py f res msa weights pair_freq lambda_pair w).2 = log w ++ evs ∧
    ∀ fh out, EvWrite fh out ∈ evs → fh = target_handle f w.
Proof.
  assert (Hfr : frame (target_handle f w) w
                  (write_msgpack py f res msa weights pair_freq lambda_pair w).2).
  { unfold write_msgpack. destruct f as [p|fh]; cbn [stream_or_file target_handle].
    - unfold open_fn. destruct (openable w p) eqn:Hopen; [|apply frame_refl].
      set (w1 := World _ _ _ _ _).
      destruct (keeps_write_msgpack_fn (next_handle w) w1 py res msa weights pair_freq
                  lambda_pair w1 (frame_refl _ _)) as [[Hheap (evs & Hlog & Hevs)] _].
      destruct (write_msgpack_fn _ _ _ _ _ _ _ w1) as [r w2]. cbn in *.
      split; [done|]. exists ([EvOpen (endswith p ".gz") p "wb" (next_handle w)]
                              ++ evs ++ [EvClose (next_handle w)]).
      rewrite Hlog, <- !app_assoc. split; [done|].
      apply Forall_app. split; [by repeat constructor|].
      apply Forall_app. split; [done | by repeat constructor].
    - destruct (keeps_write_msgpack_fn fh w py res msa weights pair_freq
                  lambda_pair w (frame_refl _ _)) as [Hfr _]. done. }
  destruct Hfr as [Hheap (evs & Hlog & Hevs)].
  split; [done|]. split.
  - intros l _ [a Ha]. rewrite Ha. by apply Hheap.
  - exists evs. split; [done|]. intros fh out Hin.
    rewrite Forall_forall in Hevs. apply (Hevs _ Hin).
Qed.

(** C6. [stream_or_file] with a path opens it (with gzip exactly when the
    name ends in ".gz"), runs the function on the new handle and closes that
    handle afterwards, whether the function returned or raised, passing its
    outcome on; with a stream it runs the function on that very stream and
    does nothing else, so it never closes it. When the open itself fails
    there is no handle, and the call ends in UnboundLocalError. *)
Theorem stream_or_file_handles {R} (mode : string) (fn : handle → M R) (w : world) :
  (∀ p, openable w p = true →
     let fh := next_handle w in
     let w1 := World (heap w) ({[fh]} ∪ opened w) (S fh) (openable w)
                     (log w ++ [EvOpen (endswith p ".gz") p mode fh]) in
     (stream_or_file mode fn (Path p) w).1 = (fn fh w1).1 ∧
     log (stream_or_file mode fn (Path p) w).2 = log (fn fh w1).2 ++ [EvClose fh] ∧
     (fh ∉ opened ((stream_or_file mode fn (Path p) w).2)) ∧
     heap (stream_or_file mode fn (Path p) w).2 = heap (fn fh w1).2) ∧
  (∀ p, openable w p = false →
     stream_or_file mode fn (Path p) w = (Raise UnboundLocalError, w)) ∧
  (∀ fh, stream_or_file mode fn (Stream fh) w = fn fh w).
Proof.
  split; [|split].
  - intros p Hopen fh w1. cbn [stream_or_file]. unfold open_fn. rewrite Hopen.
    fold fh. fold w1. destruct (fn fh w1) as [r w2]. cbn.
    repeat split; try done.
    intros [_ Hn]%elem_of_difference. apply Hn. by apply elem_of_singleton.
  - intros p Hopen. cbn [stream_or_file]. unfold open_fn. by rewrite Hopen.
  - done.
Qed.

End serializer.

(** * The serializer on concrete inputs *)

Section serializer_runs.
Import Numpy ModelProbabilities SerializerSpec SerializerExamples.

(** C1 at its failing input: any call under Python 3. On [world_plain],
    with two columns, line 57 asks [np.zeros] for [2 * 1 / 2 = 1.0] rows, a
    float: the call raises TypeError, [model_prob] is never allocated (the
    heap is as it was), no loop runs, nothing is printed or written. Under
    Python 2 the same call returns. *)
Theorem model_prob_never_allocated :
  (run Python3 (Stream 7) 2 0.25%float world_plain).1 = Raise TypeError ∧
  heap (run Python3 (Stream 7) 2 0.25%float world_plain).2 = heap world_plain ∧
  log (run Python3 (Stream 7) 2 0.25%float world_plain).2 = [] ∧
  (run Python2 (Stream 7) 2 0.25%float world_plain).1 = Ok tt.
Proof. vm_compute. repeat split. Qed.

(** X16 on [world_plain]: the only pair is (0, 1), and its first cell is
    [0.5 - 1 * 0.25 / 1]. *)
Lemma model_prob_entries_witness :
  ∃ model_prob row,
    heap (run Python2 (Stream 7) 2 0.25%float world_plain).2
      !! fresh (dom (heap world_plain)) = Some (Nd2 model_prob) ∧
    model_prob !! 0 = Some row ∧
    row !! 0 = Some 0.25%float.
Proof.
  destruct (model_prob_entries (H := Counts.spec_engine) (Result 2 3) 0 1 2 0.25%float
              [[0; 0]] [1%float] (const4 2 0.5%float) (const4 2 1%float)
              (Stream 7) world_plain)
    as (mp & _ & Hheap & _ & Hent).
  - repeat split; vm_compute; reflexivity.
  - reflexivity.
  - destruct (Hent 0 1 0 0) as (index & row & Hidx & Hrow & Hval & _); [cbn; lia..|].
    destruct index as [|index]; [|destruct index; discriminate].
    exists mp, row. split; [exact Hheap|]. split; [exact Hrow|].
    etransitivity; [exact Hval|]. vm_compute. reflexivity.
Defined.

(** C2 at its failing input. With one sequence whose second column is a
    gap, [Nij[0,1] = 0]; with zero potentials every model probability of the
    pair is [0.5 - 0 * 0.25 / 0], a NaN. Under Python 2 the second clamping
    step then indexes the flat array with the mask of the 2-D array: the
    call prints its warning, raises IndexError and writes no container.
    Under Python 3 the call does not get that far: it raises TypeError at
    line 57 and writes no container either. *)
Theorem q_ij_nan_raises :
  (run Python2 (Stream 7) 2 0.25%float world_nan).1 = Raise IndexError ∧
  written (log (run Python2 (Stream 7) 2 0.25%float world_nan).2) = [] ∧
  printed (log (run Python2 (Stream 7) 2 0.25%float world_nan).2)
    = [WarnNan (replicate 400 1)] ∧
  (run Python3 (Stream 7) 2 0.25%float world_nan).1 = Raise TypeError ∧
  written (log (run Python3 (Stream 7) 2 0.25%float world_nan).2) = [].
Proof. vm_compute. repeat split. Qed.

(** The same defect of coverage with negative potentials: every model
    probability of the pair is [0.5 - (-0.25 / 0)], plus infinity, which
    neither clamping step touches; under Python 2 the container stores it. *)
Lemma q_ij_stores_infinity :
  (run Python2 (Stream 7) 2 0.25%float world_gap).1 = Ok tt ∧
  map (λ hc, hc.2 !! "q_ij"%string)
      (written (log (run Python2 (Stream 7) 2 0.25%float world_gap).2))
    = [Some (replicate 400 infinity)] ∧
  PrimFloat.is_finite infinity = false.
Proof. vm_compute. repeat split. Qed.

(** X18 on [world_three], written to a gzip path: 800 of the 1200 model
    probabilities are minus infinity and are clamped. *)
Lemma q_ij_clamped_witness :
  ∃ w' evs out q_ij,
    run Python2 (Path "model.msgpack.gz") 3 0.25%float world_three = (Ok tt, w') ∧
    log w' = evs ∧
    written evs = [(8, out)] ∧
    out !! "q_ij"%string = Some q_ij ∧
    Forall (λ q, (q <? 0)%float = false ∧ PrimFloat.is_nan q = false) q_ij ∧
    printed evs = [WarnNegative 800].
Proof.
  destruct (q_ij_clamped (H := Counts.spec_engine) (Result 3 3) 0 1 2 0.25%float
              [[0; 0; 20]] [1%float] (const4 3 0.5%float) (const4 3 1%float)
              (Path "model.msgpack.gz") world_three)
    as (w' & evs & out & q_ij & Hrun & Hlog & Hout & Hq & _ & Hall & Hpr).
  - repeat split; vm_compute; reflexivity.
  - reflexivity.
  - vm_compute. reflexivity.
  - exists w', evs, out, q_ij. split; [exact Hrun|]. split; [exact Hlog|].
    split; [exact Hout|]. split; [exact Hq|]. split; [exact Hall|].
    etransitivity; [exact Hpr|]. vm_compute. reflexivity.
Defined.

(** C4 on twenty sequences of one column, one for each amino acid, each of
    weight one third. The twenty single counts of the column are one third,
    and their sum in the order of [np.add.reduce] is [0x1.aaaaaaaaaaaa9p+2];
    added one after the other from the left they would give
    [0x1.aaaaaaaaaaaa8p+2]. The count of the gap state is zero here, and the
    same sums come out when it is not: with a twenty-first sequence that is
    a gap, of weight 5. *)
Lemma counts_reduce_over_non_gap_witness :
  calculate_Ni (H := Counts.spec_engine) msa_twenty weights_thirds
    = [0x1.aaaaaaaaaaaa9p+2%float] ∧
  calculate_Nij (H := Counts.spec_engine) msa_twenty weights_thirds
    = [[0x1.aaaaaaaaaaaa9p+2%float]] ∧
  fold_left PrimFloat.add (replicate 20 (1 / 3)%float) 0%float
    = 0x1.aaaaaaaaaaaa8p+2%float ∧
  calculate_Ni (H := Counts.spec_engine) (msa_twenty ++ [[20]]) (weights_thirds ++ [5%float])
    = [0x1.aaaaaaaaaaaa9p+2%float].
Proof.
  destruct (counts_reduce_over_non_gap (H := Counts.spec_engine) msa_twenty weights_thirds 1)
    as [HNi HNij].
  - vm_compute. reflexivity.
  - vm_compute. reflexivity.
  - rewrite HNi, HNij. vm_compute. repeat split.
Defined.

(** C5 at its failing input: any call under Python 3. On [world_four],
    written to a gzip path, the file is opened and closed and the call
    raises TypeError at line 57: no container and so no "q_ij" is written.
    Under Python 2 the same call writes one container. *)
Theorem q_ij_never_written :
  (run Python3 (Path "model.msgpack.gz") 4 0.25%float world_four).1 = Raise TypeError ∧
  log (run Python3 (Path "model.msgpack.gz") 4 0.25%float world_four).2
    = [EvOpen true "model.msgpack.gz" "wb" 8; EvClose 8] ∧
  written (log (run Python3 (Path "model.msgpack.gz") 4 0.25%float world_four).2) = [] ∧
  map (λ hc, (hc.1, length <$> hc.2 !! "q_ij"%string))
      (written (log (run Python2 (Path "model.msgpack.gz") 4 0.25%float world_four).2))
    = [(8, Some 2400)].
Proof. vm_compute. repeat split. Qed.

(** X17 on [world_four]: four columns, six pairs, 2400 values. The
    pair (1, 2) is the fourth pair, and its value for the symbols (1, 2),
    [5.28125 - 1 * 0.25 / 1], sits at position [3 * 400 + 1 * 20 + 2]; the
    pair (0, 3) is the third, with [Nij = 0] and values of minus infinity
    that are clamped to zero. *)
Lemma q_ij_layout_witness :
  ∃ w' evs out q_ij,
    run Python2 (Stream 7) 4 0.25%float world_four = (Ok tt, w') ∧
    log w' = evs ∧
    written evs = [(7, out)] ∧
    out !! "q_ij"%string = Some q_ij ∧
    length q_ij = 2400 ∧
    pairs 4 = [(0, 1); (0, 2); (0, 3); (1, 2); (1, 3); (2, 3)] ∧
    q_ij !! 1222 = Some 5.03125%float ∧
    q_ij !! 800 = Some 0%float.
Proof.
  destruct (q_ij_layout (H := Counts.spec_engine) (Result 4 3) 0 1 2 0.25%float
              msa_four weights_four (ramp4 4 0%float) (const4 4 1%float)
              (Stream 7) world_four)
    as (w' & evs & out & q_ij & Hrun & Hlog & Hout & Hq & Hlen & _ & _ & Hent).
  - repeat split; vm_compute; reflexivity.
  - reflexivity.
  - vm_compute. reflexivity.
  - exists w', evs, out, q_ij. split; [exact Hrun|]. split; [exact Hlog|].
    split; [exact Hout|]. split; [exact Hq|]. split; [exact Hlen|].
    split; [reflexivity|]. split.
    + etransitivity; [exact (Hent 3 1 2 1 2 eq_refl ltac:(lia) ltac:(lia))|].
      vm_compute. reflexivity.
    + etransitivity; [exact (Hent 2 0 3 0 0 eq_refl ltac:(lia) ltac:(lia))|].
      vm_compute. reflexivity.
Defined.

(** C6 on a gzip path with a function that raises: the handle 8 is opened
    through gzip, the exception is passed on, and the handle is closed. *)
Lemma stream_or_file_handles_witness :
  (stream_or_file "wb" failing_fn (Path "model.msgpack.gz") world_plain).1
    = Raise IOError ∧
  log (stream_or_file "wb" failing_fn (Path "model.msgpack.gz") world_plain).2
    = [EvOpen true "model.msgpack.gz" "wb" 8; EvClose 8] ∧
  8 ∉ opened ((stream_or_file "wb" failing_fn (Path "model.msgpack.gz") world_plain).2).
Proof.
  destruct (stream_or_file_handles "wb" failing_fn world_plain) as (Hpath & _ & _).
  destruct (Hpath "model.msgpack.gz"%string eq_refl) as (Hres & Hlog & Hclosed & _).
  split; [exact Hres|]. split; [exact Hlog|]. exact Hclosed.
Defined.

End serializer_runs.

(** * More on the command-line driver *)

Section driver_runs.
Import RunCcmpred DriverSpec DriverExamples.

(** ** Computations of [P]: what a run appends, and how two runs compare *)

Lemma extends_ret {A} (a : A) : extends (mret a : P A).
Proof. intros t. exists []. by rewrite app_nil_r. Qed.

Lemma extends_end {A} (s : status) : extends (λ t, (inr s, t) : (A + status) * list call).
Proof. intros t. exists []. by rewrite app_nil_r. Qed.

Lemma extends_do (e : env) (c : call) : extends (do e c).
Proof. intros t. exists [c]. unfold do. by destruct (raises e c). Qed.

Lemma extends_bind {A B} (m : P A) (f : A → P B) :
  extends m → (∀ a, extends (f a)) → extends (m ≫= f).
Proof.
  intros Hm Hf t. destruct (Hm t) as [k Hk]. unfold mbind, P_bind.
  destruct (m t) as [[a|s] t1]; cbn in Hk; subst t1.
  - destruct (Hf a (t ++ k)) as [k' Hk']. exists (k ++ k'). by rewrite Hk', app_assoc.
  - by exists k.
Qed.

Lemma extends_when (b : bool) (m : P unit) : extends m → extends (when b m).
Proof. intros Hm. destruct b; [done | apply extends_ret]. Qed.

Lemma extends_parse_args (args : options) : extends (parse_args args).
Proof.
  intros t. exists []. rewrite app_nil_r. pose proof (parse_args_cases args t) as H.
  destruct (parse_args args t) as [[a|s] t']; cbn; [by destruct H as (_ & -> & _)|].
  by destruct H as (-> & _).
Qed.

Lemma follows_refl {A} (m : P A) : extends m → follows m m.
Proof.
  intros Hext t. split; [apply Hext|].
  destruct (m t) as [[a|s] t1] eqn:Hm; [done|].
  exists []. by rewrite app_nil_r.
Qed.

Lemma follows_do (e : env) (c : call) : follows (do e c) (do (hush e) c).
Proof.
  intros t. split; [apply extends_do|].
  unfold do. cbn. destruct (raises e c); [|done].
  exists []. by rewrite app_nil_r.
Qed.

Lemma follows_extends {A} (m m' : P A) : follows m m' → extends m'.
Proof. intros H t. apply H. Qed.

Lemma follows_bind {A B} (m m' : P A) (f f' : A → P B) :
  follows m m' → (∀ a, follows (f a) (f' a)) →
  follows (m ≫= f) (m' ≫= f').
Proof.
  intros Hm Hf t. split.
  { apply extends_bind; [by apply (follows_extends m) |].
    intros a. by apply (follows_extends (f a)). }
  destruct (Hm t) as [_ Hmt]. unfold mbind, P_bind.
  destruct (m t) as [[a|s] t1].
  - rewrite Hmt. apply Hf.
  - destruct Hmt as [k Hk]. destruct (m' t) as [[a'|s'] t2]; cbn in Hk; subst t2.
    + destruct (follows_extends _ _ (Hf a') (t1 ++ k)) as [k' Hk']. exists (k ++ k').
      by rewrite Hk', app_assoc.
    + by exists k.
Qed.

Lemma follows_when (b : bool) (m m' : P unit) :
  follows m m' → follows (when b m) (when b m').
Proof. intros Hm. destruct b; [done | apply follows_refl, extends_ret]. Qed.

Lemma agrees_refl {A} (e : env) (m : P A) : extends m → agrees e m m.
Proof. intros Hext t. split; [apply Hext | done]. Qed.

Lemma agrees_do (e : env) (c : call) : agrees e (do e c) (do (hush e) c).
Proof.
  intros t. split; [apply extends_do|]. intros Hcalm. unfold do in *. cbn in *.
  rewrite (Hcalm c); [done|]. apply elem_of_app. right. by apply list_elem_of_singleton.
Qed.

Lemma agrees_extends {A} (e : env) (m m' : P A) : agrees e m m' → extends m'.
Proof. intros H t. apply H. Qed.

Lemma agrees_bind {A B} (e : env) (m m' : P A) (f f' : A → P B) :
  agrees e m m' → (∀ a, agrees e (f a) (f' a)) →
  agrees e (m ≫= f) (m' ≫= f').
Proof.
  intros Hm Hf t. split.
  { apply extends_bind; [by apply (agrees_extends e m) |].
    intros a. by apply (agrees_extends e (f a)). }
  intros Hcalm. destruct (Hm t) as [_ Hmt]. unfold mbind, P_bind in *.
  destruct (m' t) as [[a'|s'] t1] eqn:Hm'; cbn in *.
  - rewrite Hmt.
    + by apply Hf.
    + intros c Hc. apply Hcalm. destruct (agrees_extends _ _ _ (Hf a') t1) as [k ->].
      apply elem_of_app. by left.
  - by rewrite Hmt.
Qed.

Lemma agrees_when (e : env) (b : bool) (m m' : P unit) :
  agrees e m m' → agrees e (when b m) (when b m').
Proof. intros Hm. destruct b; [done | apply agrees_refl, extends_ret]. Qed.

Lemma blames_ret {A} (e : env) (a : A) : blames e (mret a : P A).
Proof. by intros t c. Qed.

Lemma blames_sys_exit {A} (e : env) (z : Z) : blames e (sys_exit z : P A).
Proof. by intros t c. Qed.

Lemma blames_do (e : env) (c : call) : blames e (do e c).
Proof.
  intros t c'. unfold do. destruct (raises e c) eqn:Hc; cbn; [|done].
  intros [= <-]. by rewrite last_snoc.
Qed.

Lemma blames_bind {A B} (e : env) (m : P A) (f : A → P B) :
  blames e m → (∀ a, blames e (f a)) → blames e (m ≫= f).
Proof.
  intros Hm Hf t c. specialize (Hm t c). unfold mbind, P_bind.
  destruct (m t) as [[a|s] t1]; cbn in *; [apply Hf |].
  intros [= ->]. by apply Hm.
Qed.

Lemma blames_when (e : env) (b : bool) (m : P unit) :
  blames e m → blames e (when b m).
Proof. intros Hm. destruct b; [done | apply blames_ret]. Qed.

Lemma blames_parse_args (e : env) (args : options) : blames e (parse_args args).
Proof.
  intros t c Hc. pose proof (parse_args_cases args t) as H.
  destruct (parse_args args t) as [[a|s] t']; cbn in Hc; [done|].
  destruct H as (_ & [msg ->] & _). done.
Qed.

Lemma exits_well_ret {A} (a : A) : exits_well (mret a : P A).
Proof. by intros t z. Qed.

Lemma exits_well_do (e : env) (c : call) : exits_well (do e c).
Proof. intros t z. unfold do. by destruct (raises e c). Qed.

Lemma exits_well_sys_exit {A} (z : Z) : (0 ≤ z)%Z → exits_well (sys_exit z : P A).
Proof. intros Hz t z'. cbn. by intros [= <-]. Qed.

Lemma exits_well_bind {A B} (m : P A) (f : A → P B) :
  exits_well m → (∀ a, exits_well (f a)) → exits_well (m ≫= f).
Proof.
  intros Hm Hf t z. specialize (Hm t). unfold mbind, P_bind.
  destruct (m t) as [[a|s'] t1]; cbn in *; [apply Hf |].
  intros [= ->]. by apply Hm.
Qed.

Lemma exits_well_when (b : bool) (m : P unit) : exits_well m → exits_well (when b m).
Proof. intros Hm. destruct b; [done | apply exits_well_ret]. Qed.

Lemma exits_well_parse_args (args : options) : exits_well (parse_args args).
Proof.
  intros t z Hz. pose proof (parse_args_cases args t) as H.
  destruct (parse_args args t) as [[a|s'] t']; cbn in Hz; [done|].
  destruct H as (_ & [msg ->] & _). done.
Qed.

Lemma extends_sys_exit {A} (z : Z) : extends (sys_exit z : P A).
Proof. intros t. exists []. by rewrite app_nil_r. Qed.

Lemma unless_refl {A} (m : P A) : agrees_unless_traceback m m.
Proof. by intros t _. Qed.

Lemma unless_do (e : env) (c : call) : agrees_unless_traceback (do e c) (do (hush e) c).
Proof.
  intros t Hnt. unfold do in *. cbn in *. destruct (raises e c); [|done].
  by destruct (Hnt c).
Qed.

Lemma unless_bind {A B} (m m' : P A) (f f' : A → P B) :
  agrees_unless_traceback m m' → (∀ a, agrees_unless_traceback (f a) (f' a)) →
  agrees_unless_traceback (m ≫= f) (m' ≫= f').
Proof.
  intros Hm Hf t Hnt. specialize (Hm t). unfold mbind, P_bind in *.
  destruct (m t) as [[a|s] t1] eqn:Hmt; cbn in *.
  - rewrite <- Hm by done. by apply Hf.
  - rewrite <- Hm; [done|]. intros c [= ->]. by apply (Hnt c).
Qed.

Lemma unless_when (b : bool) (m m' : P unit) :
  agrees_unless_traceback m m' → agrees_unless_traceback (when b m) (when b m').
Proof. intros Hm. destruct b; [done | apply unless_refl]. Qed.

(** ** [main_body], walked through once for each comparison *)

Ltac walk_extends :=
  repeat first
    [ apply extends_ret | apply extends_do | apply extends_sys_exit
    | apply extends_parse_args | apply extends_when
    | apply extends_bind; [|intros ?]
    | match goal with |- extends (if ?b then _ else _) => destruct b end ].

Lemma extends_main_body (e : env) (args : options) : extends (main_body e args).
Proof. unfold main_body. walk_extends. Qed.

Ltac walk_follows :=
  repeat first
    [ apply (follows_refl (parse_args _)), extends_parse_args
    | apply follows_do | apply follows_when
    | apply follows_bind; [| intros ?]
    | match goal with |- follows (if ?b then _ else _) _ => destruct b end
    | apply follows_refl; first [apply extends_sys_exit | apply extends_ret] ].

Lemma follows_main_body (e : env) (args : options) :
  follows (main_body e args) (main_body (hush e) args).
Proof. unfold main_body. walk_follows. Qed.

Ltac walk_agrees :=
  repeat first
    [ apply (agrees_refl _ (parse_args _)), extends_parse_args
    | apply agrees_do | apply agrees_when
    | apply agrees_bind; [| intros ?]
    | match goal with |- agrees _ (if ?b then _ else _) _ => destruct b end
    | apply agrees_refl; first [apply extends_sys_exit | apply extends_ret] ].

Lemma agrees_main_body (e : env) (args : options) :
  agrees e (main_body e args) (main_body (hush e) args).
Proof. unfold main_body. walk_agrees. Qed.

Ltac walk_unless :=
  repeat first
    [ apply (unless_refl (parse_args _)) | apply unless_do | apply unless_when
    | apply unless_bind; [| intros ?]
    | match goal with
      | |- agrees_unless_traceback (if ?b then _ else _) _ => destruct b
      end
    | apply unless_refl ].

Lemma unless_main_body (e : env) (args : options) :
  agrees_unless_traceback (main_body e args) (main_body (hush e) args).
Proof. unfold main_body. walk_unless. Qed.

Ltac walk_blames :=
  repeat first
    [ apply blames_ret | apply blames_do | apply blames_sys_exit
    | apply blames_parse_args | apply blames_when
    | apply blames_bind; [|intros ?]
    | match goal with |- blames _ (if ?b then _ else _) => destruct b end ].

Lemma blames_main_body (e : env) (args : options) : blames e (main_body e args).
Proof. unfold main_body. walk_blames. Qed.

Ltac walk_exits :=
  repeat first
    [ apply exits_well_ret | apply exits_well_do | apply exits_well_parse_args
    | apply exits_well_when
    | apply exits_well_bind; [|intros ?]
    | match goal with |- exits_well (if ?b then _ else _) => destruct b end
    | apply exits_well_sys_exit ].

Lemma exits_well_main_body (e : env) (args : options) : exits_well (main_body e args).
Proof.
  unfold main_body. walk_exits; try done.
  all: cbv zeta; destruct (optimize _); [|done].
  all: destruct (Z.ltb_spec (algret_code e) 0); lia.
Qed.

(** ** Runs of [main] against the plan *)

Lemma hush_quiet (e : env) : quiet (hush e).
Proof. by intros c. Qed.

Lemma main_hush_accepted (e : env) (args : options) :
  accepted args →
  main (hush e) args =
    (planned_calls args,
     SysExit (if omes args || mi args then 0
              else if optimize args && (algret_code e <? 0)%Z
                   then - algret_code e else 0)%Z).
Proof. intros Hacc. by rewrite (quiet_accepted_run _ _ (hush_quiet e) Hacc). Qed.

Lemma main_not_accepted (e : env) (args : options) :
  ¬ accepted args → ∃ msg, main e args = ([], UsageError msg).
Proof.
  intros Hna. apply rejected_run.
  destruct (guard_init args) eqn:H1; [by left|].
  destruct (guard_pll args) eqn:H2; [right; by left|].
  destruct (guard_cd args) eqn:H3; [right; by right|].
  destruct Hna. by apply accepted_guards.
Qed.

Lemma accepted_dec (args : options) : accepted args ∨ ¬ accepted args.
Proof.
  destruct (guard_init args) eqn:H1, (guard_pll args) eqn:H2, (guard_cd args) eqn:H3;
    first [ left; by apply accepted_guards
          | right; intros (? & ? & ?)%accepted_guards; congruence ].
Qed.

Lemma main_prefix (e : env) (args : options) :
  (main e args).1 `prefix_of` (main (hush e) args).1.
Proof.
  unfold main. destruct (follows_main_body e args []) as [_ H].
  destruct (main_body e args []) as [[a|s] t1].
  - rewrite H. done.
  - destruct H as [k Hk]. destruct (main_body (hush e) args []) as [[a'|s'] t2];
      cbn in *; subst t2; by exists k.
Qed.

Lemma main_calls_planned (e : env) (args : options) (c : call) :
  c ∈ (main e args).1 → accepted args ∧ c ∈ planned_calls args.
Proof.
  intros Hc. destruct (accepted_dec args) as [Hacc|Hna].
  - split; [done|]. destruct (main_prefix e args) as [k Hk].
    rewrite (main_hush_accepted e args Hacc) in Hk. cbn in Hk. rewrite Hk.
    apply elem_of_app. by left.
  - destruct (main_not_accepted e args Hna) as [msg Hrun]. rewrite Hrun in Hc.
    by apply elem_of_nil in Hc.
Qed.

Lemma main_completed (e : env) (args : options) (z : Z) :
  (main e args).2 = SysExit z → accepted args ∧ main e args = main (hush e) args.
Proof.
  intros Hz. destruct (accepted_dec args) as [Hacc|Hna].
  2:{ destruct (main_not_accepted e args Hna) as [msg Hrun]. by rewrite Hrun in Hz. }
  split; [done|]. unfold main in *. rewrite <- (unless_main_body e args []); [done|].
  intros c Hc. destruct (main_body e args []) as [[a|s] t]; cbn in *; congruence.
Qed.

Lemma ALGORITHMS_lookup (s : string) (a : algorithm_class) :
  ALGORITHMS !! s = Some a ↔
  (s = "conjugate_gradients"%string ∧ a = conjugateGradient) ∨
  (s = "lbfgs"%string ∧ a = LBFGS) ∨
  (s = "gradient_descent"%string ∧ a = gradientDescent) ∨
  (s = "adam"%string ∧ a = Adam) ∨
  (s = "numerical_differentiation"%string ∧ a = numDiff).
Proof.
  unfold ALGORITHMS. rewrite !lookup_insert_Some, lookup_singleton_Some. split.
  - intros [[<- <-]|[? [[<- <-]|[? [[<- <-]|[? [[<- <-]|[? [<- <-]]]]]]]]]; tauto.
  - intros [[-> ->]|[[-> ->]|[[-> ->]|[[-> ->]|[-> ->]]]]].
    + by left.
    + right. split; [done|]. by left.
    + right. split; [done|]. right. split; [done|]. by left.
    + right. split; [done|]. right. split; [done|]. right. split; [done|]. by left.
    + right. split; [done|]. right. split; [done|]. right. split; [done|].
      right. split; [done|]. done.
Qed.

Lemma OBJ_FUNC_lookup (s : string) (o : objfun_class) :
  OBJ_FUNC !! s = Some o ↔
  (s = "pll"%string ∧ o = PseudoLikelihood) ∨ (s = "cd"%string ∧ o = ContrastiveDivergence).
Proof.
  unfold OBJ_FUNC. rewrite lookup_insert_Some, lookup_singleton_Some. split.
  - intros [[<- <-]|[? [<- <-]]]; tauto.
  - intros [[-> ->]|[-> ->]]; [by left | right; by split].
Qed.

Lemma neqb_false (a b : string) : neqb a b = false ↔ a = b.
Proof. unfold neqb. rewrite negb_false_iff. apply String.eqb_eq. Qed.

(** X1. For a namespace whose objective is a key of [OBJ_FUNC],
    [parse_args] returns the namespace exactly when optimization is on or
    initial potentials are given, and the optimizer is a key of [ALGORITHMS]
    whose class suits the objective: conjugate gradients, L-BFGS or numerical
    differentiation for the pseudo-likelihood, gradient descent or Adam for
    contrastive divergence. After [parse_args] neither registry lookup of
    [main] can miss its key. *)
Theorem parse_args_accepts_iff (args : options) (o : objfun_class) :
  OBJ_FUNC !! objfun args = Some o →
  accepted args ↔
    (optimize args = true ∨ truthy (initrawfile args) = true) ∧
    ∃ a, ALGORITHMS !! algorithm args = Some a ∧ optimizes o a = true.
Proof.
  intros Ho%OBJ_FUNC_lookup. rewrite accepted_guards.
  unfold guard_init, guard_pll, guard_cd.
  destruct Ho as [[Ho ->]|[Ho ->]]; rewrite Ho; cbn [String.eqb Ascii.eqb andb Bool.eqb].
  - rewrite !andb_false_iff, !negb_false_iff, !neqb_false. split.
    + intros (Hi & Ha & _). split; [tauto|].
      destruct Ha as [[Ha|Ha]|Ha]; rewrite Ha; eexists; (split; [reflexivity|done]).
    + intros (Hi & a & Ha%ALGORITHMS_lookup & Hsuit). split; [tauto|]. split; [|done].
      destruct Ha as [[-> ->]|[[-> ->]|[[-> ->]|[[-> ->]|[-> ->]]]]]; try done; tauto.
  - rewrite !andb_false_iff, !negb_false_iff, !neqb_false. split.
    + intros (Hi & _ & Ha). split; [tauto|].
      destruct Ha as [Ha|Ha]; rewrite Ha; eexists; (split; [reflexivity|done]).
    + intros (Hi & a & Ha%ALGORITHMS_lookup & Hsuit). split; [tauto|]. split; [done|].
      destruct Ha as [[-> ->]|[[-> ->]|[[-> ->]|[[-> ->]|[-> ->]]]]]; try done; tauto.
Qed.

(** X1 at contrastive divergence with Adam. *)
Lemma parse_args_accepts_iff_witness :
  accepted args_cd_adam ↔
    (optimize args_cd_adam = true ∨ truthy (initrawfile args_cd_adam) = true) ∧
    ∃ a, ALGORITHMS !! algorithm args_cd_adam = Some a ∧
         optimizes ContrastiveDivergence a = true.
Proof. apply (parse_args_accepts_iff args_cd_adam ContrastiveDivergence). reflexivity. Defined.

(** X2. With --do-not-optimize: without initial potentials the run ends in
    the first check of [parse_args], with its usage message and no call made,
    whatever else the command line says; and no run ever sets up or runs an
    optimizer. *)
Theorem do_not_optimize_runs (e : env) (args : options) :
  optimize args = false →
  (truthy (initrawfile args) = false →
   main e args =
     ([], UsageError "--do-not-optimize is only supported when -i (--init-from-raw) is specified!")) ∧
  (∀ c, c ∈ (main e args).1 →
        c ≠ minimize ∧ c ≠ new_Progress ∧ ∀ s, c ≠ new_objfun s ∧ c ≠ new_algorithm s).
Proof.
  intros Hopt. split.
  - intros Hinit. unfold main, main_body, mbind at 1, P_bind at 1.
    unfold parse_args, guard_init. rewrite Hopt, Hinit. reflexivity.
  - intros c [_ Hc]%main_calls_planned. unfold planned_calls in Hc. rewrite Hopt in Hc.
    apply list_elem_of_In in Hc.
    destruct (logo args), (truthy (pdbfile args)), (omes args), (mi args),
      (truthy (matfile args)), (truthy (out_binary_raw_file args));
      cbn in Hc; intuition (subst; discriminate).
Qed.

(** X2 on the two command lines with --do-not-optimize. *)
Lemma do_not_optimize_runs_witness :
  main (calm 0) args_do_not_optimize =
    ([], UsageError "--do-not-optimize is only supported when -i (--init-from-raw) is specified!") ∧
  minimize ∉ (main (calm 0) args_from_raw).1.
Proof.
  split.
  - by apply (do_not_optimize_runs (calm 0) args_do_not_optimize eq_refl).
  - intros Hin.
    by destruct (proj2 (do_not_optimize_runs (calm 0) args_from_raw eq_refl) _ Hin).
Defined.

(** X3. Exceptions only cut a run short: the calls of any run are an
    initial part of the calls of the run in which nothing raises; the run is
    that run, calls and exit status, as soon as none of those calls raises;
    and for an accepted namespace those calls are [planned_calls]. *)
Theorem calls_follow_plan (e : env) (args : options) :
  (main e args).1 `prefix_of` (main (hush e) args).1 ∧
  ((∀ c, c ∈ (main (hush e) args).1 → raises e c = false) →
   main e args = main (hush e) args) ∧
  (accepted args → (main (hush e) args).1 = planned_calls args).
Proof.
  split; [apply main_prefix|]. split.
  - intros Hcalm. unfold main in *.
    rewrite (proj2 (agrees_main_body e args [])); [done|].
    intros c Hc. apply Hcalm.
    by destruct (main_body (hush e) args []) as [[a|s] t].
  - intros Hacc. by rewrite (main_hush_accepted e args Hacc).
Qed.

(** X4. When a run ends in a traceback, the namespace had been accepted,
    and the call that raised is the last call made. *)
Theorem traceback_names_last_call (e : env) (args : options) (c : call) :
  (main e args).2 = Traceback c →
  accepted args ∧ raises e c = true ∧ last (main e args).1 = Some c.
Proof.
  intros Htb. split.
  - destruct (accepted_dec args) as [Hacc|Hna]; [done|].
    destruct (main_not_accepted e args Hna) as [msg Hrun]. by rewrite Hrun in Htb.
  - unfold main in *. pose proof (blames_main_body e args [] c) as H.
    destruct (main_body e args []) as [[a|s] t]; cbn in *; [done|]. apply H. by f_equal.
Qed.

(** X4 when reading the alignment fails. *)
Lemma traceback_names_last_call_witness :
  accepted args_omes ∧ raises unreadable read_alignment = true ∧
  last (main unreadable args_omes).1 = Some read_alignment.
Proof. by apply (traceback_names_last_call unreadable args_omes read_alignment). Defined.

Lemma precedes_prefix (a b : call) (l l' : list call) :
  l `prefix_of` l' → precedes a b l' → precedes a b l.
Proof.
  intros [k ->] Hp l1 l2 ->. apply (Hp l1 (l2 ++ k)). by rewrite <- app_assoc.
Qed.

Lemma precedesb_sound (a b : call) (l : list call) (seen : bool) :
  precedesb a b seen l = true →
  ∀ l1 l2, l = l1 ++ b :: l2 → seen = true ∨ a ∈ l1.
Proof.
  revert seen. induction l as [|c l IH]; intros seen Hb l1 l2 Hl.
  - by destruct l1.
  - cbn in Hb. apply andb_true_iff in Hb as [Hhead Htail].
    destruct l1 as [|c1 l1]; cbn in Hl; injection Hl as -> ->.
    + rewrite bool_decide_eq_true_2 in Hhead by done. by left.
    + destruct (IH _ Htail l1 l2 eq_refl) as [Hs|Hin].
      * apply orb_true_iff in Hs as [Hs|Hs]; [by left|].
        right. apply bool_decide_eq_true in Hs as ->. by left.
      * right. by right.
Qed.

Lemma precedesb_precedes (a b : call) (l : list call) :
  precedesb a b false l = true → precedes a b l.
Proof.
  intros Hb l1 l2 Hl. by destruct (precedesb_sound a b l false Hb l1 l2 Hl).
Qed.

Lemma NoDup_tags (l : list call) : NoDup (map call_tag l) → NoDup l.
Proof. apply (NoDup_fmap_1 call_tag). Qed.

Lemma NoDup_prefix (l l' : list call) : l `prefix_of` l' → NoDup l' → NoDup l.
Proof. intros [k ->] Hnd. by apply NoDup_app in Hnd as (? & _). Qed.

Lemma precedes_nil (a b : call) : precedes a b [].
Proof. intros l1 l2 Hl. by destruct l1. Qed.

Lemma in_stage_order_prefix (l l' : list call) :
  l `prefix_of` l' → in_stage_order l' → in_stage_order l.
Proof.
  intros Hpre (Hnd & H1 & H2 & H3 & H4 & H5 & H6 & H7 & H8 & H9 & H10 & H11 & H12).
  repeat split; first [ by apply (NoDup_prefix l l') | by apply (precedes_prefix _ _ l l') ].
Qed.

Lemma planned_calls_in_order (args : options) : in_stage_order (planned_calls args).
Proof.
  unfold planned_calls, in_stage_order.
  destruct (logo args), (truthy (pdbfile args)), (omes args), (mi args),
    (optimize args), (truthy (matfile args)), (truthy (out_binary_raw_file args));
    cbn [app];
    (split; [apply NoDup_tags, (bool_decide_unpack _); vm_compute; exact I|]);
    repeat split; apply precedesb_precedes; vm_compute; reflexivity.
Qed.

(** X5. In every run, whatever raises, no call is made twice and the
    stages keep their order: the alignment is read before the weights are
    computed, the weights before the frequencies, the frequencies before any
    score, the PDB file or the regularization, the regularization before the
    potentials are initialised, and the potentials before the optimizer runs,
    the contact matrix is computed or the raw potentials are written. *)
Theorem stages_in_order (e : env) (args : options) :
  in_stage_order (main e args).1.
Proof.
  destruct (accepted_dec args) as [Hacc|Hna].
  - apply (in_stage_order_prefix _ (planned_calls args)); [|apply planned_calls_in_order].
    pose proof (main_prefix e args) as Hp.
    by rewrite (main_hush_accepted e args Hacc) in Hp.
  - destruct (main_not_accepted e args Hna) as [msg ->]. cbn.
    repeat split; first [apply NoDup_nil_2 | apply precedes_nil].
Qed.

(** X6. Nothing is written unless asked for: a score matrix only with a
    matrix file or an alternative score, the contact matrix only with a
    matrix file, the raw potentials only with a raw output file, and the PDB
    file is read only when one is named. In a run that reaches its
    [sys.exit] without an alternative score, the matrix and the raw
    potentials are written whenever their files are named. *)
Theorem outputs_on_request (e : env) (args : options) :
  (write_matrix ∈ (main e args).1 →
     truthy (matfile args) = true ∨ omes args = true ∨ mi args = true) ∧
  (compute_contact_matrix ∈ (main e args).1 → truthy (matfile args) = true) ∧
  (write_binary_raw ∈ (main e args).1 → truthy (out_binary_raw_file args) = true) ∧
  (read_pdb ∈ (main e args).1 → truthy (pdbfile args) = true) ∧
  (∀ z, (main e args).2 = SysExit z → omes args = false → mi args = false →
     (truthy (matfile args) = true → write_matrix ∈ (main e args).1) ∧
     (truthy (out_binary_raw_file args) = true → write_binary_raw ∈ (main e args).1)).
Proof.
  assert (Hplanned : ∀ c, c ∈ (main e args).1 → In c (planned_calls args)).
  { intros c [_ Hc]%main_calls_planned. by apply list_elem_of_In. }
  split; [|split; [|split; [|split]]].
  1-4: intros Hc%Hplanned; unfold planned_calls in Hc;
       destruct (logo args), (truthy (pdbfile args)), (omes args), (mi args),
         (optimize args), (truthy (matfile args)), (truthy (out_binary_raw_file args));
       cbn in Hc; intuition (try discriminate).
  intros z Hz Ho Hi. destruct (main_completed e args z Hz) as [Hacc ->].
  rewrite (main_hush_accepted e args Hacc). cbn [fst].
  unfold planned_calls. rewrite Ho, Hi.
  split; intros Hm; rewrite Hm; apply list_elem_of_In;
    destruct (logo args), (truthy (pdbfile args)), (optimize args);
    try destruct (truthy (matfile args));
    try destruct (truthy (out_binary_raw_file args)); cbn; tauto.
Qed.

(** X7. [main] never hands a negative number to [sys.exit], and it hands
    over a number other than 0 only after the optimizer was run and reported
    a negative code, of which the number is the negation. The exit code of
    the process is between 0 and 255 in every run; when the run ends in
    [sys.exit], it is the low 8 bits of the argument (for an argument that
    fits a C long), so that a failure code that is a multiple of 256 ends the
    process with exit code 0. *)
Theorem exit_status (e : env) (args : options) :
  (0 ≤ exit_code (main e args).2 < 256)%Z ∧
  (∀ z, (main e args).2 = SysExit z →
     (0 ≤ z)%Z ∧
     (z ≠ 0%Z →
        minimize ∈ (main e args).1 ∧ (algret_code e < 0)%Z ∧ z = (- algret_code e)%Z) ∧
     ((z < 2 ^ 63)%Z → exit_code (main e args).2 = (z mod 256)%Z)).
Proof.
  split; [apply exit_code_byte|].
  intros z Hz.
  assert (Hpos : (0 ≤ z)%Z).
  { unfold main in Hz. pose proof (exits_well_main_body e args [] z) as H.
    destruct (main_body e args []) as [[a|s] t]; cbn in *.
    - injection Hz as <-. lia.
    - apply H. by f_equal. }
  split; [done|]. split.
  2:{ intros Hfit. rewrite Hz. apply exit_code_fits. lia. }
  - intros Hnz. destruct (main_completed e args z Hz) as [Hacc Hrun].
    rewrite Hrun in *. rewrite (main_hush_accepted e args Hacc) in *. cbn [fst snd] in *.
    injection Hz as Hz. unfold planned_calls.
    destruct (omes args), (mi args); cbn [orb] in Hz; try (by subst z).
    destruct (optimize args); cbn [andb] in Hz; [|by subst z].
    destruct (Z.ltb_spec (algret_code e) 0); [|by subst z].
    split; [|by split].
    apply list_elem_of_In.
    destruct (logo args), (truthy (pdbfile args)), (truthy (matfile args)),
      (truthy (out_binary_raw_file args)); cbn; tauto.
Qed.

End driver_runs.

(** * More on the serializer: layout, edge cases, all or nothing *)

Section container.
Import Numpy ModelProbabilities SerializerSpec SerializerExamples ContainerSpec.

Lemma triangle_S (k : nat) : triangle (S k) = triangle k + k.
Proof.
  unfold triangle. destruct k as [|k]; [reflexivity|].
  replace (S (S k) - 1) with (S k) by lia. replace (S k - 1) with k by lia.
  replace (S (S k) * S k) with (S k * k + S k * 2) by nia.
  by rewrite Nat.div_add.
Qed.

(** The element at offset [k] of the [i]-th chunk of a [flat_map] over
    [0, 1, ..., n - 1]. *)
Lemma flat_map_seq_lookup {A} (g : nat → list A) (n i k : nat) :
  i < n → k < length (g i) →
  flat_map g (seq 0 n) !! (length (flat_map g (seq 0 i)) + k) = g i !! k.
Proof.
  intros Hi Hk.
  replace n with (i + S (n - S i)) by lia.
  rewrite seq_app, flat_map_app. cbn [seq flat_map].
  rewrite lookup_app_r by lia.
  replace (length (flat_map g (seq 0 i)) + k - length (flat_map g (seq 0 i))) with k by lia.
  by rewrite lookup_app_l.
Qed.

Lemma lower_rows_prefix (i : nat) :
  length (flat_map (λ i, map (pair i) (seq 0 i)) (seq 0 i)) = triangle i.
Proof.
  induction i as [|i IH]; [reflexivity|].
  rewrite seq_S, flat_map_app, length_app, IH, triangle_S. cbn.
  rewrite app_nil_r, length_map, length_seq. done.
Qed.

Lemma lower_rows_ascending_lookup (n i j : nat) :
  j < i < n → lower_rows_ascending n !! n_ij_position i j = Some (i, j).
Proof.
  intros Hij. unfold lower_rows_ascending, n_ij_position.
  rewrite <- lower_rows_prefix.
  rewrite flat_map_seq_lookup; [|lia|rewrite length_map, length_seq; lia].
  rewrite list_lookup_fmap, lookup_seq_lt by lia. done.
Qed.

Lemma pairs_prefix (L i : nat) :
  i < L →
  length (flat_map (λ i, map (pair i) (range (i + 1) L)) (seq 0 i))
  = i * (2 * L - i - 1) / 2.
Proof.
  induction i as [|i IH]; [reflexivity|]. intros Hi.
  rewrite seq_S, flat_map_app, length_app, IH by lia. cbn [flat_map].
  rewrite app_nil_r, length_map, Nat.add_0_l. unfold range. rewrite length_seq.
  replace (S i * (2 * L - S i - 1)) with (i * (2 * L - i - 1) + (L - (i + 1)) * 2) by nia.
  by rewrite Nat.div_add.
Qed.

Lemma pairs_lookup (L i j : nat) :
  i < j < L → pairs L !! q_ij_block L i j = Some (i, j).
Proof.
  intros Hij. unfold pairs, q_ij_block, range at 2.
  rewrite Nat.sub_0_r.
  rewrite <- pairs_prefix by lia.
  rewrite flat_map_seq_lookup; [|lia|unfold range; rewrite length_map, length_seq; lia].
  unfold range. rewrite list_lookup_fmap, lookup_seq_lt by lia. cbn.
  do 2 f_equal. lia.
Qed.


Lemma take_along_raises (m : matrix) (idx : list (nat * nat)) (i j : nat) :
  (i, j) ∈ idx → m !! i = None → take_along m idx = Raise IndexError.
Proof.
  intros Hin Hi. induction idx as [|[i0 j0] idx IH]; [by apply elem_of_nil in Hin|].
  cbn [take_along]. unfold getitem2, getitem.
  destruct (m !! i0) as [r|] eqn:Hr; [|done]. cbn.
  destruct (r !! j0) as [x|]; [|done]. cbn.
  apply elem_of_cons in Hin as [[= -> ->]|Hin]; [congruence|].
  by rewrite IH.
Qed.

Lemma length_calculate_Nij `{CountsEngine} (msa_v : alignment) (weights_v : vector) :
  length (calculate_Nij msa_v weights_v) = length (pair_counts msa_v weights_v).
Proof.
  unfold calculate_Nij, sum_axis2, sum_axis3, slice4_20_20. by rewrite !length_map.
Qed.

Section call.
Context `{CountsEngine}.
Variable res : result.
Variables msa weights pair_freq : loc.
Variable lambda_pair : float.
Variable msa_v : alignment.
Variable weights_v : vector.

(** X8. Where a value sits in the container that Python 2 writes. Under
    Python 2, on well-formed arguments
    with a writable target and no NaN model probability, [write_msgpack]
    returns having written one container in which the count [Nij[i, j]] of a
    cell below the diagonal, [j < i < L], is at position [i (i - 1) / 2 + j]
    of "N_ij", and the clamped model probability of the pair [i < j < L] for
    the symbols [(a, b)] is at position
    [(i (2 L - i - 1) / 2 + (j - i - 1)) * 400 + a * 20 + b] of "q_ij". *)
Theorem container_positions (pf xp : tensor4) (f : file_arg) (w : world) :
  well_formed_call res msa weights pair_freq (heap w) msa_v weights_v pf xp →
  can_write f w = true →
  existsb PrimFloat.is_nan
    (concat (q_rows pf xp lambda_pair (calculate_Nij msa_v weights_v) (ncol res))) = false →
  ∃ w' evs n_ij q_ij,
    write_msgpack Python2 f res msa weights pair_freq lambda_pair w = (Ok tt, w') ∧
    log w' = log w ++ evs ∧
    written evs = [(target_handle f w, container n_ij q_ij)] ∧
    (∀ i j, j < i < ncol res →
       n_ij !! n_ij_position i j = Some (at2 (calculate_Nij msa_v weights_v) i j)) ∧
    (∀ i j a b, i < j < ncol res → a < 20 → b < 20 →
       q_ij !! q_ij_position (ncol res) i j a b =
         Some (clamp (q_entry pf xp lambda_pair (calculate_Nij msa_v weights_v) i j a b))).
Proof.
  intros Hwf Hcw Hnan.
  destruct (write_msgpack_ok res msa weights pair_freq lambda_pair msa_v weights_v pf xp
              f w Hwf Hcw Hnan) as (w' & evs & Hrun & Hlog & Hout & _).
  eexists w', evs, _, _. split; [done|]. split; [done|]. split; [exact Hout|].
  set (Nij := calculate_Nij msa_v weights_v). split.
  - intros i j Hij. by rewrite list_lookup_fmap, lower_rows_ascending_lookup.
  - intros i j a b Hij Ha Hb. unfold q_ij_position.
    rewrite list_lookup_fmap.
    rewrite (lookup_concat_uniform _ 400 _ _ (q_block pf xp lambda_pair Nij i j)); [| | |lia].
    + unfold q_block. by rewrite lookup_grid.
    + apply Forall_forall. intros r Hr%list_elem_of_In.
      apply in_map_iff in Hr as (ij & <- & _). apply q_block_length.
    + unfold q_rows. by rewrite list_lookup_fmap, pairs_lookup.
Qed.

(** X9. With [res.ncol] equal to 0 or 1 there is no pair of columns: the
    index arrays and both loops are empty, so neither [pair_freq] nor
    [res.x_pair] is read, whatever they refer to. Once the alignment and the
    weights are there and the target can be written, the outcome depends on
    the interpreter alone: under Python 2 the call returns, prints nothing
    and writes the container with two empty sequences; under Python 3 the
    number of rows [0 / 2] is the float [0.0], and the call raises TypeError
    at line 57, leaving behind nothing but the file it opened and closed. *)
Theorem at_most_one_column (f : file_arg) (w : world) :
  ncol res ≤ 1 →
  heap w !! msa = Some (NdU8 msa_v) →
  heap w !! weights = Some (Nd1 weights_v) →
  can_write f w = true →
  (∃ w' evs,
     write_msgpack Python2 f res msa weights pair_freq lambda_pair w = (Ok tt, w') ∧
     log w' = log w ++ evs ∧
     written evs = [(target_handle f w, container [] [])] ∧
     printed evs = []) ∧
  write_msgpack Python3 f res msa weights pair_freq lambda_pair w =
    (Raise TypeError, left_behind f (target_handle f w) (entered f "wb" w)).
Proof.
  intros Hcol Hmsa Hw Hcw.
  assert (Hidx : tril_indices (ncol res) = []).
  { destruct (ncol res) as [|[|L]]; [reflexivity..|lia]. }
  assert (Hrows : ncol res * (ncol res - 1) / 2 = 0).
  { destruct (ncol res) as [|[|L]]; [reflexivity..|lia]. }
  assert (Hrange : range 0 (ncol res - 1) = []).
  { destruct (ncol res) as [|[|L]]; [reflexivity..|lia]. }
  unfold write_msgpack. rewrite !stream_or_file_run by (by apply can_write_can_open).
  split.
  - assert (Hfn : ∀ w1, heap w1 = heap w →
              write_msgpack_fn Python2 (target_handle f w) res msa weights pair_freq
                lambda_pair w1 =
              clamp_and_write (target_handle f w) {[ "N_ij"%string := [] ]}
                (fresh (dom (heap w)))
                (set_heap (<[fresh (dom (heap w)) := Nd2 []]> (heap w)) w1)).
    { intros w1 Hheap. unfold write_msgpack_fn, fill_model_prob, div, zeros.
      erewrite bind_ok; [|apply load_msa_ok; by rewrite Hheap].
      erewrite bind_ok; [|apply load1_ok; by rewrite Hheap].
      rewrite Hidx, Hrows, Hrange. cbn [take_along].
      erewrite bind_ok; [|reflexivity].
      erewrite bind_ok; [|reflexivity].
      erewrite bind_ok; [|reflexivity].
      rewrite Hheap. cbn [for_each]. erewrite bind_ok; [|reflexivity]. done. }
    rewrite Hfn by apply heap_entered.
    set (mp := fresh (dom (heap w))). set (wA := set_heap _ _).
    destruct (clamp_and_write_ok (target_handle f w) {[ "N_ij"%string := [] ]} mp [] wA)
      as (w' & Hrun & Hlog & _); [by apply lookup_insert_eq | done | |].
    { subst wA. cbn. by apply can_write_opened. }
    rewrite Hrun. cbn [fst snd]. subst wA. cbn in Hlog.
    destruct f as [p|fh]; cbn [left_behind entered target_handle log] in *.
    + eexists _, _. split; [reflexivity|]. cbn [log]. rewrite Hlog, <- !app_assoc.
      split; [reflexivity|]. done.
    + eexists _, _. split; [reflexivity|]. split; [exact Hlog|]. done.
  - assert (Hfn : ∀ w1, heap w1 = heap w →
              write_msgpack_fn Python3 (target_handle f w) res msa weights pair_freq
                lambda_pair w1 = (Raise TypeError, w1)).
    { intros w1 Hheap. unfold write_msgpack_fn.
      erewrite bind_ok; [|apply load_msa_ok; by rewrite Hheap].
      erewrite bind_ok; [|apply load1_ok; by rewrite Hheap].
      rewrite Hidx. cbn [take_along].
      erewrite bind_ok; [|reflexivity].
      by erewrite bind_raise. }
    by rewrite Hfn by apply heap_entered.
Qed.

(** X10. When [res.ncol] is at least 2 and larger than the number of
    columns the pair counts have, line 54 indexes [Nij] out of bounds: the
    call raises IndexError before it allocates, prints or writes anything,
    under either interpreter.
    What a call on a path leaves behind is the file it opened and closed. *)
Theorem short_counts_raise (py : python) (f : file_arg) (w : world) :
  2 ≤ ncol res →
  length (pair_counts msa_v weights_v) < ncol res →
  heap w !! msa = Some (NdU8 msa_v) →
  heap w !! weights = Some (Nd1 weights_v) →
  can_open f w = true →
  write_msgpack py f res msa weights pair_freq lambda_pair w =
    (Raise IndexError, left_behind f (target_handle f w) (entered f "wb" w)).
Proof.
  intros Hcol Hlen Hmsa Hw Hopen. unfold write_msgpack.
  rewrite stream_or_file_run by done.
  assert (Hfn : ∀ w1, heap w1 = heap w →
            write_msgpack_fn py (target_handle f w) res msa weights pair_freq lambda_pair w1 =
            (Raise IndexError, w1)).
  { intros w1 Hheap. unfold write_msgpack_fn.
    erewrite bind_ok; [|apply load_msa_ok; by rewrite Hheap].
    erewrite bind_ok; [|apply load1_ok; by rewrite Hheap].
    rewrite (take_along_raises _ _ (ncol res - 1) 0); [done| |].
    - rewrite tril_indices_rows. eapply list_elem_of_lookup_2.
      apply lower_rows_ascending_lookup. lia.
    - apply lookup_ge_None. rewrite length_calculate_Nij. lia. }
  by rewrite Hfn by apply heap_entered.
Qed.

End call.

(** X11. "N_ij" and the blocks of "q_ij" enumerate the column pairs in
    different orders: [np.tril_indices] goes through the cells below the
    diagonal row by row (the pairs [{j, i}] by their larger column), the
    loop nest goes through the pairs [(i, j)] by their smaller column. The
    k-th count of "N_ij" belongs to the pair of the k-th block of "q_ij" for
    every k exactly when there are at most 3 columns. *)
Theorem n_ij_order_is_not_q_ij_order (L : nat) :
  map (λ ij, (ij.2, ij.1)) (tril_indices L) = pairs L ↔ L ≤ 3.
Proof.
  split.
  - intros Heq. destruct (decide (L ≤ 3)) as [|Hbig]; [done|]. exfalso.
    apply (f_equal (λ l, l !! 2)) in Heq. cbn beta in Heq.
    rewrite tril_indices_rows, list_lookup_fmap in Heq.
    pose proof (lower_rows_ascending_lookup L 2 1 ltac:(lia)) as Hn.
    pose proof (pairs_lookup L 0 3 ltac:(lia)) as Hq.
    change (n_ij_position 2 1) with 2 in Hn. change (q_ij_block L 0 3) with 2 in Hq.
    rewrite Hn, Hq in Heq. discriminate Heq.
  - intros HL. destruct L as [|[|[|[|L]]]]; [reflexivity..|lia].
Qed.

(** ** Hoare triples for the loop nest *)

Lemma hoare_bind {A B} (P : world → Prop) (m : M A) (Q : A → world → Prop)
    (f : A → M B) (R : B → world → Prop) (E : world → Prop) :
  hoare P m Q E → (∀ a, hoare (Q a) (f a) R E) → hoare P (m ≫= f) R E.
Proof.
  intros Hm Hf w HP. specialize (Hm w HP). unfold mbind, M_bind.
  destruct (m w) as [[a|e] w1]; [by apply Hf | done].
Qed.

(** A step that leaves the world as it is, with what it returned kept as a
    fact, or forgotten. *)
Lemma hoare_still {A} (P E : world → Prop) (m : M A) :
  (∀ w, (m w).2 = w) → (∀ w, P w → E w) →
  hoare P m (λ a w, P w ∧ (m w).1 = Ok a) E.
Proof.
  intros Hm HE w HP. specialize (Hm w).
  destruct (m w) as [[a|e] w1] eqn:Hmw; cbn in Hm; subst w1.
  - by rewrite Hmw.
  - by apply HE.
Qed.

Lemma hoare_forget {A} (P E : world → Prop) (m : M A) :
  (∀ w, (m w).2 = w) → (∀ w, P w → E w) → hoare P m (λ _, P) E.
Proof.
  intros Hm HE w HP. specialize (Hm w).
  destruct (m w) as [[a|e] w1]; cbn in Hm; subst w1; [done | by apply HE].
Qed.

Lemma hoare_for_each {A S} (Inv E : world → Prop) (xs : list A) (body : S → A → M S) (s : S) :
  (∀ s x, hoare Inv (body s x) (λ _, Inv) E) →
  hoare Inv (for_each xs body s) (λ _, Inv) E.
Proof.
  intros Hbody. revert s. induction xs as [|x xs IH]; intros s; [by intros w HI|].
  cbn [for_each]. eapply hoare_bind; [apply Hbody|]. intros s'. apply IH.
Qed.

Lemma lift_still {A} (o : outcome A) (w : world) : (lift o w).2 = w.
Proof. done. Qed.

Lemma load_msa_still (l : loc) (w : world) : (load_msa l w).2 = w.
Proof. unfold load_msa, mbind, M_bind, load. by destruct (heap w !! l) as [[]|]. Qed.

Lemma load1_still (l : loc) (w : world) : (load1 l w).2 = w.
Proof. unfold load1, mbind, M_bind, load. by destruct (heap w !! l) as [[]|]. Qed.

Lemma load2_still (l : loc) (w : world) : (load2 l w).2 = w.
Proof. unfold load2, mbind, M_bind, load. by destruct (heap w !! l) as [[]|]. Qed.

Lemma load4_still (l : loc) (w : world) : (load4 l w).2 = w.
Proof. unfold load4, mbind, M_bind, load. by destruct (heap w !! l) as [[]|]. Qed.

Lemma load2_inv (l : loc) (w : world) (m : matrix) :
  (load2 l w).1 = Ok m → heap w !! l = Some (Nd2 m).
Proof.
  unfold load2, mbind, M_bind, load.
  destruct (heap w !! l) as [[]|]; cbn; congruence.
Qed.

(** Assigning a row keeps the shape of the array. *)
Lemma setitem_row_shape (m m' : matrix) (index : nat) (v : vector) (k : nat) :
  setitem_row m index v = Ok m' → Forall (λ r, length r = k) m →
  length m' = length m ∧ Forall (λ r, length r = k) m'.
Proof.
  unfold setitem_row, getitem. intros Hset Hall.
  destruct (m !! index) as [old|] eqn:Hold; [|done]. cbn in Hset.
  pose proof (Forall_lookup_1 _ _ _ _ Hall Hold) as Hk. cbn in Hk.
  destruct (length v =? length old) eqn:Hlen.
  - injection Hset as <-. apply Nat.eqb_eq in Hlen.
    split; [apply length_insert|]. apply Forall_insert; [done | lia].
  - destruct v as [|x [|]]; try done. injection Hset as <-.
    split; [apply length_insert|]. apply Forall_insert; [done|].
    by rewrite length_replicate.
Qed.

Section fill.
Variable res : result.
Variable pair_freq : loc.
Variable lambda_pair : float.
Variable Nij : matrix.
Variable mp : loc.
Variable n : nat.
Variable w0 : world.

Lemma hoare_fill_row (i index j : nat) :
  hoare (filling mp n w0) (fill_row res pair_freq lambda_pair Nij mp i index j)
        (λ _, filling mp n w0) (filling mp n w0).
Proof.
  unfold fill_row.
  do 6 (eapply hoare_bind;
        [apply hoare_forget; [first [apply load4_still | apply lift_still] | done]
        | intros ?]).
  eapply hoare_bind; [apply hoare_still; [apply load2_still | done]|]. intros m.
  eapply hoare_bind; [apply hoare_still; [apply lift_still | by intros w [? _]]|].
  intros m' w [[(Hshape & Hlog & Hopen) Hm%load2_inv] Hm']. cbn in Hm'.
  destruct Hshape as (m0 & Hm0 & Hlen & Hall).
  assert (m0 = m) as -> by congruence.
  destruct (setitem_row_shape _ _ _ _ 400 Hm' Hall) as [Hlen' Hall'].
  cbn. split; [|done]. exists m'. cbn. rewrite lookup_insert_eq.
  split; [done|]. split; [lia | done].
Qed.

Lemma hoare_fill_model_prob :
  hoare (filling mp n w0) (fill_model_prob res pair_freq lambda_pair Nij mp)
        (λ _, filling mp n w0) (filling mp n w0).
Proof.
  unfold fill_model_prob. apply hoare_for_each. intros index i.
  apply hoare_for_each. intros index' j. apply hoare_fill_row.
Qed.

End fill.

(** Lines 72-90 when the target is not open: the write raises. *)
Lemma clamp_and_write_closed (fh : handle) (out : gmap string vector) (mp : loc)
    (rows : matrix) (w : world) :
  heap w !! mp = Some (Nd2 rows) →
  existsb PrimFloat.is_nan (concat rows) = false →
  fh ∉ opened w →
  (clamp_and_write fh out mp w).1 = Raise ValueError ∧
  written (log (clamp_and_write fh out mp w).2) = written (log w).
Proof.
  intros Hmp Hnan Hfh. unfold clamp_and_write.
  erewrite bind_ok; [|by apply load2_ok].
  erewrite bind_ok; [|reflexivity].
  erewrite bind_ok; [|apply load1_ok; cbn; by rewrite lookup_insert_eq].
  destruct (existsb is_negative (concat rows)) eqn:Hneg.
  - erewrite bind_ok.
    2:{ erewrite bind_ok; [|reflexivity]. rewrite setitem_mask_negative.
        erewrite bind_ok; reflexivity. }
    erewrite bind_ok; [|apply load1_ok; cbn; by rewrite lookup_insert_eq].
    rewrite existsb_nan_clamp by done.
    erewrite bind_ok; [|reflexivity].
    erewrite bind_ok; [|apply load1_ok; cbn; by rewrite lookup_insert_eq].
    unfold write. cbn. rewrite decide_False by done. cbn. split; [done|].
    unfold written. by rewrite omap_app, app_nil_r.
  - erewrite bind_ok; [|reflexivity].
    erewrite bind_ok; [|apply load1_ok; cbn; by rewrite lookup_insert_eq].
    rewrite Hnan.
    erewrite bind_ok; [|reflexivity].
    erewrite bind_ok; [|apply load1_ok; cbn; by rewrite lookup_insert_eq].
    unfold write. cbn. by rewrite decide_False by done.
Qed.

Lemma written_app (evs evs' : list event) :
  written (evs ++ evs') = written evs ++ written evs'.
Proof. apply omap_app. Qed.

Lemma unwritten_since (w w' : world) (evs : list event) :
  log w' = log w ++ evs → written (log w') = written (log w) → written evs = [].
Proof.
  intros -> Hw. rewrite written_app in Hw.
  apply (app_inv_head (written (log w))). by rewrite app_nil_r.
Qed.

(** Lines 72-90 on an array [model_prob] of any content. *)
Lemma clamp_and_write_outcome (fh : handle) (out : gmap string vector) (mp : loc)
    (rows : matrix) (w : world) :
  heap w !! mp = Some (Nd2 rows) →
  ∃ evs, log (clamp_and_write fh out mp w).2 = log w ++ evs ∧
    match (clamp_and_write fh out mp w).1 with
    | Ok _ => written evs = [(fh, <["q_ij"%string := map clamp (concat rows)]> out)] ∧
              existsb PrimFloat.is_nan (map clamp (concat rows)) = false
    | Raise _ => written evs = []
    end.
Proof.
  intros Hmp.
  destruct (keeps_clamp_and_write fh w out mp w (frame_refl _ _)) as [[_ (evs & Hlog & _)] _].
  exists evs. split; [done|].
  destruct (existsb PrimFloat.is_nan (map clamp (concat rows))) eqn:Hnan.
  - destruct (clamp_and_write_nan fh out mp rows w Hmp Hnan) as [-> Hw].
    exact (unwritten_since w _ evs Hlog Hw).
  - assert (Hraw : existsb PrimFloat.is_nan (concat rows) = false).
    { apply not_true_iff_false. intros Hr%existsb_nan_clamp_true. congruence. }
    destruct (decide (fh ∈ opened w)) as [Hfh|Hfh].
    + destruct (clamp_and_write_ok fh out mp rows w Hmp Hraw Hfh)
        as (w' & Hrun & Hlog' & _).
      rewrite Hrun in *. cbn [fst snd] in *. split; [|done].
      rewrite Hlog' in Hlog. apply app_inv_head in Hlog as <-.
      unfold written. by destruct (existsb is_negative (concat rows)).
    + destruct (clamp_and_write_closed fh out mp rows w Hmp Hraw Hfh) as [-> Hw].
      exact (unwritten_since w _ evs Hlog Hw).
Qed.

Lemma take_along_length (m : matrix) (idx : list (nat * nat)) (v : vector) :
  take_along m idx = Ok v → length v = length idx.
Proof.
  revert v. induction idx as [|[i j] idx IH]; intros v; cbn [take_along].
  - by intros [= <-].
  - destruct (getitem2 m i j) as [x|e]; [|done]. cbn.
    destruct (take_along m idx) as [xs|e]; [|done]. cbn.
    intros [= <-]. cbn. by rewrite (IH xs).
Qed.

Lemma length_zeros2 (n k : nat) :
  length (zeros2 n k) = n ∧ Forall (λ r, length r = k) (zeros2 n k).
Proof.
  unfold zeros2. split; [apply length_replicate|].
  apply Forall_replicate, length_replicate.
Qed.

(** What a container that gets written always satisfies: it is written
    under Python 2, its "N_ij" is the value of line 54, and its sequences
    have the lengths of the layout, with no negative and no NaN value under
    "q_ij". *)
Lemma write_msgpack_fn_outcome `{CountsEngine} (py : python) (fh : handle) (res : result)
    (msa weights pair_freq : loc) (lambda_pair : float) (w : world) :
  all_or_nothing fh
    (λ n_ij q_ij,
       py = Python2 ∧
       (∀ msa_v weights_v,
          heap w !! msa = Some (NdU8 msa_v) → heap w !! weights = Some (Nd1 weights_v) →
          take_along (calculate_Nij msa_v weights_v) (tril_indices (ncol res)) = Ok n_ij) ∧
       length n_ij = ncol res * (ncol res - 1) / 2 ∧
       length q_ij = 400 * (ncol res * (ncol res - 1) / 2) ∧
       Forall (λ q, is_negative q = false ∧ PrimFloat.is_nan q = false) q_ij)
    w (write_msgpack_fn py fh res msa weights pair_freq lambda_pair w).
Proof.
  set (good := λ n_ij q_ij : vector, _).
  assert (Hnone : ∀ e, all_or_nothing fh good w (@Raise unit e, w)).
  { intros e. exists []. by rewrite app_nil_r. }
  unfold write_msgpack_fn.
  pose proof (load_msa_still msa w) as Hs1.
  destruct (load_msa msa w) as [[msa_v|e] w1] eqn:Hmsa; cbn in Hs1; subst w1;
    [|by erewrite bind_raise].
  erewrite bind_ok; [|exact Hmsa].
  pose proof (load1_still weights w) as Hs2.
  destruct (load1 weights w) as [[weights_v|e] w1] eqn:Hw; cbn in Hs2; subst w1;
    [|by erewrite bind_raise].
  erewrite bind_ok; [|exact Hw].
  destruct (take_along (calculate_Nij msa_v weights_v) (tril_indices (ncol res)))
    as [n_ij|e] eqn:Htake; [|by erewrite bind_raise].
  erewrite bind_ok; [|reflexivity].
  destruct py; [|by erewrite bind_raise].
  erewrite bind_ok; [|reflexivity].
  erewrite bind_ok; [|reflexivity].
  set (mp := fresh (dom (heap w))).
  set (n := ncol res * (ncol res - 1) / 2).
  set (w2 := set_heap _ w).
  assert (Hfill : filling mp n w2 w2).
  { split; [|done]. exists (zeros2 n 400). subst w2. cbn [heap set_heap].
    rewrite lookup_insert_eq. split; [done|]. apply length_zeros2. }
  pose proof (hoare_fill_model_prob res pair_freq lambda_pair
                (calculate_Nij msa_v weights_v) mp n w2 w2 Hfill) as Hf.
  destruct (fill_model_prob _ _ _ _ _ w2) as [[index|e] w3] eqn:Hrun;
    destruct Hf as ((rows & Hrows & Hlen & Hall) & Hlog & _).
  - erewrite bind_ok; [|exact Hrun].
    destruct (clamp_and_write_outcome fh {[ "N_ij"%string := n_ij ]} mp rows w3 Hrows)
      as (evs & Hlog3 & Hout).
    exists evs. split; [by rewrite Hlog3, Hlog|].
    destruct (clamp_and_write _ _ _ w3).1 as [[]|e]; [|done].
    destruct Hout as [Hwritten Hnan].
    exists n_ij, (map clamp (concat rows)). split; [exact Hwritten|].
    split; [done|]. split; [|split; [|split]].
    + intros msa_v' weights_v' Hmsa' Hw'.
      apply load_msa_ok in Hmsa'. apply load1_ok in Hw'. congruence.
    + rewrite (take_along_length _ _ _ Htake), tril_indices_rows.
      apply lower_rows_ascending_length.
    + rewrite length_map, (length_concat_uniform _ 400) by done. lia.
    + apply Forall_forall. intros q Hq. split.
      * apply list_elem_of_In, in_map_iff in Hq as (q0 & <- & _).
        apply clamp_not_negative.
      * apply not_true_iff_false. intros Hq'.
        assert (existsb PrimFloat.is_nan (map clamp (concat rows)) = true); [|congruence].
        apply existsb_exists. exists q. split; [by apply list_elem_of_In | done].
  - erewrite bind_raise; [|exact Hrun]. exists []. cbn [fst snd].
    by rewrite app_nil_r, Hlog.
Qed.

(** The same through the wrapper. *)
Lemma write_msgpack_outcome `{CountsEngine} (py : python) (f : file_arg) (res : result)
    (msa weights pair_freq : loc) (lambda_pair : float) (w : world) :
  all_or_nothing (target_handle f w)
    (λ n_ij q_ij,
       py = Python2 ∧
       (∀ msa_v weights_v,
          heap w !! msa = Some (NdU8 msa_v) → heap w !! weights = Some (Nd1 weights_v) →
          take_along (calculate_Nij msa_v weights_v) (tril_indices (ncol res)) = Ok n_ij) ∧
       length n_ij = ncol res * (ncol res - 1) / 2 ∧
       length q_ij = 400 * (ncol res * (ncol res - 1) / 2) ∧
       Forall (λ q, is_negative q = false ∧ PrimFloat.is_nan q = false) q_ij)
    w (write_msgpack py f res msa weights pair_freq lambda_pair w).
Proof.
  unfold write_msgpack. destruct f as [p|fh]; cbn [stream_or_file target_handle].
  - unfold open_fn. destruct (openable w p) eqn:Hopen.
    + set (w1 := World _ _ _ _ _).
      destruct (write_msgpack_fn_outcome py (next_handle w) res msa weights pair_freq
                  lambda_pair w1) as (evs & Hlog & Hout).
      destruct (write_msgpack_fn _ _ _ _ _ _ _ w1) as [r w2]. cbn in *.
      exists ([EvOpen (endswith p ".gz") p "wb" (next_handle w)] ++ evs
              ++ [EvClose (next_handle w)]).
      split; [by rewrite Hlog, <- !app_assoc|].
      rewrite !written_app. cbn. rewrite app_nil_r.
      destruct r as [[]|e]; [|done]. exact Hout.
    + exists []. by rewrite app_nil_r.
  - apply write_msgpack_fn_outcome.
Qed.

(** X12. All or nothing, for every call and either interpreter: whatever
    the arrays hold,
    whatever their shapes and whether or not the target can be opened or
    written, a call that raises has written no container, and a call that
    returns has written exactly one, to the target handle, with "N_ij" of
    length [L (L - 1) / 2] and "q_ij" of length [400 * L (L - 1) / 2], no
    value of which is negative or NaN. *)
Theorem written_all_or_nothing `{CountsEngine} (py : python) (f : file_arg) (res : result)
    (msa weights pair_freq : loc) (lambda_pair : float) (w : world) :
  ∃ evs,
    log (write_msgpack py f res msa weights pair_freq lambda_pair w).2 = log w ++ evs ∧
    match (write_msgpack py f res msa weights pair_freq lambda_pair w).1 with
    | Ok _ =>
        ∃ n_ij q_ij,
          written evs = [(target_handle f w, container n_ij q_ij)] ∧
          length n_ij = ncol res * (ncol res - 1) / 2 ∧
          length q_ij = 400 * (ncol res * (ncol res - 1) / 2) ∧
          Forall (λ q, (q <? 0)%float = false ∧ PrimFloat.is_nan q = false) q_ij
    | Raise _ => written evs = []
    end.
Proof.
  destruct (write_msgpack_outcome py f res msa weights pair_freq lambda_pair w)
    as (evs & Hlog & Hout).
  exists evs. split; [done|].
  destruct (write_msgpack py f res msa weights pair_freq lambda_pair w).1 as [[]|e];
    [|done].
  destruct Hout as (n_ij & q_ij & Hw & _ & _ & Hrest). by exists n_ij, q_ij.
Qed.

(** ** Python 3 *)

(** Under Python 3 the undecorated function never gets past line 57. *)
Lemma write_msgpack_fn_python3 `{CountsEngine} (fh : handle) (res : result)
    (msa weights pair_freq : loc) (lambda_pair : float) (w : world) :
  ∃ e, write_msgpack_fn Python3 fh res msa weights pair_freq lambda_pair w = (Raise e, w) ∧
       ∀ msa_v weights_v n_ij,
         heap w !! msa = Some (NdU8 msa_v) → heap w !! weights = Some (Nd1 weights_v) →
         take_along (calculate_Nij msa_v weights_v) (tril_indices (ncol res)) = Ok n_ij →
         e = TypeError.
Proof.
  unfold write_msgpack_fn.
  pose proof (load_msa_still msa w) as Hs1.
  destruct (load_msa msa w) as [[msa_v|e] w1] eqn:Hmsa; cbn in Hs1; subst w1.
  2:{ exists e. split; [by erewrite bind_raise|].
      intros msa_v weights_v n_ij Hm%load_msa_ok. congruence. }
  erewrite bind_ok; [|exact Hmsa].
  pose proof (load1_still weights w) as Hs2.
  destruct (load1 weights w) as [[weights_v|e] w1] eqn:Hw; cbn in Hs2; subst w1.
  2:{ exists e. split; [by erewrite bind_raise|].
      intros msa_v' weights_v n_ij _ Hw'%load1_ok. congruence. }
  erewrite bind_ok; [|exact Hw].
  destruct (take_along (calculate_Nij msa_v weights_v) (tril_indices (ncol res)))
    as [n_ij|e] eqn:Htake.
  2:{ exists e. split; [by erewrite bind_raise|].
      intros msa_v' weights_v' n_ij Hm%load_msa_ok Hw'%load1_ok. congruence. }
  erewrite bind_ok; [|reflexivity].
  exists TypeError. split; [by erewrite bind_raise | done].
Qed.

(** X15. Under Python 3 no call of [write_msgpack] returns: whatever the
    arguments, the call raises, and it leaves the heap as it was (no array is
    allocated) and the output as it was (nothing is printed, nothing is
    written). On well-formed arguments whose target can be opened, what it
    raises is the TypeError of line 57, where the number of rows handed to
    [np.zeros] is a float. *)
Theorem python3_never_returns `{CountsEngine} (f : file_arg) (res : result)
    (msa weights pair_freq : loc) (lambda_pair : float) (w : world) :
  (∃ e, (write_msgpack Python3 f res msa weights pair_freq lambda_pair w).1 = Raise e) ∧
  heap (write_msgpack Python3 f res msa weights pair_freq lambda_pair w).2 = heap w ∧
  written (log (write_msgpack Python3 f res msa weights pair_freq lambda_pair w).2)
    = written (log w) ∧
  printed (log (write_msgpack Python3 f res msa weights pair_freq lambda_pair w).2)
    = printed (log w) ∧
  (∀ msa_v weights_v pf xp,
     well_formed_call res msa weights pair_freq (heap w) msa_v weights_v pf xp →
     can_open f w = true →
     (write_msgpack Python3 f res msa weights pair_freq lambda_pair w).1 = Raise TypeError).
Proof.
  unfold write_msgpack. destruct f as [p|fh]; cbn [stream_or_file can_open].
  - unfold open_fn. destruct (openable w p) eqn:Hopen.
    2:{ split; [by eexists|]. split; [done|]. split; [done|]. split; [done|].
        by intros. }
    set (w1 := World _ _ _ _ _).
    destruct (write_msgpack_fn_python3 (next_handle w) res msa weights pair_freq
                lambda_pair w1) as (e & -> & He).
    cbn. split; [by eexists|]. split; [done|].
    unfold written, printed. rewrite !omap_app. cbn. rewrite !app_nil_r.
    split; [done|]. split; [done|].
    intros msa_v weights_v pf xp (Hmsa & Hw & _ & _ & Hpc & _) _. f_equal.
    apply (He msa_v weights_v
             (map (λ ij, at2 (calculate_Nij msa_v weights_v) ij.1 ij.2)
                  (lower_rows_ascending (ncol res)))); [done..|].
    rewrite tril_indices_rows.
    apply (take_along_ok _ (ncol res) (ncol res)); [exact (calculate_Nij_shape _ _ _ _ _ _ Hpc)|].
    intros i j Hij%lower_rows_ascending_bound. lia.
  - destruct (write_msgpack_fn_python3 fh res msa weights pair_freq lambda_pair w)
      as (e & -> & He).
    cbn. split; [by eexists|]. split; [done|]. split; [done|]. split; [done|].
    intros msa_v weights_v pf xp (Hmsa & Hw & _ & _ & Hpc & _) _. f_equal.
    apply (He msa_v weights_v
             (map (λ ij, at2 (calculate_Nij msa_v weights_v) ij.1 ij.2)
                  (lower_rows_ascending (ncol res)))); [done..|].
    rewrite tril_indices_rows.
    apply (take_along_ok _ (ncol res) (ncol res)); [exact (calculate_Nij_shape _ _ _ _ _ _ Hpc)|].
    intros i j Hij%lower_rows_ascending_bound. lia.
Qed.

(** ** Zero counts *)

Lemma is_zero_inv (x : float) :
  PrimFloat.is_zero x = true → ∃ s, Prim2SF x = SpecFloat.S754_zero s.
Proof.
  unfold PrimFloat.is_zero. rewrite FloatAxioms.eqb_spec.
  change (Prim2SF zero) with (SpecFloat.S754_zero false).
  destruct (Prim2SF x) as [s| s| |s m e]; cbn;
    [by exists s | by destruct s | done | by destruct s].
Qed.

Lemma is_nan_intro (x : float) :
  Prim2SF x = SpecFloat.S754_nan → PrimFloat.is_nan x = true.
Proof. intros Hx. unfold PrimFloat.is_nan. by rewrite FloatAxioms.eqb_spec, Hx. Qed.

(** Zero divided by zero is NaN, and so is whatever it is subtracted from. *)
Lemma zero_by_zero_is_nan (p x y : float) :
  PrimFloat.is_zero x = true → PrimFloat.is_zero y = true →
  PrimFloat.is_nan (p - x / y)%float = true.
Proof.
  intros [sx Hx]%is_zero_inv [sy Hy]%is_zero_inv. apply is_nan_intro.
  rewrite FloatAxioms.sub_spec, FloatAxioms.div_spec, Hx, Hy.
  by destruct (Prim2SF p) as [s| s| |s m e].
Qed.

Section failure.
Context `{CountsEngine}.
Variable res : result.
Variables msa weights pair_freq : loc.
Variable lambda_pair : float.
Variable msa_v : alignment.
Variable weights_v : vector.
Variables pf xp : tensor4.

Lemma q_entry_in_rows (Nij : matrix) (i j a b : nat) :
  i < j < ncol res → a < 20 → b < 20 →
  q_entry pf xp lambda_pair Nij i j a b ∈ concat (q_rows pf xp lambda_pair Nij (ncol res)).
Proof.
  intros Hij Ha Hb.
  apply (list_elem_of_lookup_2 _ (q_ij_position (ncol res) i j a b)).
  unfold q_ij_position.
  rewrite (lookup_concat_uniform _ 400 _ _ (q_block pf xp lambda_pair Nij i j)); [| | |lia].
  - unfold q_block. by rewrite lookup_grid.
  - apply Forall_forall. intros r Hr%list_elem_of_In.
    apply in_map_iff in Hr as (ij & <- & _). apply q_block_length.
  - unfold q_rows. by rewrite list_lookup_fmap, pairs_lookup.
Qed.

(** Under Python 3 a call on well-formed arguments raises TypeError and
    writes nothing. *)
Lemma python3_fails (f : file_arg) (w : world) :
  well_formed_call res msa weights pair_freq (heap w) msa_v weights_v pf xp →
  can_open f w = true →
  (write_msgpack Python3 f res msa weights pair_freq lambda_pair w).1 = Raise TypeError ∧
  written (log (write_msgpack Python3 f res msa weights pair_freq lambda_pair w).2) =
    written (log w).
Proof.
  intros (Hmsa & Hw & _ & _ & Hpc & _) Hopen. unfold write_msgpack.
  rewrite stream_or_file_run by done. cbn [fst snd].
  destruct (write_msgpack_fn_python3 (target_handle f w) res msa weights pair_freq
              lambda_pair (entered f "wb" w)) as (e & -> & He).
  cbn [fst snd]. split.
  - f_equal.
    apply (He msa_v weights_v
             (map (λ ij, at2 (calculate_Nij msa_v weights_v) ij.1 ij.2)
                  (lower_rows_ascending (ncol res)))); [by rewrite heap_entered..|].
    rewrite tril_indices_rows.
    apply (take_along_ok _ (ncol res) (ncol res)); [exact (calculate_Nij_shape _ _ _ _ _ _ Hpc)|].
    intros i j Hij%lower_rows_ascending_bound. lia.
  - destruct f as [p|fh]; cbn [left_behind entered log]; [|done].
    rewrite !written_app. cbn. by rewrite !app_nil_r.
Qed.

(** X13. On well-formed arguments with a writable target, what
    [write_msgpack] does is decided by the interpreter and by whether a model
    probability is NaN: it returns exactly under Python 2 when none is; it
    raises IndexError exactly under Python 2 when one is, its second clamping
    step never succeeding; it raises TypeError exactly under Python 3. *)
Theorem returns_iff_no_nan (py : python) (f : file_arg) (w : world) :
  well_formed_call res msa weights pair_freq (heap w) msa_v weights_v pf xp →
  can_write f w = true →
  let raw := concat (q_rows pf xp lambda_pair (calculate_Nij msa_v weights_v) (ncol res)) in
  ((write_msgpack py f res msa weights pair_freq lambda_pair w).1 = Ok tt ↔
   py = Python2 ∧ Forall (λ q, PrimFloat.is_nan q = false) raw) ∧
  ((write_msgpack py f res msa weights pair_freq lambda_pair w).1 = Raise IndexError ↔
   py = Python2 ∧ Exists (λ q, PrimFloat.is_nan q = true) raw) ∧
  ((write_msgpack py f res msa weights pair_freq lambda_pair w).1 = Raise TypeError ↔
   py = Python3).
Proof.
  intros Hwf Hcw raw. destruct py.
  - destruct (existsb PrimFloat.is_nan raw) eqn:Hnan.
    + destruct (write_msgpack_nan res msa weights pair_freq lambda_pair msa_v weights_v
                  pf xp f w Hwf (can_write_can_open _ _ Hcw) Hnan) as [Hrun _].
      apply existsb_exists in Hnan as (q & Hq%list_elem_of_In & Hqn).
      rewrite Hrun. split; [|split].
      * split; [done|]. intros [_ Hall]. rewrite Forall_forall in Hall.
        specialize (Hall q Hq). congruence.
      * split; [|done]. intros _. split; [done|]. apply Exists_exists. by exists q.
      * split; done.
    + destruct (write_msgpack_ok res msa weights pair_freq lambda_pair msa_v weights_v
                  pf xp f w Hwf Hcw Hnan) as (w' & evs & Hrun & _).
      assert (Hall : Forall (λ q, PrimFloat.is_nan q = false) raw).
      { apply Forall_forall. intros q Hq. apply not_true_iff_false. intros Hqn.
        assert (existsb PrimFloat.is_nan raw = true); [|congruence].
        apply existsb_exists. exists q. split; [by apply list_elem_of_In | done]. }
      rewrite Hrun. split; [|split].
      * split; done.
      * split; [done|]. intros [_ (q & Hq & Hqn)%Exists_exists].
        rewrite Forall_forall in Hall. specialize (Hall q Hq). congruence.
      * split; done.
  - destruct (python3_fails f w Hwf (can_write_can_open _ _ Hcw)) as [Hrun _].
    rewrite Hrun. split; [|split].
    + split; [done | by intros [? _]].
    + split; [done | by intros [? _]].
    + split; done.
Qed.

(** X14. A pair of columns with a zero count and a zero potential makes
    the call fail. If [Nij[i, j]] is zero for some pair [i < j] and
    [x_pair[i, j, a, b] * lambda_pair] is zero for some symbols [(a, b)], then
    the model probability is [pair_freq - 0 / 0], a NaN: under Python 2
    [write_msgpack] raises IndexError at line 85, under Python 3 it has
    raised TypeError at line 57, and under neither a container is
    written. *)
Theorem zero_count_zero_potential_raises (py : python) (f : file_arg) (w : world)
    (i j a b : nat) :
  well_formed_call res msa weights pair_freq (heap w) msa_v weights_v pf xp →
  can_open f w = true →
  i < j < ncol res → a < 20 → b < 20 →
  PrimFloat.is_zero (at2 (calculate_Nij msa_v weights_v) i j) = true →
  PrimFloat.is_zero (at4 xp i j a b * lambda_pair)%float = true →
  PrimFloat.is_nan (q_entry pf xp lambda_pair (calculate_Nij msa_v weights_v) i j a b)
    = true ∧
  (write_msgpack py f res msa weights pair_freq lambda_pair w).1 =
    Raise (match py with Python2 => IndexError | Python3 => TypeError end) ∧
  written (log (write_msgpack py f res msa weights pair_freq lambda_pair w).2) =
    written (log w).
Proof.
  intros Hwf Hopen Hij Ha Hb Hn Hx.
  assert (Hnan : PrimFloat.is_nan
            (q_entry pf xp lambda_pair (calculate_Nij msa_v weights_v) i j a b) = true).
  { unfold q_entry. by apply zero_by_zero_is_nan. }
  split; [done|]. destruct py.
  - apply (write_msgpack_nan res msa weights pair_freq lambda_pair msa_v weights_v pf xp);
      [done..|].
    apply existsb_exists.
    exists (q_entry pf xp lambda_pair (calculate_Nij msa_v weights_v) i j a b).
    split; [by apply list_elem_of_In, q_entry_in_rows | done].
  - by apply python3_fails.
Qed.

(** C3 (as amended). The "N_ij" entry that [write_msgpack] builds at line 54
    has length [L(L-1)/2] and lists the cells of [Nij] below the diagonal row
    by row, with the row index [i] going up from the smallest and, within a
    row, the column [j] going up from 0 to [i - 1]. Whatever container a call
    writes holds that sequence under "N_ij", and under Python 2, with a
    writable target and no NaN model probability, the call writes one. *)
Theorem n_ij_rows_ascending (py : python) (f : file_arg) (w : world) :
  well_formed_call res msa weights pair_freq (heap w) msa_v weights_v pf xp →
  let Nij := calculate_Nij msa_v weights_v in
  let rows := flat_map (λ i, map (λ j, at2 Nij i j) (seq 0 i)) (seq 0 (ncol res)) in
  take_along Nij (tril_indices (ncol res)) = Ok rows ∧
  length rows = ncol res * (ncol res - 1) / 2 ∧
  (∃ evs,
     log (write_msgpack py f res msa weights pair_freq lambda_pair w).2 = log w ++ evs ∧
     ∀ fh out, (fh, out) ∈ written evs → out !! "N_ij"%string = Some rows) ∧
  (py = Python2 → can_write f w = true →
   existsb PrimFloat.is_nan (concat (q_rows pf xp lambda_pair Nij (ncol res))) = false →
   ∃ w' evs out,
     write_msgpack py f res msa weights pair_freq lambda_pair w = (Ok tt, w') ∧
     log w' = log w ++ evs ∧
     written evs = [(target_handle f w, out)] ∧
     out !! "N_ij"%string = Some rows).
Proof.
  intros Hwf Nij rows.
  assert (Hrows : map (λ ij, at2 Nij ij.1 ij.2) (lower_rows_ascending (ncol res)) = rows).
  { subst rows. unfold lower_rows_ascending. generalize (seq 0 (ncol res)).
    induction l as [|i l IH]; [done|]. cbn [flat_map]. by rewrite map_app, map_map, IH. }
  assert (Htake : take_along Nij (tril_indices (ncol res)) = Ok rows).
  { rewrite <- Hrows, tril_indices_rows.
    destruct Hwf as (_ & _ & _ & _ & Hpc & _).
    apply (take_along_ok _ (ncol res) (ncol res)); [exact (calculate_Nij_shape _ _ _ _ _ _ Hpc)|].
    intros i j Hij%lower_rows_ascending_bound. lia. }
  split; [done|]. split.
  { by rewrite <- Hrows, length_map, lower_rows_ascending_length. }
  split.
  - destruct (write_msgpack_outcome py f res msa weights pair_freq lambda_pair w)
      as (evs & Hlog & Hout).
    exists evs. split; [done|]. intros fh out Hin.
    destruct (write_msgpack py f res msa weights pair_freq lambda_pair w).1 as [[]|e].
    + destruct Hout as (n_ij & q_ij & Hw & _ & Hn & _).
      rewrite Hw in Hin. apply list_elem_of_singleton in Hin as [= -> ->].
      destruct Hwf as (Hmsa & Hwt & _).
      specialize (Hn msa_v weights_v Hmsa Hwt). fold Nij in Hn.
      assert (n_ij = rows) as -> by congruence.
      unfold container. by rewrite lookup_insert_ne, lookup_singleton_eq.
    + rewrite Hout in Hin. by apply elem_of_nil in Hin.
  - intros -> Hcw Hnan.
    destruct (write_msgpack_ok res msa weights pair_freq lambda_pair msa_v weights_v
                pf xp f w Hwf Hcw Hnan) as (w' & evs & Hrun & Hlog & Hout & _).
    eexists w', evs, _. split; [done|]. split; [done|]. split; [exact Hout|].
    fold Nij. rewrite Hrows. unfold container.
    by rewrite lookup_insert_ne, lookup_singleton_eq.
Qed.

End failure.

(** ** The layout and the edge cases on concrete inputs *)

(** C3 (as amended) on [world_four] under Python 2: the rows of [Nij] below
    the diagonal are [[5]], [[3; 1]] and [[0; 0; 0]], built and stored in
    that order. *)
Lemma n_ij_rows_ascending_witness :
  take_along (calculate_Nij (H := Counts.spec_engine) msa_four weights_four) (tril_indices 4)
    = Ok [5%float; 3%float; 1%float; 0%float; 0%float; 0%float] ∧
  ∃ w' evs out,
    run Python2 (Path "model.msgpack.gz") 4 0.25%float world_four = (Ok tt, w') ∧
    log w' = evs ∧
    written evs = [(8, out)] ∧
    out !! "N_ij"%string = Some [5%float; 3%float; 1%float; 0%float; 0%float; 0%float].
Proof.
  destruct (n_ij_rows_ascending (H := Counts.spec_engine) (Result 4 3) 0 1 2 0.25%float
              msa_four weights_four (ramp4 4 0%float) (const4 4 1%float)
              Python2 (Path "model.msgpack.gz") world_four)
    as (Htake & _ & _ & Hrun).
  - repeat split; vm_compute; reflexivity.
  - split; [etransitivity; [exact Htake|]; vm_compute; reflexivity|].
    destruct Hrun as (w' & evs & out & Hrun & Hlog & Hout & Hn);
      [reflexivity | reflexivity | vm_compute; reflexivity|].
    exists w', evs, out. split; [exact Hrun|]. split; [exact Hlog|].
    split; [exact Hout|]. etransitivity; [exact Hn|]. vm_compute. reflexivity.
Defined.

(** C3 as stated fails on [world_four]. The sequence built at line 54, the
    same under either interpreter, starts with row 1, [Nij[1,0] = 5]; with
    the row index going down from the largest it would start with row 3,
    whose counts are 0. Under Python 2 the container holds the sequence as
    built; under Python 3 no container is written at all. *)
Lemma n_ij_not_rows_descending :
  take_along (calculate_Nij (H := Counts.spec_engine) msa_four weights_four) (tril_indices 4)
    = Ok [5%float; 3%float; 1%float; 0%float; 0%float; 0%float] ∧
  map (λ ij, at2 (calculate_Nij (H := Counts.spec_engine) msa_four weights_four) ij.1 ij.2)
      (lower_rows_descending 4)
    = [0%float; 0%float; 0%float; 3%float; 1%float; 5%float] ∧
  [5%float; 3%float; 1%float; 0%float; 0%float; 0%float]
    ≠ [0%float; 0%float; 0%float; 3%float; 1%float; 5%float] ∧
  map (λ hc, hc.2 !! "N_ij"%string)
      (written (log (run Python2 (Stream 7) 4 0.25%float world_four).2))
    = [Some [5%float; 3%float; 1%float; 0%float; 0%float; 0%float]] ∧
  (run Python3 (Stream 7) 4 0.25%float world_four).1 = Raise TypeError ∧
  written (log (run Python3 (Stream 7) 4 0.25%float world_four).2) = [].
Proof.
  split; [vm_compute; reflexivity|]. split; [vm_compute; reflexivity|].
  split; [|vm_compute; repeat split].
  intros Heq.
  apply (f_equal (λ l, match l with q :: _ => PrimFloat.is_zero q | [] => false end)) in Heq.
  vm_compute in Heq. discriminate Heq.
Qed.

(** X8 on [world_four], written to a gzip path: with four columns the
    count of the cell (2, 1) is at position 2 of "N_ij"; the value of the
    pair (1, 2) for the symbols (1, 2) is at position 1222 of "q_ij", and
    the block of the pair (0, 3), minus infinity clamped to zero, starts
    at position 800. *)
Lemma container_positions_witness :
  ∃ w' evs n_ij q_ij,
    run Python2 (Path "model.msgpack.gz") 4 0.25%float world_four = (Ok tt, w') ∧
    log w' = evs ∧
    written evs = [(8, container n_ij q_ij)] ∧
    n_ij !! 2 = Some 1%float ∧
    q_ij !! 1222 = Some 5.03125%float ∧
    q_ij !! 800 = Some 0%float.
Proof.
  destruct (container_positions (H := Counts.spec_engine) (Result 4 3) 0 1 2 0.25%float
              msa_four weights_four (ramp4 4 0%float) (const4 4 1%float)
              (Path "model.msgpack.gz") world_four)
    as (w' & evs & n_ij & q_ij & Hrun & Hlog & Hout & Hn & Hq).
  - repeat split; vm_compute; reflexivity.
  - reflexivity.
  - vm_compute. reflexivity.
  - exists w', evs, n_ij, q_ij. split; [exact Hrun|]. split; [exact Hlog|].
    split; [exact Hout|]. split; [|split].
    + etransitivity; [exact (Hn 2 1 ltac:(cbn; lia))|]. vm_compute. reflexivity.
    + etransitivity; [exact (Hq 1 2 1 2 ltac:(cbn; lia) ltac:(lia) ltac:(lia))|].
      vm_compute. reflexivity.
    + etransitivity; [exact (Hq 0 3 0 0 ltac:(cbn; lia) ltac:(lia) ltac:(lia))|].
      vm_compute. reflexivity.
Defined.

(** X9 on [world_plain] with [res.ncol = 1], under both interpreters. *)
Lemma at_most_one_column_witness :
  (∃ w' evs,
     run Python2 (Stream 7) 1 0.25%float world_plain = (Ok tt, w') ∧
     log w' = evs ∧
     written evs = [(7, container [] [])] ∧
     printed evs = []) ∧
  run Python3 (Stream 7) 1 0.25%float world_plain = (Raise TypeError, world_plain).
Proof.
  destruct (at_most_one_column (H := Counts.spec_engine) (Result 1 3) 0 1 2 0.25%float
              [[0; 0]] [1%float] (Stream 7) world_plain)
    as ((w' & evs & Hrun & Hlog & Hout & Hpr) & Hrun3); [cbn; lia | reflexivity..|].
  split; [|exact Hrun3]. by exists w', evs.
Defined.

(** X10 on [world_plain], whose counts have two columns, with
    [res.ncol = 3], under Python 3. *)
Lemma short_counts_raise_witness :
  (run Python3 (Path "model.msgpack") 3 0.25%float world_plain).1 = Raise IndexError ∧
  log (run Python3 (Path "model.msgpack") 3 0.25%float world_plain).2 =
    [EvOpen false "model.msgpack" "wb" 8; EvClose 8].
Proof.
  pose proof (short_counts_raise (H := Counts.spec_engine) (Result 3 3) 0 1 2 0.25%float
                [[0; 0]] [1%float] Python3 (Path "model.msgpack") world_plain) as Hrun.
  unfold run. rewrite Hrun; [done | cbn; lia | vm_compute; lia | reflexivity..].
Defined.

(** X13 on [world_plain], which has no NaN, and on [world_nan]. *)
Lemma returns_iff_no_nan_witness :
  (run Python2 (Stream 7) 2 0.25%float world_plain).1 = Ok tt ∧
  (run Python2 (Stream 7) 2 0.25%float world_nan).1 = Raise IndexError ∧
  (run Python3 (Stream 7) 2 0.25%float world_plain).1 = Raise TypeError.
Proof.
  split; [|split].
  - apply (returns_iff_no_nan (H := Counts.spec_engine) (Result 2 3) 0 1 2 0.25%float
             [[0; 0]] [1%float] (const4 2 0.5%float) (const4 2 1%float)
             Python2 (Stream 7) world_plain).
    + repeat split; vm_compute; reflexivity.
    + reflexivity.
    + split; [done|]. apply Forall_forall. intros q Hq.
      apply not_true_iff_false. intros Hqn.
      assert (Hex : existsb PrimFloat.is_nan
                (concat (q_rows (const4 2 0.5%float) (const4 2 1%float) 0.25%float
                   (calculate_Nij (H := Counts.spec_engine) [[0; 0]] [1%float]) 2)) = true).
      { apply existsb_exists. exists q. split; [by apply list_elem_of_In | done]. }
      vm_compute in Hex. discriminate Hex.
  - apply (returns_iff_no_nan (H := Counts.spec_engine) (Result 2 3) 0 1 2 0.25%float
             [[0; 20]] [1%float] (const4 2 0.5%float) (const4 2 0%float)
             Python2 (Stream 7) world_nan).
    + repeat split; vm_compute; reflexivity.
    + reflexivity.
    + split; [done|]. apply Exists_exists. exists nan. split; [|reflexivity].
      apply (list_elem_of_lookup_2 _ 0). vm_compute. reflexivity.
  - apply (returns_iff_no_nan (H := Counts.spec_engine) (Result 2 3) 0 1 2 0.25%float
             [[0; 0]] [1%float] (const4 2 0.5%float) (const4 2 1%float)
             Python3 (Stream 7) world_plain).
    + repeat split; vm_compute; reflexivity.
    + reflexivity.
    + reflexivity.
Defined.

(** X14 on [world_nan]: [Nij[0, 1] = 0] and the potentials are zero. *)
Lemma zero_count_zero_potential_raises_witness :
  (run Python2 (Stream 7) 2 0.25%float world_nan).1 = Raise IndexError ∧
  written (log (run Python2 (Stream 7) 2 0.25%float world_nan).2) = [].
Proof.
  destruct (zero_count_zero_potential_raises (H := Counts.spec_engine) (Result 2 3) 0 1 2
              0.25%float [[0; 20]] [1%float] (const4 2 0.5%float) (const4 2 0%float)
              Python2 (Stream 7) world_nan 0 1 0 0) as (_ & Hrun & Hw).
  - repeat split; vm_compute; reflexivity.
  - reflexivity.
  - cbn. lia.
  - lia.
  - lia.
  - vm_compute. reflexivity.
  - vm_compute. reflexivity.
  - split; [exact Hrun | exact Hw].
Defined.

End container.
